(** * DroidAuto: the instruction-execution control loop, embedded in Rocq

  A shallow embedding of the TypeScript server of DroidAuto:
  - [Js]: the fragment of JavaScript values the server manipulates;
  - [UiExtractor]: services/uiExtractor.ts (layout tree, bounds, queries);
  - [Eff]: the effects of the server (device transport, model endpoint,
    socket events) as a state-and-exception monad over an explicit world;
  - [CommandExecutor]: services/commandExecutor.ts;
  - [AiService]: services/aiService.ts (normalizer, session history, prompts);
  - [SocketHandlers]: socketHandlers.ts (the orchestration loop);
  - [InputText]: the escaping step of inputText in services/androidConnection.ts;
  - [AiRoutes]: routes/aiRoutes.ts (the REST sessions).

  Definitions come first, the properties of each module afterwards. *)

From Stdlib Require Import ZArith String Ascii List Bool Lia.
From stdpp Require Import base option list strings gmap pretty.

Set Warnings "-register-all".
Open Scope Z_scope.

(* ===================================================================== *)
(** * JavaScript values *)
(* ===================================================================== *)

Module Js.

(** The values that JSON.parse produces, plus [undefined].  Numbers are
    integers: every number the server computes with is a pixel coordinate,
    a key code or a duration, well inside the range where IEEE doubles are
    exact. Objects are finite maps from property names to values. *)
Inductive value : Type :=
| VUndef
| VNull
| VBool (b : bool)
| VNum (n : Z)
| VStr (s : string)
| VArr (l : list value)
| VObj (o : gmap string value).

Abbreviation obj := (gmap string value).

(** ToBoolean: [if (v)], [!v], [v || w]. *)
Definition truthy (v : value) : bool :=
  match v with
  | VUndef | VNull => false
  | VBool b => b
  | VNum n => negb (n =? 0)
  | VStr s => negb (String.eqb s "")
  | VArr _ | VObj _ => true
  end.

(** [a || b] *)
Definition or_else (a b : value) : value := if truthy a then a else b.

(** [o.k]: reading a missing property gives [undefined]. *)
Definition getv (o : obj) (k : string) : value := default VUndef (o !! k).

(** [v === undefined] *)
Definition is_undefined (v : value) : bool :=
  match v with VUndef => true | _ => false end.

(** [v === 's'] for a string literal. *)
Definition str_is (v : value) (s : string) : bool :=
  match v with VStr s' => String.eqb s' s | _ => false end.

(** [v === true] *)
Definition is_true (v : value) : bool :=
  match v with VBool true => true | _ => false end.

(** [Array.isArray(v)] *)
Definition isArray (v : value) : bool :=
  match v with VArr _ => true | _ => false end.

(** [Array.isArray(v) && v.length === n] *)
Definition isArrayOfLength (v : value) (n : nat) : bool :=
  match v with VArr l => Nat.eqb (length l) n | _ => false end.

(** [v[i]] on an array; out of range gives [undefined]. *)
Definition index (v : value) (i : nat) : value :=
  match v with VArr l => default VUndef (l !! i) | _ => VUndef end.

Fixpoint indexed {A} (f : A -> value) (i : nat) (l : list A) : list (string * value) :=
  match l with
  | [] => []
  | x :: l' => (pretty i, f x) :: indexed f (S i) l'
  end.

Definition chars (s : string) : list ascii := list_ascii_of_string s.

(** [{ ...v }]: the own enumerable properties of [v] copied into a fresh
    object. Arrays and strings spread their indices, the other primitives
    spread nothing. *)
Definition spread (v : value) : obj :=
  match v with
  | VObj o => o
  | VArr l => list_to_map (indexed (fun x => x) 0 l)
  | VStr s => list_to_map (indexed (fun c => VStr (String c EmptyString)) 0 (chars s))
  | _ => ∅
  end.

End Js.

(* ===================================================================== *)
(** * services/uiExtractor.ts *)
(* ===================================================================== *)

Module UiExtractor.

Record Bounds : Type := mkBounds {
  left : Z;
  top : Z;
  right : Z;
  bottom : Z;
  centerX : Z;
  centerY : Z;
  width : Z;
  height : Z
}.

Inductive UIElement : Type := mkUIElement {
  type : option string;
  id : option string;
  text : option string;
  contentDesc : option string;
  clickable : bool;
  bounds : Bounds;
  depth : nat;
  children : list UIElement
}.

Record FindClickableOptions : Type := mkOptions {
  opt_text : option string;
  opt_contentDesc : option string;
  opt_resourceId : option string;
  opt_className : option string
}.

(** A node of the object tree xml2js builds. Attributes are strings or
    missing. [node.node] is missing (or falsy), one child, or an array whose
    entries may themselves be falsy ([None]). *)
Inductive RawNode : Type :=
| Raw (class resource_id rtext content_desc rclickable rbounds : option string)
      (node : RawKids)
with RawKids : Type :=
| NoKids
| OneKid (k : RawNode)
| ManyKids (ks : list (option RawNode)).

(** ** The pattern [/\[(\d+),(\d+)\]\[(\d+),(\d+)\]/] *)

Definition is_digit (c : ascii) : bool :=
  let n := nat_of_ascii c in (48 <=? n)%nat && (n <=? 57)%nat.

Definition digit_value (c : ascii) : Z := Z.of_nat (nat_of_ascii c) - 48.

(** The longest run of digits at the head of [s], read as [Number] reads
    it (base ten), and what follows it. *)
Fixpoint digits_from (acc : Z) (s : string) : Z * string :=
  match s with
  | String c s' =>
      if is_digit c then digits_from (10 * acc + digit_value c) s' else (acc, s)
  | EmptyString => (acc, s)
  end.

(** [\d+]: at least one digit. The run is taken greedily; a shorter run
    would be followed by a digit, never by the literal the pattern wants
    next, so no backtracking is lost. *)
Definition digits (s : string) : option (Z * string) :=
  match s with
  | String c _ => if is_digit c then Some (digits_from 0 s) else None
  | EmptyString => None
  end.

Definition lit (c : ascii) (s : string) : option string :=
  match s with
  | String c' s' => if Ascii.eqb c c' then Some s' else None
  | EmptyString => None
  end.

(** The pattern anchored at the head of [s]: the four captured numbers. *)
Definition match_here (s : string) : option (Z * Z * Z * Z) :=
  s ← lit "[" s; '(l, s) ← digits s; s ← lit "," s; '(t, s) ← digits s;
  s ← lit "]" s; s ← lit "[" s; '(r, s) ← digits s; s ← lit "," s;
  '(b, s) ← digits s; _ ← lit "]" s; Some (l, t, r, b).

(** [boundsStr.match(...)]: the leftmost position where the pattern matches. *)
Fixpoint match_bounds (s : string) : option (Z * Z * Z * Z) :=
  match match_here s with
  | Some m => Some m
  | None =>
      match s with
      | String _ s' => match_bounds s'
      | EmptyString => None
      end
  end.

Definition zeroBounds : Bounds := mkBounds 0 0 0 0 0 0 0 0.

(** [parseBounds(boundsStr)]; [None] is a missing attribute. [Z.div] rounds
    towards minus infinity, like [Math.floor] of the quotient. *)
Definition parseBounds (boundsStr : option string) : Bounds :=
  match boundsStr with
  | None => zeroBounds
  | Some s =>
      if String.eqb s "" then zeroBounds else
      match match_bounds s with
      | None => zeroBounds
      | Some (left, top, right, bottom) =>
          let width := right - left in
          let height := bottom - top in
          {| left := left; top := top; right := right; bottom := bottom;
             centerX := (left + right) / 2;
             centerY := (top + bottom) / 2;
             width := width; height := height |}
      end
  end.

(** [processNode(node, depth)] on a truthy node. *)
Fixpoint processNode (node : RawNode) (depth : nat) : UIElement :=
  match node with
  | Raw class resource_id rtext content_desc rclickable rbounds kids =>
      {| type := class;
         id := resource_id;
         text := rtext;
         contentDesc := content_desc;
         clickable := match rclickable with
                      | Some s => String.eqb s "true"
                      | None => false
                      end;
         bounds := parseBounds rbounds;
         depth := depth;
         children :=
           match kids with
           | NoKids => []
           | OneKid k => [processNode k (S depth)]
           | ManyKids ks =>
               (fix each (ks : list (option RawNode)) : list UIElement :=
                  match ks with
                  | [] => []
                  | Some k :: ks' => processNode k (S depth) :: each ks'
                  | None :: ks' => each ks'
                  end) ks
           end |}
  end.

(** [processNode(node)] as [extractUIElements] calls it: a falsy node
    gives [null]. *)
Definition processRoot (node : option RawNode) : option UIElement :=
  match node with
  | None => None
  | Some n => Some (processNode n 0)
  end.

(** [wanted && actual !== wanted]: a supplied, non-empty predicate field
    that the element does not carry exactly. *)
Definition mismatch (wanted actual : option string) : bool :=
  match wanted with
  | None => false
  | Some w =>
      if String.eqb w "" then false else
      match actual with
      | Some a => negb (String.eqb a w)
      | None => true
      end
  end.

(** The inner [traverse] of [findClickableElements]; the elements pushed
    on [results], in the order they are pushed. *)
Fixpoint traverse (options : FindClickableOptions) (element : UIElement)
  : list UIElement :=
  let matches :=
    negb (mismatch (opt_text options) (text element)) &&
    negb (mismatch (opt_contentDesc options) (contentDesc element)) &&
    negb (mismatch (opt_resourceId options) (id element)) &&
    negb (mismatch (opt_className options) (type element)) in
  (if matches && clickable element then [element] else [])
    ++ flat_map (traverse options) (children element).

Definition noOptions : FindClickableOptions := mkOptions None None None None.

Definition findClickableElements (elements : option UIElement)
    (options : FindClickableOptions) : list UIElement :=
  match elements with
  | None => []
  | Some e => traverse options e
  end.

(** Every element of a tree satisfies [P]. *)
Inductive AllElements (P : UIElement -> Prop) : UIElement -> Prop :=
| AllElements_node e :
    P e -> Forall (AllElements P) (children e) -> AllElements P e.

(** A string that contains the shape [[l,t][r,b]] somewhere, each number
    a non-empty run of decimal digits. *)
Definition all_digits (s : string) : Prop :=
  s <> "" /\ Forall (fun c => is_digit c = true) (Js.chars s).

Definition well_formed_bounds (s : string) : Prop :=
  exists pre l t r b post,
    all_digits l /\ all_digits t /\ all_digits r /\ all_digits b /\
    s = pre +:+ "[" +:+ l +:+ "," +:+ t +:+ "][" +:+ r +:+ "," +:+ b +:+ "]" +:+ post.

End UiExtractor.

(* ===================================================================== *)
(** * The interfaces the services exchange *)
(* ===================================================================== *)

Module DataModel.
Import Js.

(** androidConnection.ts: [ScreenshotResult]. *)
Record ScreenshotResult : Type := mkScreenshot {
  base64 : string;
  path : string;
  shot_timestamp : Z
}.

(** socketHandlers.ts: the [uiElements] half of [getCurrentScreenState];
    the time stamp is whatever the conversion of the extractor's stamp
    yields. *)
Record UiSnapshot : Type := mkUiSnapshot {
  elements : option UiExtractor.UIElement;
  ui_timestamp : value
}.

Record ScreenState : Type := mkScreenState {
  screenshot : ScreenshotResult;
  uiElements : UiSnapshot
}.

(** aiService.ts: [AIResponse]. The fields the model may fill with anything
    are values; [commands] is an array of command objects. *)
Record AIResponse : Type := mkAIResponse {
  thinking : value;
  commands : list obj;
  result : value;
  isTaskComplete : value;
  error : option string
}.

(** aiService.ts: [SimpleCommand] and [SimpleAIResponse]. *)
Record SimpleCommand : Type := mkSimpleCommand {
  sc_type : value;
  sc_isTaskComplete : value
}.

Record SimpleAIResponse : Type := mkSimpleAIResponse {
  s_thinking : string;
  s_commands : list SimpleCommand;
  s_result : value;
  s_isTaskComplete : value
}.

(** aiService.ts: [SessionHistoryItem], over either kind of response. *)
Record SessionHistoryItem (R : Type) : Type := mkItem {
  instruction : string;
  item_screenshot : option Z;
  item_uiElements : option value;
  parsedResponse : R
}.
Arguments mkItem {R}.
Arguments instruction {R}.
Arguments item_screenshot {R}.
Arguments item_uiElements {R}.
Arguments parsedResponse {R}.

Record LastOperation : Type := mkLastOperation {
  op_instruction : string;
  op_timestamp : string
}.

(** aiService.ts: [SessionContext]; both fields are optional. *)
Record SessionContext : Type := mkSessionContext {
  history : option (list (SessionHistoryItem SimpleAIResponse));
  lastOperation : option LastOperation
}.

(** The object literal [{}]. *)
Definition emptyContext : SessionContext := mkSessionContext None None.

(** aiService.ts: [ErrorInfo]. *)
Record ErrorInfo : Type := mkErrorInfo {
  err_command : obj;
  err_message : string
}.

(** aiService.ts: [PromptContent]; an optional part that is absent reads
    as the empty string, which [callLLMAPI] skips just the same. *)
Record PromptContent : Type := mkPrompt {
  systemPrompt : string;
  contextPrompt : string;
  errorContextPrompt : string;
  recentHistoryPrompt : string;
  currentStatePrompt : string
}.

(** aiService.ts: [OpenAIMessage]; [image] is the data URL part of a
    multi-part user message. *)
Record OpenAIMessage : Type := mkMessage {
  role : string;
  content : string;
  image : option string
}.

(** socketHandlers.ts: [CommandResult]. *)
Record CommandResult : Type := mkCommandResult {
  cr_command : obj;
  success : bool;
  cr_result : option obj;
  cr_error : option string
}.

End DataModel.

(* ===================================================================== *)
(** * Effects *)
(* ===================================================================== *)

Module Eff.
Import Js DataModel.

(** What [execPromise] is asked to run: the [adb shell input ...] lines. *)
Inductive DeviceAction : Type :=
| AdbTap (x y : value)
| AdbSwipe (startX startY endX endY duration : value)
| AdbText (text : string)
| AdbKey (keycode : value).

(** What the server does to the outside, in the order it does it. *)
Inductive Event : Type :=
| Emit (event : string) (payload : value)      (* socket.emit *)
| Adb (a : DeviceAction) (failure : option string) (* execPromise *)
| Sleep (ms : value)                           (* setTimeout *)
| Capture (failure : option string)            (* getScreenshot + extractUIElements *)
| Post (messages : list OpenAIMessage) (failure : option string). (* axios.post *)

(** What the server runs on: the built-ins of the JavaScript engine it
    calls, the fixed prompt texts, its configuration and the replies of the
    device and of the model endpoint, each indexed by how many calls of that
    kind came before. *)
Class Host : Type := {
  JSON_parse : string -> option value;
  JSON_stringify : value -> string;
  js_String : value -> string;
  (* group 1 of the two fallback patterns of parseModelResponse *)
  match_commands : string -> option string;
  match_thinking : string -> option string;
  trim : string -> string;
  BASE_SYSTEM_PROMPT : string;
  INSTRUCTION_RULES : string;
  CORRECTION_RULES : string;
  CONTINUATION_RULES : string -> string;
  (* LLM_API_KEY, LLM_MODEL and LLM_ENDPOINT are all set *)
  configured : bool;
  screen_at : nat -> string + ScreenState;
  model_at : nat -> list OpenAIMessage -> string + option (list string);
  adb_at : nat -> DeviceAction -> option string;
  now_at : nat -> string
}.

(** The state the handlers of one socket run in. Session contexts are
    objects handed around by reference, so they live in a store and
    [socket.sessionContext] holds an address. *)
Record World : Type := mkWorld {
  trace : list Event;
  store : list SessionContext;
  socket_sessionContext : option nat;
  captures : nat;
  posts : nat;
  adbs : nat;
  clock : nat
}.

Definition initialWorld : World := mkWorld [] [] None 0 0 0 0.

(** How a call ends: it returns, it throws an [Error] with a message, or
    the bound on the model's recursion was reached. *)
Inductive outcome (A : Type) : Type :=
| Ok (a : A)
| Throw (message : string)
| Starved.
Arguments Ok {A}.
Arguments Throw {A}.
Arguments Starved {A}.

Definition M (A : Type) : Type := World -> outcome A * World.

Definition ret {A} (a : A) : M A := fun w => (Ok a, w).
Definition throw {A} (message : string) : M A := fun w => (Throw message, w).
Definition starve {A} : M A := fun w => (Starved, w).

Definition bind {A B} (c : M A) (k : A -> M B) : M B :=
  fun w =>
    match c w with
    | (Ok a, w') => k a w'
    | (Throw m, w') => (Throw m, w')
    | (Starved, w') => (Starved, w')
    end.

(** [try { c } catch (error) { h(formatError(error)) }] *)
Definition try_catch {A} (c : M A) (h : string -> M A) : M A :=
  fun w =>
    match c w with
    | (Throw m, w') => h m w'
    | r => r
    end.

Declare Scope eff_scope.
Delimit Scope eff_scope with eff.
Notation "'let*' x := c 'in' k" := (bind c (fun x => k))
  (at level 10, x name, c at level 100, k at level 200) : eff_scope.
Notation "c ;;; k" := (bind c (fun _ => k))
  (at level 100, k at level 200, right associativity) : eff_scope.
Open Scope eff_scope.

Definition record (e : Event) : M unit :=
  fun w => (Ok tt, mkWorld (trace w ++ [e]) (store w) (socket_sessionContext w)
                           (captures w) (posts w) (adbs w) (clock w)).

(** [socket.emit(event, payload)] *)
Definition emit (event : string) (payload : value) : M unit :=
  record (Emit event payload).

(** [await new Promise((resolve) => setTimeout(resolve, ms))] *)
Definition sleep (ms : value) : M unit := record (Sleep ms).

(** [new Date().toISOString()] *)
Definition now `{Host} : M string :=
  fun w => (Ok (now_at (clock w)),
            mkWorld (trace w) (store w) (socket_sessionContext w)
                    (captures w) (posts w) (adbs w) (S (clock w))).

(** A fresh object. *)
Definition alloc (c : SessionContext) : M nat :=
  fun w => (Ok (length (store w)),
            mkWorld (trace w) (store w ++ [c]) (socket_sessionContext w)
                    (captures w) (posts w) (adbs w) (clock w)).

Definition load (l : nat) : M SessionContext :=
  fun w => (Ok (default emptyContext (store w !! l)), w).

Definition save (l : nat) (c : SessionContext) : M unit :=
  fun w => (Ok tt, mkWorld (trace w) (<[l := c]> (store w)) (socket_sessionContext w)
                           (captures w) (posts w) (adbs w) (clock w)).

Definition get_socket_sessionContext : M (option nat) :=
  fun w => (Ok (socket_sessionContext w), w).

Definition set_socket_sessionContext (l : nat) : M unit :=
  fun w => (Ok tt, mkWorld (trace w) (store w) (Some l)
                           (captures w) (posts w) (adbs w) (clock w)).

(** [for (const x of xs) { results.push(await f(x)) }] *)
Fixpoint for_each {A B} (f : A -> M B) (xs : list A) : M (list B) :=
  match xs with
  | [] => ret []
  | x :: xs' => let* r := f x in let* rs := for_each f xs' in ret (r :: rs)
  end.

End Eff.

(* ===================================================================== *)
(** * services/androidConnection.ts *)
(* ===================================================================== *)

Module AndroidConnection.
Import Js DataModel Eff.

Section WithHost.
Context `{Host}.

(** [await execPromise(`${adbPath} shell input ...`)]: the device obeys or
    the call rejects. A missing device ([checkConnectedDevices] throwing)
    is one of the ways it rejects. *)
Definition execPromise (a : DeviceAction) : M unit :=
  fun w =>
    let reply := adb_at (adbs w) a in
    let w' := mkWorld (trace w ++ [Adb a reply]) (store w) (socket_sessionContext w)
                      (captures w) (posts w) (S (adbs w)) (clock w) in
    match reply with
    | None => (Ok tt, w')
    | Some message => (Throw message, w')
    end.

Definition tap (x y : value) : M obj :=
  execPromise (AdbTap x y);;;
  ret {[ "success" := VBool true; "x" := x; "y" := y ]}.

Definition swipe (startX startY endX endY duration : value) : M obj :=
  let duration := if is_undefined duration then VNum 300 else duration in
  execPromise (AdbSwipe startX startY endX endY duration);;;
  ret {[ "success" := VBool true; "startX" := startX; "startY" := startY;
         "endX" := endX; "endY" := endY; "duration" := duration ]}.

(** [text.replace] exists on strings only; on anything else the escaping
    step throws a TypeError before any device command is built. *)
Definition inputText (text : value) : M obj :=
  match text with
  | VStr s =>
      execPromise (AdbText s);;;
      ret {[ "success" := VBool true; "text" := text ]}
  | VUndef | VNull => throw "Cannot read properties of undefined (reading 'replace')"
  | _ => throw "text.replace is not a function"
  end.

Definition pressKey (keycode : value) : M obj :=
  execPromise (AdbKey keycode);;;
  ret {[ "success" := VBool true; "keycode" := keycode ]}.

(** socketHandlers.ts [getCurrentScreenState]: [getScreenshot] and
    [extractUIElements] in a row; either may reject. *)
Definition getCurrentScreenState : M ScreenState :=
  fun w =>
    let reply := screen_at (captures w) in
    let failure := match reply with inl m => Some m | inr _ => None end in
    let w' := mkWorld (trace w ++ [Capture failure]) (store w) (socket_sessionContext w)
                      (S (captures w)) (posts w) (adbs w) (clock w) in
    match reply with
    | inl message => (Throw message, w')
    | inr state => (Ok state, w')
    end.

End WithHost.
End AndroidConnection.

(* ===================================================================== *)
(** * services/commandExecutor.ts *)
(* ===================================================================== *)

Module CommandExecutor.
Import Js DataModel Eff AndroidConnection.

Section WithHost.
Context `{Host}.

(** [wait(duration)] *)
Definition wait (duration : value) : M obj :=
  sleep duration;;;
  ret {[ "success" := VBool true; "duration" := duration ]}.

(** [executeCompositeCommand(commands)], over the executor of one command. *)
Definition executeCompositeCommandWith (executeCommand : value -> M obj)
    (commands : value) : M obj :=
  match commands with
  | VArr ((_ :: _) as cmds) =>
      let* results := for_each executeCommand cmds in
      ret {[ "success" := VBool true; "type" := VStr "composite";
             "results" := VArr (VObj <$> results) ]}
  | _ => throw "复合命令必须是命令数组且不能为空"
  end.

(** [executeCommand(command)]. [fuel] bounds how deep composite commands
    may nest; the other commands need none. *)
Fixpoint executeCommand (fuel : nat) (command : value) : M obj :=
  match command with
  | VObj c =>
      let type := getv c "type" in
      if negb (truthy type) then throw "无效的命令格式"
      else if str_is type "tap" then tap (getv c "x") (getv c "y")
      else if str_is type "swipe" then
        swipe (getv c "startX") (getv c "startY") (getv c "endX") (getv c "endY")
              (getv c "duration")
      else if str_is type "text" then inputText (getv c "text")
      else if str_is type "key" then pressKey (getv c "keycode")
      else if str_is type "wait" then wait (or_else (getv c "duration") (VNum 1000))
      else if str_is type "back" then pressKey (VNum 4)
      else if str_is type "home" then pressKey (VNum 3)
      else if str_is type "app_switch" then pressKey (VNum 187)
      else if str_is type "composite" then
        match fuel with
        | O => starve
        | S fuel' => executeCompositeCommandWith (executeCommand fuel') (getv c "commands")
        end
      else throw ("未知的命令类型: " +:+ js_String type)
  | _ => throw "无效的命令格式"
  end.

Definition executeCompositeCommand (fuel : nat) (commands : value) : M obj :=
  executeCompositeCommandWith (executeCommand fuel) commands.

(** The command types [CommandType] enumerates. *)
Definition CommandType : list string :=
  ["tap"; "swipe"; "text"; "key"; "wait"; "back"; "home"; "app_switch"; "composite"]%string.

End WithHost.
End CommandExecutor.

(* ===================================================================== *)
(** * services/aiService.ts *)
(* ===================================================================== *)

Module AiService.
Import Js DataModel Eff.

Definition MAX_CONTEXT_ITEMS : nat := 5.

(** [normalizeCommand(cmd)] *)
Definition normalizeCommand (cmd : value) : obj :=
  let normalizedCmd := spread cmd in
  (* action used in place of type *)
  let normalizedCmd :=
    if truthy (getv normalizedCmd "action") && negb (truthy (getv normalizedCmd "type"))
    then delete "action" (<["type" := getv normalizedCmd "action"]> normalizedCmd)
    else normalizedCmd in
  (* click, or tap with a coordinate pair *)
  let normalizedCmd :=
    if str_is (getv normalizedCmd "type") "click"
       || (str_is (getv normalizedCmd "type") "tap"
           && isArrayOfLength (getv normalizedCmd "coordinate") 2)
    then
      let coordinate := getv normalizedCmd "coordinate" in
      let tapped := <["type" := VStr "tap"]> normalizedCmd in
      if isArrayOfLength coordinate 2
      then delete "coordinate"
             (<["y" := index coordinate 1]> (<["x" := index coordinate 0]> tapped))
      else tapped
    else normalizedCmd in
  (* swipe with coordinate arrays *)
  if str_is (getv normalizedCmd "type") "swipe" then
    let coordinate := getv normalizedCmd "coordinate" in
    let coordinate2 := getv normalizedCmd "coordinate2" in
    if isArray coordinate && isArray coordinate2 then
      delete "coordinate2" (delete "coordinate"
        (<["endY" := index coordinate2 1]> (<["endX" := index coordinate2 0]>
        (<["startY" := index coordinate 1]> (<["startX" := index coordinate 0]>
           normalizedCmd)))))
    else if isArrayOfLength coordinate 4 then
      delete "coordinate"
        (<["endY" := index coordinate 3]> (<["endX" := index coordinate 2]>
        (<["startY" := index coordinate 1]> (<["startX" := index coordinate 0]>
           normalizedCmd))))
    else normalizedCmd
  else normalizedCmd.

(** The callback of the second [map] of [parseModelResponse]: the two
    completion flags are filled in where the command has none. *)
Definition addCompletionFlags (response_isTaskComplete : value) (cmd : obj) : obj :=
  let cmd :=
    if is_undefined (getv cmd "isTaskComplete")
    then <["isTaskComplete" := or_else response_isTaskComplete (VBool false)]> cmd
    else cmd in
  if is_undefined (getv cmd "isFinalCommand")
  then <["isFinalCommand" := VBool false]> cmd
  else cmd.

(** [commands[commands.length - 1].isFinalCommand = true], when there is
    a last command. *)
Fixpoint markLastFinal (cmds : list obj) : list obj :=
  match cmds with
  | [] => []
  | [cmd] => [<["isFinalCommand" := VBool true]> cmd]
  | cmd :: rest => cmd :: markLastFinal rest
  end.

(** The named properties of what JSON.parse returned, when reading and
    assigning them goes through: an array has none of the four names read
    here, and a primitive ([null] included) makes the first access or
    assignment throw a TypeError. *)
Definition properties (parsed : value) : option obj :=
  match parsed with
  | VObj o => Some o
  | VArr _ => Some ∅
  | _ => None
  end.

(** The body of the inner [try] of [parseModelResponse] after JSON.parse:
    [None] when it throws. *)
Definition cleanResponse (parsed : value) : option AIResponse :=
  match properties parsed with
  | None => None
  | Some parsedResponse =>
      let thinking :=
        if truthy (getv parsedResponse "thinking") then getv parsedResponse "thinking"
        else VStr "无分析过程" in
      let commands :=
        if truthy (getv parsedResponse "commands") then getv parsedResponse "commands"
        else VArr [] in
      match commands with
      | VArr raw =>
          let commands := normalizeCommand <$> raw in
          let commands :=
            addCompletionFlags (getv parsedResponse "isTaskComplete") <$> commands in
          let commands := markLastFinal commands in
          Some {| thinking := thinking;
                  commands := commands;
                  result := getv parsedResponse "result";
                  isTaskComplete := getv parsedResponse "isTaskComplete";
                  error := None |}
      | _ => None (* commands.map is not a function *)
      end
  end.

(** The text before the first occurrence of [p] in [s] and the text after
    it. *)
Fixpoint split_at_first (p s : string) : option (string * string) :=
  if String.prefix p s then Some ("", String.substring (String.length p) (String.length s) s)
  else match s with
       | EmptyString => None
       | String c s' =>
           match split_at_first p s' with
           | Some (before, after) => Some (String c before, after)
           | None => None
           end
       end.

Definition fence_open : string := "```json
".
Definition fence_close : string := "
```".

(** [content.match(/```json\n([\s\S]*?)\n```/)]: the whole match and
    group 1, the text between the first opening fence and the first closing
    fence after it. *)
Definition match_fenced_json (content : string) : option (string * string) :=
  match split_at_first fence_open content with
  | Some (_, after) =>
      match split_at_first fence_close after with
      | Some (group1, _) => Some (fence_open +:+ group1 +:+ fence_close, group1)
      | None => None
      end
  | None => None
  end.

(** The prefix of [s] that ends with its last closing brace. *)
Fixpoint upto_last_brace (s : string) : option string :=
  match s with
  | EmptyString => None
  | String c s' =>
      match upto_last_brace s' with
      | Some r => Some (String c r)
      | None => if Ascii.eqb c "}" then Some (String c EmptyString) else None
      end
  end.

(** [content.match(/{[\s\S]*}/)]: from the first opening brace to the last
    closing brace after it. *)
Fixpoint match_braces (content : string) : option string :=
  match content with
  | EmptyString => None
  | String c s' =>
      if Ascii.eqb c "{"
      then match upto_last_brace s' with
           | Some r => Some (String c r)
           | None => None
           end
      else match_braces s'
  end.

Section WithHost.
Context `{Host}.

(** [jsonMatch[1] || jsonMatch[0]] for
    [content.match(fenced) || content.match(braces)]. *)
Definition jsonContent (content : string) : option string :=
  match match_fenced_json content with
  | Some (whole, group1) => Some (if String.eqb group1 "" then whole else group1)
  | None => match_braces content
  end.

(** The inner [try] of [parseModelResponse]: [None] when nothing matched
    or something threw, and the fallback takes over. *)
Definition parseJsonResponse (content : string) : option AIResponse :=
  match jsonContent content with
  | None => None
  | Some text =>
      match JSON_parse text with
      | None => None
      | Some parsed => cleanResponse parsed
      end
  end.

(** The fallback of [parseModelResponse]. *)
Definition parseLoosely (content : string) : AIResponse :=
  {| thinking :=
       match match_thinking content with
       | Some g => VStr (trim g)
       | None => VStr "无法解析思考过程"
       end;
     commands :=
       match match_commands content with
       | Some g => [ {[ "type" := VStr "text"; "text" := VStr (trim g) ]} ]
       | None => []
       end;
     result := VUndef;
     isTaskComplete := VUndef;
     error := None |}.

(** [parseModelResponse(response)]. The response body is [None] when it
    is missing or has no [choices]; otherwise it is the message content of
    each choice. *)
Definition parseModelResponse (response : option (list string)) : AIResponse :=
  match response with
  | Some (content :: _) =>
      match parseJsonResponse content with
      | Some cleanResponse => cleanResponse
      | None => parseLoosely content
      end
  | _ =>
      {| thinking := VStr "响应解析失败"; commands := []; result := VUndef;
         isTaskComplete := VUndef; error := Some "无效的API响应" |}
  end.

End WithHost.

(** [s.substring(0, n)] *)
Definition substring0 (n : nat) (s : string) : string := String.substring 0 n s.

(** The condensed response [updateSessionContext] stores; [None] when
    [thinking] is no string and [substring] cannot be called. *)
Definition simplifyResponse (r : AIResponse) : option SimpleAIResponse :=
  match thinking r with
  | VStr t =>
      Some {| s_thinking := substring0 150 t;
              s_commands :=
                (fun cmd => {| sc_type := getv cmd "type";
                               sc_isTaskComplete := getv cmd "isTaskComplete" |})
                  <$> commands r;
              s_result := result r;
              s_isTaskComplete := isTaskComplete r |}
  | _ => None
  end.

(** [history.slice(-n)] *)
Definition slice_last {A} (n : nat) (l : list A) : list A := drop (length l - n) l.

(** [updateSessionContext(sessionContext, newItem)], as a step on the
    context object it mutates; [timestamp] is the clock reading it takes. *)
Definition updateSessionContext (newItem : SessionHistoryItem AIResponse)
    (timestamp : string) (sessionContext : SessionContext)
  : outcome unit * SessionContext :=
  let history0 := default [] (history sessionContext) in
  match simplifyResponse (parsedResponse newItem) with
  | None =>
      (Throw "newItem.parsedResponse.thinking.substring is not a function",
       {| history := Some history0; lastOperation := lastOperation sessionContext |})
  | Some simplifiedResponse =>
      let simplifiedItem :=
        {| instruction := instruction newItem;
           item_screenshot := item_screenshot newItem;
           item_uiElements := item_uiElements newItem;
           parsedResponse := simplifiedResponse |} in
      let pushed := history0 ++ [simplifiedItem] in
      let history1 :=
        if Nat.ltb MAX_CONTEXT_ITEMS (length pushed)
        then slice_last MAX_CONTEXT_ITEMS pushed
        else pushed in
      (Ok tt,
       {| history := Some history1;
          lastOperation := Some {| op_instruction := instruction newItem;
                                   op_timestamp := timestamp |} |})
  end.


Section WithHost.
Context `{Host}.

(** [updateSessionContext] applied to the object at address [l]; the clock
    is read only when the append goes through. *)
Definition updateSessionContextAt (l : nat) (newItem : SessionHistoryItem AIResponse)
  : M unit :=
  fun w =>
    let sessionContext := default emptyContext (store w !! l) in
    match updateSessionContext newItem (now_at (clock w)) sessionContext with
    | (Ok _, updated) =>
        (Ok tt, mkWorld (trace w) (<[l := updated]> (store w)) (socket_sessionContext w)
                        (captures w) (posts w) (adbs w) (S (clock w)))
    | (Throw m, updated) =>
        (Throw m, mkWorld (trace w) (<[l := updated]> (store w)) (socket_sessionContext w)
                          (captures w) (posts w) (adbs w) (clock w))
    | (Starved, _) => (Starved, w)
    end.

(** [xs.join(', ')] over values: [undefined] and [null] print as nothing. *)
Fixpoint join_values (xs : list value) : string :=
  match xs with
  | [] => ""
  | x :: rest =>
      let shown := match x with VUndef | VNull => "" | _ => js_String x end in
      match rest with
      | [] => shown
      | _ => shown +:+ ", " +:+ join_values rest
      end
  end.

Definition describeCommands (item : SessionHistoryItem SimpleAIResponse) : string :=
  match s_commands (parsedResponse item) with
  | [] => ""
  | cmds => "执行: " +:+ join_values (sc_type <$> cmds) +:+ "
"
  end.

(** The [forEach] callback that renders one history item of
    [buildInstructionPrompt]. *)
Definition describeItem (index : nat) (item : SessionHistoryItem SimpleAIResponse) : string :=
  "操作" +:+ pretty (S index) +:+ ": " +:+ instruction item +:+ "
"
  +:+ (if String.eqb (s_thinking (parsedResponse item)) "" then ""
       else "分析: " +:+ substring0 1000 (s_thinking (parsedResponse item)) +:+ "...
")
  +:+ describeCommands item.

Fixpoint describeItems (index : nat) (items : list (SessionHistoryItem SimpleAIResponse))
  : string :=
  match items with
  | [] => ""
  | item :: rest => describeItem index item +:+ describeItems (S index) rest
  end.

(** [`${uiElements}`] *)
Definition showUiElements (uiElements : option UiSnapshot) : string :=
  match uiElements with
  | Some _ => "[object Object]"
  | None => "undefined"
  end.

(** The [contextPrompt] of [buildInstructionPrompt]: empty without history,
    otherwise a header and the last three items. *)
Definition historyPrompt (sessionContext : SessionContext) : string :=
  match history sessionContext with
  | None | Some [] => ""
  | Some items => "历史操作记录(简要):
" +:+ describeItems 0 (slice_last 3 items)
  end.

Definition buildInstructionPrompt (instruction : string)
    (uiElements : option UiSnapshot) (sessionContext : SessionContext) : PromptContent :=
  {| systemPrompt := BASE_SYSTEM_PROMPT +:+ INSTRUCTION_RULES;
     contextPrompt := historyPrompt sessionContext;
     errorContextPrompt := "";
     recentHistoryPrompt := "";
     currentStatePrompt :=
       "当前屏幕UI元素:" +:+ showUiElements uiElements +:+ "

用户指令: " +:+ instruction |}.

Definition describeRecent (item : SessionHistoryItem SimpleAIResponse) : string :=
  "操作: " +:+ instruction item +:+ "
" +:+ describeCommands item.

Definition buildErrorCorrectionPrompt (error : ErrorInfo)
    (uiElements : option UiSnapshot) (sessionContext : SessionContext) : PromptContent :=
  {| systemPrompt := BASE_SYSTEM_PROMPT +:+ CORRECTION_RULES;
     contextPrompt := "";
     errorContextPrompt :=
       "执行失败的命令: " +:+ JSON_stringify (VObj (err_command error)) +:+ "
错误信息: " +:+ err_message error;
     recentHistoryPrompt :=
       match history sessionContext with
       | None | Some [] => ""
       | Some items => "最近操作记录:
" +:+ String.concat "" (describeRecent <$> slice_last 1 items)
       end;
     currentStatePrompt := "当前屏幕UI元素:" +:+ showUiElements uiElements |}.

Definition buildContinuationPrompt (instruction : string) (previousCommand : obj)
    (uiElements : option UiSnapshot) (sessionContext : SessionContext) : PromptContent :=
  {| systemPrompt := BASE_SYSTEM_PROMPT +:+ CONTINUATION_RULES instruction;
     contextPrompt :=
       "上一步执行的命令类型: " +:+ js_String (getv previousCommand "type") +:+ "
任务状态: " +:+ (if truthy (getv previousCommand "isTaskComplete") then "已完成" else "进行中");
     errorContextPrompt := "";
     recentHistoryPrompt := "";
     currentStatePrompt :=
       "当前屏幕状态:" +:+ showUiElements uiElements +:+ "

用户原始指令: " +:+ instruction |}.

(** The message list [callLLMAPI] assembles. *)
Definition buildMessages (prompt : PromptContent) (screenshot : option ScreenshotResult)
  : list OpenAIMessage :=
  let optional (text : string) :=
    if String.eqb text "" then [] else [mkMessage "system" text None] in
  [mkMessage "system" (systemPrompt prompt) None]
    ++ optional (contextPrompt prompt)
    ++ optional (errorContextPrompt prompt)
    ++ optional (recentHistoryPrompt prompt)
    ++ [mkMessage "user" (currentStatePrompt prompt)
          match screenshot with
          | Some shot =>
              if String.eqb (base64 shot) "" then None
              else Some ("data:image/png;base64," +:+ base64 shot)
          | None => None
          end].

(** [callLLMAPI(prompt, screenshot)]: the body of the reply, or the error
    of the request rethrown. *)
Definition callLLMAPI (prompt : PromptContent) (screenshot : option ScreenshotResult)
  : M (option (list string)) :=
  let messages := buildMessages prompt screenshot in
  if negb configured then throw "API配置错误" else
  fun w =>
    let reply := model_at (posts w) messages in
    let failure := match reply with inl m => Some m | inr _ => None end in
    let w' := mkWorld (trace w ++ [Post messages failure]) (store w)
                      (socket_sessionContext w)
                      (captures w) (S (posts w)) (adbs w) (clock w) in
    match reply with
    | inl message => (Throw message, w')
    | inr data => (Ok data, w')
    end.

(** aiService.ts: [HandleInstructionOptions]; [sessionContext] is the
    address of the context object the caller passes. *)
Record HandleInstructionOptions : Type := mkOptions {
  o_instruction : option string;
  o_screenshot : option ScreenshotResult;
  o_uiElements : option UiSnapshot;
  o_sessionContext : nat;
  o_isErrorCorrection : bool;
  o_error : option ErrorInfo;
  o_isContinuation : bool;
  o_previousCommand : option obj
}.

(** The prompt [handleAIInstruction] builds: for a correction when an
    error is attached, for a continuation when a previous command is, for
    the instruction otherwise. *)
Definition choosePrompt (options : HandleInstructionOptions)
    (sessionContext : SessionContext) : PromptContent :=
  let instruction := default "" (o_instruction options) in
  match o_isErrorCorrection options, o_error options with
  | true, Some error =>
      buildErrorCorrectionPrompt error (o_uiElements options) sessionContext
  | _, _ =>
      match o_isContinuation options, o_previousCommand options with
      | true, Some previousCommand =>
          buildContinuationPrompt instruction previousCommand
            (o_uiElements options) sessionContext
      | _, _ => buildInstructionPrompt instruction (o_uiElements options) sessionContext
      end
  end.

(** [handleAIInstruction(options)] *)
Definition handleAIInstruction (options : HandleInstructionOptions) : M AIResponse :=
  let instruction := default "" (o_instruction options) in
  let* sessionContext := load (o_sessionContext options) in
  let prompt := choosePrompt options sessionContext in
  let* response := callLLMAPI prompt (o_screenshot options) in
  let parsedResponse := parseModelResponse response in
  updateSessionContextAt (o_sessionContext options)
    {| instruction := if String.eqb instruction "" then "自动纠错" else instruction;
       item_screenshot := shot_timestamp <$> o_screenshot options;
       item_uiElements := ui_timestamp <$> o_uiElements options;
       parsedResponse := parsedResponse |};;;
  ret parsedResponse.

End WithHost.

End AiService.

(* ===================================================================== *)
(** * socketHandlers.ts *)
(* ===================================================================== *)

Module SocketHandlers.
Import Js DataModel Eff AndroidConnection CommandExecutor AiService.

(** The payloads the handlers emit, as the objects they are. *)
Definition commandResultValue (r : CommandResult) : value :=
  VObj (if success r
        then {[ "command" := VObj (cr_command r); "success" := VBool true;
                "result" := from_option VObj VUndef (cr_result r) ]}
        else {[ "command" := VObj (cr_command r); "success" := VBool false;
                "error" := from_option VStr VUndef (cr_error r) ]}).

Definition responseValue (r : AIResponse) : value :=
  VObj {[ "thinking" := thinking r;
          "commands" := VArr (VObj <$> commands r);
          "result" := result r;
          "isTaskComplete" := isTaskComplete r;
          "error" := from_option VStr VUndef (error r) ]}.

Definition errorNotice (message : string) : value :=
  VObj {[ "message" := VStr message ]}.

Section WithHost.
Context `{Host}.

(** [socket.sessionContext || ({} as any)]: the address of the socket's
    context, or of a fresh empty object when the socket has none. *)
Definition sessionContextOrFresh : M nat :=
  let* current := get_socket_sessionContext in
  match current with
  | Some l => ret l
  | None => alloc emptyContext
  end.

(** [handleErrorCorrection(socket, command, error)], over the function
    that executes one corrective command. *)
Definition handleErrorCorrectionWith
    (executeAndHandleSingleCommand : obj -> M CommandResult)
    (command : obj) (error : string) : M unit :=
  try_catch
    (let* state := getCurrentScreenState in
     emit "error-correction-start" VUndef;;;
     let* sessionContext := sessionContextOrFresh in
     let* correction :=
       handleAIInstruction
         {| o_instruction := None;
            o_screenshot := Some (screenshot state);
            o_uiElements := Some (uiElements state);
            o_sessionContext := sessionContext;
            o_isErrorCorrection := true;
            o_error := Some {| err_command := command; err_message := error |};
            o_isContinuation := false;
            o_previousCommand := None |} in
     for_each executeAndHandleSingleCommand (commands correction);;;
     emit "error-correction-end" (responseValue correction))
    (fun errorMessage => emit "error" (errorNotice ("纠错过程出错: " +:+ errorMessage))).

(** [executeAndHandleSingleCommand(socket, command)]. [fuel] bounds the
    nesting of corrections inside corrections (and of composite commands). *)
Fixpoint executeAndHandleSingleCommand (fuel : nat) (command : obj) : M CommandResult :=
  emit "command-start" (VObj command);;;
  try_catch
    (let* result := executeCommand fuel (VObj command) in
     let commandResult :=
       {| cr_command := command; success := true;
          cr_result := Some result; cr_error := None |} in
     emit "command-result" (commandResultValue commandResult);;;
     sleep (VNum 1000);;;
     ret commandResult)
    (fun errorMessage =>
       let commandResult :=
         {| cr_command := command; success := false;
            cr_result := None; cr_error := Some errorMessage |} in
       emit "command-result" (commandResultValue commandResult);;;
       match fuel with
       | O => starve
       | S fuel' =>
           handleErrorCorrectionWith (executeAndHandleSingleCommand fuel')
             command errorMessage
       end;;;
       ret commandResult).

Definition handleErrorCorrection (fuel : nat) (command : obj) (error : string) : M unit :=
  handleErrorCorrectionWith (executeAndHandleSingleCommand fuel) command error.

(** [continueTaskExecution(socket, instruction, previousCommand)], over the
    function that executes the commands of the continuation. *)
Definition continueTaskExecutionWith
    (executeCommandSequence : list obj -> string -> M unit)
    (instruction : string) (previousCommand : obj) : M unit :=
  let* state := getCurrentScreenState in
  let* sessionContext := sessionContextOrFresh in
  let* continuationResponse :=
    handleAIInstruction
      {| o_instruction := Some instruction;
         o_screenshot := Some (screenshot state);
         o_uiElements := Some (uiElements state);
         o_sessionContext := sessionContext;
         o_isErrorCorrection := false;
         o_error := None;
         o_isContinuation := true;
         o_previousCommand := Some previousCommand |} in
  (if truthy (result continuationResponse)
   then emit "task-result"
          (VObj {[ "instruction" := VStr instruction;
                   "result" := result continuationResponse ]})
   else ret tt);;;
  match commands continuationResponse with
  | [] => ret tt
  | cmds =>
      emit "instruction-response" (responseValue continuationResponse);;;
      executeCommandSequence cmds instruction
  end.

(** [executeCommandSequence(socket, commands, instruction)]. [fuel] bounds
    the number of nested continuation rounds. *)
Fixpoint executeCommandSequence (fuel : nat) (commands : list obj) (instruction : string)
  {struct fuel} : M unit :=
  (fix loop (commands : list obj) : M unit :=
     match commands with
     | [] => ret tt
     | command :: rest =>
         let* result := executeAndHandleSingleCommand fuel command in
         (* the command succeeded and the task is not complete: carry on *)
         (if success result && negb (truthy (getv command "isTaskComplete"))
          then match fuel with
               | O => starve
               | S fuel' =>
                   continueTaskExecutionWith (executeCommandSequence fuel')
                     instruction command
               end
          else ret tt);;;
         (* the command failed or completed the task: stop *)
         if negb (success result) || truthy (getv command "isTaskComplete")
         then ret tt
         else loop rest
     end) commands.

Definition continueTaskExecution (fuel : nat) (instruction : string)
    (previousCommand : obj) : M unit :=
  continueTaskExecutionWith (executeCommandSequence fuel) instruction previousCommand.

(** The first half of the handler of ['send-instruction']: the capture,
    the round-trip to the model and the rebuilding of
    [socket.sessionContext]. *)
Definition receiveInstruction (instruction : string) : M AIResponse :=
  let* state := getCurrentScreenState in
  emit "handle-instruction-start" VUndef;;;
  let* sessionContext := sessionContextOrFresh in
  let* response :=
    handleAIInstruction
      {| o_instruction := Some instruction;
         o_screenshot := Some (screenshot state);
         o_uiElements := Some (uiElements state);
         o_sessionContext := sessionContext;
         o_isErrorCorrection := false;
         o_error := None;
         o_isContinuation := false;
         o_previousCommand := None |} in
  (* socket.sessionContext = { ...socket.sessionContext, history, lastOperation } *)
  let* current := get_socket_sessionContext in
  let* previousHistory :=
    match current with
    | Some l => let* c := load l in ret (history c)
    | None => ret None
    end in
  let* timestamp := now in
  let* rebuilt :=
    alloc {| history := Some (default [] previousHistory);
             lastOperation := Some {| op_instruction := instruction;
                                      op_timestamp := timestamp |} |} in
  set_socket_sessionContext rebuilt;;;
  ret response.

(** The handler of ['send-instruction']. *)
Definition onSendInstruction (fuel : nat) (instruction : string) : M unit :=
  try_catch
    (let* response := receiveInstruction instruction in
     emit "instruction-response" (responseValue response);;;
     match commands response with
     | [] => ret tt
     | cmds => executeCommandSequence fuel cmds instruction
     end)
    (fun errorMessage => emit "error" (errorNotice ("处理指令时出错: " +:+ errorMessage))).

(** What the socket's session context holds, read through its address. *)
Definition socketHistory (w : World) : option (list (SessionHistoryItem SimpleAIResponse)) :=
  match socket_sessionContext w with
  | Some l => match store w !! l with Some c => history c | None => None end
  | None => None
  end.

End WithHost.

(** The kind of an event: the name of an emitted event, or a word for the
    other effects. *)
Definition eventName (e : Event) : string :=
  match e with
  | Emit name _ => name
  | Adb _ _ => "adb"
  | Sleep _ => "sleep"
  | Capture _ => "capture"
  | Post _ _ => "post"
  end.

(** The requests sent to the model, in order. *)
Definition requestsOf (tr : list Event) : list (list OpenAIMessage) :=
  omap (fun e => match e with Post messages _ => Some messages | _ => None end) tr.

End SocketHandlers.

(* ===================================================================== *)
(** * services/androidConnection.ts: the text inputText hands to the shell *)
(* ===================================================================== *)

Module InputText.

(** The class [[()&|;]]. *)
Definition special (c : ascii) : bool :=
  existsb (Ascii.eqb c) ["("; ")"; "&"; "|"; ";"]%char.

(** The class [\s], on ASCII text: tab, line feed, vertical tab, form
    feed, carriage return and space. Beyond ASCII it also holds the other
    Unicode spaces. *)
Definition whitespace (c : ascii) : bool :=
  existsb (Nat.eqb (nat_of_ascii c)) [9; 10; 11; 12; 13; 32]%nat.

(** [text.replace(/[()&|;]/g, '\\$&')] *)
Fixpoint escapeSpecials (text : string) : string :=
  match text with
  | EmptyString => EmptyString
  | String c rest =>
      if special c then String "092"%char (String c (escapeSpecials rest))
      else String c (escapeSpecials rest)
  end.

(** [text.replace(/\s/g, '%s')] *)
Fixpoint escapeSpaces (text : string) : string :=
  match text with
  | EmptyString => EmptyString
  | String c rest =>
      if whitespace c then String "%" (String "s" (escapeSpaces rest))
      else String c (escapeSpaces rest)
  end.

(** [escapedText] of [inputText]. *)
Definition escapedText (text : string) : string := escapeSpaces (escapeSpecials text).

End InputText.

(* ===================================================================== *)
(** * routes/aiRoutes.ts *)
(* ===================================================================== *)

Module AiRoutes.
Import Js DataModel Eff AndroidConnection AiService.

(** One entry of the history [GET /session/:sessionId] returns. The stored
    items carry no [timestamp] of their own, so that field reads as
    [undefined]. *)
Record HistoryEntry : Type := mkEntry {
  e_instruction : string;
  e_timestamp : value;
  e_thinking : value;
  e_commands : list SimpleCommand
}.

(** What a route answers. *)
Inductive Reply : Type :=
| Rejected (status : Z) (error : string)   (* res.status(status).json({ success: false, error }) *)
| Answered (sessionId : option string) (response : AIResponse)
| Listed (sessionId : string) (history : list HistoryEntry)
| Cleared.

(** The [sessions] map, from session id to the address of the context
    object, and the [id] property of the context objects. *)
Record Sessions : Type := mkSessions {
  byId : gmap string nat;
  idOf : gmap nat string
}.

Definition noSessions : Sessions := mkSessions ∅ ∅.

(** [sessionId && sessions.has(sessionId)], and the context found. *)
Definition knownSession (sessionId : value) (sessions : Sessions) : option nat :=
  match sessionId with
  | VStr id => if truthy sessionId then byId sessions !! id else None
  | _ => None
  end.

Definition entryOf (item : SessionHistoryItem SimpleAIResponse) : HistoryEntry :=
  {| e_instruction := instruction item;
     e_timestamp := VUndef;
     e_thinking := VStr (s_thinking (parsedResponse item));
     e_commands := s_commands (parsedResponse item) |}.

Section WithHost.
Context `{Host}.

(** [POST /instruction]; [stamp] is what [Date.now().toString()] reads
    when a session is created, [instruction] the body's instruction when it
    has one. *)
Definition postInstruction (stamp : string) (instruction : option string)
    (sessionId : value) (sessions : Sessions) : M (Reply * Sessions) :=
  if String.eqb (default "" instruction) ""
  then ret (Rejected 400 "指令不能为空", sessions)
  else
    let* fresh := alloc emptyContext in
    let sessionContext := default fresh (knownSession sessionId sessions) in
    let sessions :=
      match knownSession sessionId sessions with
      | Some _ => sessions
      | None => {| byId := <[stamp := fresh]> (byId sessions);
                   idOf := <[fresh := stamp]> (idOf sessions) |}
      end in
    try_catch
      (let* state := getCurrentScreenState in
       let* response :=
         handleAIInstruction
           {| o_instruction := instruction;
              o_screenshot := Some (screenshot state);
              o_uiElements := Some (uiElements state);
              o_sessionContext := sessionContext;
              o_isErrorCorrection := false;
              o_error := None;
              o_isContinuation := false;
              o_previousCommand := None |} in
       let id := idOf sessions !! sessionContext in
       let sessions :=
         match id with
         | Some id =>
             if String.eqb id "" then sessions
             else {| byId := <[id := sessionContext]> (byId sessions);
                     idOf := idOf sessions |}
         | None => sessions
         end in
       ret (Answered id response, sessions))
      (fun errorMessage => ret (Rejected 500 errorMessage, sessions)).

(** [GET /session/:sessionId] *)
Definition getSession (sessionId : string) (sessions : Sessions) : M Reply :=
  if String.eqb sessionId "" then ret (Rejected 404 "会话不存在")
  else match byId sessions !! sessionId with
       | None => ret (Rejected 404 "会话不存在")
       | Some l =>
           let* sessionContext := load l in
           ret (Listed sessionId
                  match history sessionContext with
                  | Some items => entryOf <$> items
                  | None => []
                  end)
       end.

End WithHost.


End AiRoutes.

(* ===================================================================== *)
(** * Concrete hosts and inputs *)
(* ===================================================================== *)

Module Scenarios.
Import Js DataModel Eff AiService.

(** The double quote, and a quoted word of a JSON text. *)
Definition dq : string := String "034"%char EmptyString.
Definition q (word : string) : string := dq +:+ word +:+ dq.

(** A host given by tables: what JSON.parse returns on the texts that
    occur, and the replies of the screen capture, of the model endpoint and
    of the device. The fallback patterns find nothing (no text below holds
    their labels) and the prompt texts are placeholders. *)
Definition scriptedHost (parses : list (string * value))
    (screens : nat -> string + ScreenState)
    (replies : nat -> string + option (list string))
    (device : nat -> DeviceAction -> option string) : Host :=
  {| JSON_parse := fun text =>
       snd <$> List.find (fun entry => String.eqb (fst entry) text) parses;
     JSON_stringify := fun _ => "{}";
     js_String := fun v => match v with VStr s => s | _ => "" end;
     match_commands := fun _ => None;
     match_thinking := fun _ => None;
     trim := fun s => s;
     BASE_SYSTEM_PROMPT := "BASE";
     INSTRUCTION_RULES := "INSTRUCT";
     CORRECTION_RULES := "CORRECT";
     CONTINUATION_RULES := fun instruction => "CONTINUE " +:+ instruction;
     configured := true;
     screen_at := screens;
     model_at := fun n _ => replies n;
     adb_at := device;
     now_at := fun n => pretty n |}.

Definition aScreen : ScreenState :=
  {| screenshot := {| base64 := "iVBORw0KGgo="; path := "screen.png";
                      shot_timestamp := 1700000000000 |};
     uiElements := {| elements := None; ui_timestamp := VUndef |} |}.

Definition screenAlways : nat -> string + ScreenState := fun _ => inr aScreen.
Definition deviceAlways : nat -> DeviceAction -> option string := fun _ _ => None.
Definition noReplies : nat -> string + option (list string) := fun _ => inr None.

(** [{"commands":[{"type":"tap","x":1,"y":2,"isFinalCommand":true},{"type":"back"}]}] *)
Definition twoFinalsText : string :=
  "{" +:+ q "commands" +:+ ":[{" +:+ q "type" +:+ ":" +:+ q "tap" +:+ ","
      +:+ q "x" +:+ ":1," +:+ q "y" +:+ ":2," +:+ q "isFinalCommand" +:+ ":true},{"
      +:+ q "type" +:+ ":" +:+ q "back" +:+ "}]}".

Definition twoFinalsValue : value :=
  VObj {[ "commands" :=
            VArr [ VObj {[ "type" := VStr "tap"; "x" := VNum 1; "y" := VNum 2;
                           "isFinalCommand" := VBool true ]};
                   VObj {[ "type" := VStr "back" ]} ] ]}.

Definition twoFinalsHost : Host :=
  scriptedHost [(twoFinalsText, twoFinalsValue)] screenAlways noReplies deviceAlways.

(** A host whose device accepts the first input command and rejects the
    second. *)
Definition secondInputFails : nat -> DeviceAction -> option string :=
  fun n _ => if Nat.eqb n 1 then Some "device offline" else None.

Definition failSecondHost : Host :=
  scriptedHost [] screenAlways noReplies secondInputFails.

Definition obedientHost : Host :=
  scriptedHost [] screenAlways noReplies deviceAlways.

Definition tapAt (x y : Z) : obj :=
  {[ "type" := VStr "tap"; "x" := VNum x; "y" := VNum y ]}.

(** [{type: 'composite', commands: [tap(1,2), tap(3,4), back]}] *)
Definition threeStepComposite : obj :=
  {[ "type" := VStr "composite";
     "commands" := VArr [ VObj (tapAt 1 2); VObj (tapAt 3 4);
                          VObj {[ "type" := VStr "back" ]} ] ]}.

(** [{type: 'long_press'}]: a type the dispatcher does not know. *)
Definition longPress : obj := {[ "type" := VStr "long_press" ]}.

(** [{type: 'tap'}]: a tap that carries no coordinates. *)
Definition bareTap : obj := {[ "type" := VStr "tap" ]}.

(** [{"thinking":"looking","commands":[],"isTaskComplete":false}] *)
Definition idleText : string :=
  "{" +:+ q "thinking" +:+ ":" +:+ q "looking" +:+ "," +:+ q "commands" +:+ ":[],"
      +:+ q "isTaskComplete" +:+ ":false}".

Definition idleValue : value :=
  VObj {[ "thinking" := VStr "looking"; "commands" := VArr [];
          "isTaskComplete" := VBool false ]}.

(** [{"thinking":"first","commands":[{"type":"tap","x":100,"y":200}],
      "isTaskComplete":false}] *)
Definition oneTapText : string :=
  "{" +:+ q "thinking" +:+ ":" +:+ q "first" +:+ "," +:+ q "commands" +:+ ":[{"
      +:+ q "type" +:+ ":" +:+ q "tap" +:+ "," +:+ q "x" +:+ ":100," +:+ q "y"
      +:+ ":200}]," +:+ q "isTaskComplete" +:+ ":false}".

Definition oneTapValue : value :=
  VObj {[ "thinking" := VStr "first";
          "commands" := VArr [ VObj (tapAt 100 200) ];
          "isTaskComplete" := VBool false ]}.

(** [{"thinking":"done","commands":[],"result":"ok","isTaskComplete":true}] *)
Definition doneText : string :=
  "{" +:+ q "thinking" +:+ ":" +:+ q "done" +:+ "," +:+ q "commands" +:+ ":[],"
      +:+ q "result" +:+ ":" +:+ q "ok" +:+ "," +:+ q "isTaskComplete" +:+ ":true}".

Definition doneValue : value :=
  VObj {[ "thinking" := VStr "done"; "commands" := VArr [];
          "result" := VStr "ok"; "isTaskComplete" := VBool true ]}.

Definition parseTable : list (string * value) :=
  [ (idleText, idleValue); (oneTapText, oneTapValue); (doneText, doneValue) ].

(** The model answers with no command at all, every time. *)
Definition idleReplies : nat -> string + option (list string) :=
  fun _ => inr (Some [idleText]).

(** The model answers the instruction with one tap and every later
    question with no command. *)
Definition tapThenIdle : nat -> string + option (list string) :=
  fun n => inr (Some [if Nat.eqb n 0 then oneTapText else idleText]).

(** The model answers the first instruction with no command and a result. *)
Definition doneReplies : nat -> string + option (list string) :=
  fun _ => inr (Some [doneText]).

Definition idleHost : Host := scriptedHost parseTable screenAlways idleReplies deviceAlways.
Definition tapThenIdleHost : Host :=
  scriptedHost parseTable screenAlways tapThenIdle deviceAlways.
Definition doneHost : Host := scriptedHost parseTable screenAlways doneReplies deviceAlways.

(** The device rejects the first input command and accepts the others. *)
Definition firstInputFails : nat -> DeviceAction -> option string :=
  fun n _ => if Nat.eqb n 0 then Some "device offline" else None.

Definition brokenDeviceHost : Host :=
  scriptedHost parseTable screenAlways idleReplies firstInputFails.

(** The two commands of the batch of the scenario: neither completes the
    task, the second one is marked final. *)
Definition firstOfBatch : obj :=
  {[ "type" := VStr "tap"; "x" := VNum 100; "y" := VNum 200;
     "isTaskComplete" := VBool false; "isFinalCommand" := VBool false ]}.

Definition secondOfBatch : obj :=
  {[ "type" := VStr "back";
     "isTaskComplete" := VBool false; "isFinalCommand" := VBool true ]}.

(** A response with a thinking text and no command, and the history item
    it is stored as. *)
Definition thought (t : string) : AIResponse :=
  {| thinking := VStr t; commands := []; result := VUndef; isTaskComplete := VUndef;
     error := None |}.

Definition asked (i t : string) : SessionHistoryItem AIResponse :=
  {| instruction := i; item_screenshot := None; item_uiElements := None;
     parsedResponse := thought t |}.

Definition remembered (i t : string) : SessionHistoryItem SimpleAIResponse :=
  {| instruction := i; item_screenshot := None; item_uiElements := None;
     parsedResponse := {| s_thinking := t; s_commands := []; s_result := VUndef;
                          s_isTaskComplete := VUndef |} |}.

(** A context whose history is full. *)
Definition fullContext : SessionContext :=
  {| history := Some [ remembered "i1" "t1"; remembered "i2" "t2"; remembered "i3" "t3";
                       remembered "i4" "t4"; remembered "i5" "t5" ];
     lastOperation := None |}.

End Scenarios.

(* ===================================================================== *)
(** * Properties of the element tree model *)
(* ===================================================================== *)

Module UiExtractorFacts.
Import UiExtractor.

(** Induction over element trees and raw trees, with the hypothesis on
    every child. *)
Lemma UIElement_tree_ind (P : UIElement -> Prop) :
  (forall e, Forall P (children e) -> P e) -> forall e, P e.
Proof.
  intros step. fix IH 1. intros [t i tx cd cl b d ch]. apply step. simpl.
  induction ch as [|c ch IHch]; constructor; [apply IH | apply IHch].
Qed.

Lemma RawNode_tree_ind (P : RawNode -> Prop) :
  (forall c r t d k b, P (Raw c r t d k b NoKids)) ->
  (forall c r t d k b kid, P kid -> P (Raw c r t d k b (OneKid kid))) ->
  (forall c r t d k b kids,
      Forall (fun o => match o with Some kid => P kid | None => True end) kids ->
      P (Raw c r t d k b (ManyKids kids))) ->
  forall n, P n.
Proof.
  intros Hnone Hone Hmany. fix IH 1. intros [c r t d k b [|kid|kids]].
  - apply Hnone.
  - apply Hone, IH.
  - apply Hmany. induction kids as [|[kid|] kids IHkids]; constructor; auto.
Qed.

(** ** Bounds *)

Definition centered (b : Bounds) : Prop :=
  centerX b = (left b + right b) / 2 /\ centerY b = (top b + bottom b) / 2.

Lemma parseBounds_centered boundsStr : centered (parseBounds boundsStr).
Proof.
  unfold parseBounds, centered.
  destruct boundsStr as [s|]; [|split; reflexivity].
  destruct (String.eqb s ""); [split; reflexivity|].
  destruct (match_bounds s) as [[[[l t] r] b]|]; split; reflexivity.
Qed.

Lemma processNode_centered node :
  forall depth, AllElements (fun e => centered (bounds e)) (processNode node depth).
Proof.
  induction node as [c r t d k b|c r t d k b kid IH|c r t d k b kids IH]
    using RawNode_tree_ind; intros depth; constructor; simpl;
    try apply parseBounds_centered.
  - constructor.
  - constructor; [apply IH | constructor].
  - induction IH as [|[kid|] kids Hkid _ IHkids]; [constructor | | assumption].
    constructor; [apply Hkid | apply IHkids].
Qed.

(** *** The pattern finds exactly the well-formed strings *)

Lemma lit_Some c s s' : lit c s = Some s' <-> s = String c s'.
Proof.
  destruct s as [|c' s0]; simpl; [split; discriminate|].
  destruct (Ascii.eqb_spec c c') as [->|Hne]; split; intros Heq;
    try congruence; inversion Heq; congruence.
Qed.

Lemma digits_from_split acc s n rest :
  digits_from acc s = (n, rest) ->
  exists run, s = run +:+ rest /\ Forall (fun c => is_digit c = true) (Js.chars run).
Proof.
  revert acc. induction s as [|c s IH]; simpl; intros acc Heq.
  - inversion Heq; subst. exists ""; split; [reflexivity | constructor].
  - destruct (is_digit c) eqn:Hc.
    + destruct (IH _ Heq) as (run & -> & Hrun).
      exists (String c run); split; [reflexivity | constructor; assumption].
    + inversion Heq; subst. exists ""; split; [reflexivity | constructor].
Qed.

Lemma digits_Some s n rest :
  digits s = Some (n, rest) -> exists run, all_digits run /\ s = run +:+ rest.
Proof.
  unfold digits. destruct s as [|c s]; [discriminate|].
  destruct (is_digit c) eqn:Hc; [|discriminate].
  intros Heq. injection Heq as Heq. simpl in Heq. rewrite Hc in Heq.
  destruct (digits_from_split _ _ _ _ Heq) as (run & -> & Hrun).
  exists (String c run). split; [|reflexivity].
  split; [discriminate | constructor; assumption].
Qed.

Lemma match_here_sound s m :
  match_here s = Some m ->
  exists l t r b post,
    all_digits l /\ all_digits t /\ all_digits r /\ all_digits b /\
    s = "[" +:+ l +:+ "," +:+ t +:+ "][" +:+ r +:+ "," +:+ b +:+ "]" +:+ post.
Proof.
  unfold match_here. intros Hm.
  destruct (lit "[" s) as [s1|] eqn:E1; simpl in Hm; [|discriminate].
  destruct (digits s1) as [[l s2]|] eqn:E2; simpl in Hm; [|discriminate].
  destruct (lit "," s2) as [s3|] eqn:E3; simpl in Hm; [|discriminate].
  destruct (digits s3) as [[t s4]|] eqn:E4; simpl in Hm; [|discriminate].
  destruct (lit "]" s4) as [s5|] eqn:E5; simpl in Hm; [|discriminate].
  destruct (lit "[" s5) as [s6|] eqn:E6; simpl in Hm; [|discriminate].
  destruct (digits s6) as [[r s7]|] eqn:E7; simpl in Hm; [|discriminate].
  destruct (lit "," s7) as [s8|] eqn:E8; simpl in Hm; [|discriminate].
  destruct (digits s8) as [[b s9]|] eqn:E9; simpl in Hm; [|discriminate].
  destruct (lit "]" s9) as [s10|] eqn:E10; simpl in Hm; [|discriminate].
  apply lit_Some in E1, E3, E5, E6, E8, E10.
  apply digits_Some in E2, E4, E7, E9.
  destruct E2 as (dl & Hl & ->), E4 as (dt & Ht & ->),
           E7 as (dr & Hr & ->), E9 as (db & Hb & ->).
  subst. exists dl, dt, dr, db, s10.
  split; [assumption|]. split; [assumption|].
  split; [assumption|]. split; [assumption|]. reflexivity.
Qed.

Lemma match_bounds_sound s m : match_bounds s = Some m -> well_formed_bounds s.
Proof.
  induction s as [|c s IH]; simpl.
  - discriminate.
  - destruct (match_here (String c s)) as [m'|] eqn:Hhere.
    + intros _. destruct (match_here_sound _ _ Hhere) as (l & t & r & b & post & H).
      exists "", l, t, r, b, post. exact H.
    + intros Hrec. destruct (IH Hrec) as (pre & l & t & r & b & post & Hl & Ht & Hr & Hb & ->).
      exists (String c pre), l, t, r, b, post.
      split; [assumption|]. split; [assumption|].
      split; [assumption|]. split; [assumption|]. reflexivity.
Qed.

Lemma digits_from_run run : forall acc c rest,
  Forall (fun c => is_digit c = true) (Js.chars run) -> is_digit c = false ->
  exists n, digits_from acc (run +:+ String c rest) = (n, String c rest).
Proof.
  induction run as [|d run IH]; simpl; intros acc c rest Hrun Hc.
  - rewrite Hc. eauto.
  - inversion Hrun as [|? ? Hd Hrun']; subst. rewrite Hd. apply IH; assumption.
Qed.

Lemma digits_run run c rest :
  all_digits run -> is_digit c = false ->
  exists n, digits (run +:+ String c rest) = Some (n, String c rest).
Proof.
  intros [Hne Hrun] Hc. destruct run as [|d run]; [congruence|].
  inversion Hrun as [|? ? Hd Hrun']; subst.
  unfold digits. simpl. rewrite Hd.
  destruct (digits_from_run run (10 * 0 + digit_value d) c rest Hrun' Hc) as [n Hn].
  exists n. simpl in Hn. rewrite Hn. reflexivity.
Qed.

Lemma match_here_complete l t r b post :
  all_digits l -> all_digits t -> all_digits r -> all_digits b ->
  is_Some (match_here
             ("[" +:+ l +:+ "," +:+ t +:+ "][" +:+ r +:+ "," +:+ b +:+ "]" +:+ post)).
Proof.
  intros Hl Ht Hr Hb. unfold match_here.
  change ("[" +:+ l +:+ "," +:+ t +:+ "][" +:+ r +:+ "," +:+ b +:+ "]" +:+ post)
    with (String "[" (l +:+ String "," (t +:+ String "]" (String "["
            (r +:+ String "," (b +:+ String "]" post)))))).
  cbn [lit Ascii.eqb Bool.eqb mbind option_bind].
  destruct (digits_run l "," (t +:+ String "]" (String "["
              (r +:+ String "," (b +:+ String "]" post)))) Hl eq_refl) as [nl ->].
  cbn [lit Ascii.eqb Bool.eqb mbind option_bind].
  destruct (digits_run t "]" (String "[" (r +:+ String "," (b +:+ String "]" post)))
              Ht eq_refl) as [nt ->].
  cbn [lit Ascii.eqb Bool.eqb mbind option_bind].
  destruct (digits_run r "," (b +:+ String "]" post) Hr eq_refl) as [nr ->].
  cbn [lit Ascii.eqb Bool.eqb mbind option_bind].
  destruct (digits_run b "]" post Hb eq_refl) as [nb ->].
  cbn [lit Ascii.eqb Bool.eqb mbind option_bind].
  eexists; reflexivity.
Qed.

Lemma match_bounds_here s : is_Some (match_here s) -> is_Some (match_bounds s).
Proof. intros [m Hm]. destruct s; cbn [match_bounds]; rewrite Hm; eauto. Qed.

Lemma match_bounds_skip c s : is_Some (match_bounds s) -> is_Some (match_bounds (String c s)).
Proof. intros Hs. cbn [match_bounds]. destruct (match_here _); [eauto | exact Hs]. Qed.

Lemma match_bounds_complete s : well_formed_bounds s -> is_Some (match_bounds s).
Proof.
  intros (pre & l & t & r & b & post & Hl & Ht & Hr & Hb & ->).
  induction pre as [|c pre IH].
  - apply match_bounds_here, match_here_complete; assumption.
  - apply (match_bounds_skip c), IH.
Qed.

Lemma well_formed_bounds_iff s : well_formed_bounds s <-> is_Some (match_bounds s).
Proof.
  split; [apply match_bounds_complete|].
  intros [m Hm]. exact (match_bounds_sound _ _ Hm).
Qed.

Lemma parseBounds_malformed s : ~ well_formed_bounds s -> parseBounds (Some s) = zeroBounds.
Proof.
  intros Hbad. unfold parseBounds.
  destruct (String.eqb s ""); [reflexivity|].
  destruct (match_bounds s) as [m|] eqn:Hm; [|reflexivity].
  exfalso. apply Hbad. exact (match_bounds_sound _ _ Hm).
Qed.

(** C5. Every node [processNode] builds has bounds whose centre is the
    floor of the midpoint of its sides, and a missing bounds attribute or a
    bounds string that does not contain the shape [[l,t][r,b]] yields the
    all-zero record; [parseBounds] is total, so nothing is thrown. *)
Theorem bounds_centered_and_zero_when_malformed :
  (forall node depth,
      AllElements
        (fun e => centerX (bounds e) = (left (bounds e) + right (bounds e)) / 2 /\
                  centerY (bounds e) = (top (bounds e) + bottom (bounds e)) / 2)
        (processNode node depth)) /\
  parseBounds None = mkBounds 0 0 0 0 0 0 0 0 /\
  (forall s, ~ well_formed_bounds s -> parseBounds (Some s) = mkBounds 0 0 0 0 0 0 0 0).
Proof.
  split; [|split].
  - intros node depth. apply processNode_centered.
  - reflexivity.
  - apply parseBounds_malformed.
Qed.

Lemma bounds_centered_and_zero_when_malformed_witness :
  ~ well_formed_bounds "[12,34][56," /\
  parseBounds (Some "[12,34][56,") = mkBounds 0 0 0 0 0 0 0 0 /\
  parseBounds (Some "x[0,66][1080,201]") = mkBounds 0 66 1080 201 540 133 1080 135.
Proof.
  assert (Hbad : ~ well_formed_bounds "[12,34][56,").
  { rewrite well_formed_bounds_iff. vm_compute. intros [m Hm]. discriminate Hm. }
  split; [exact Hbad|]. split.
  - exact (proj2 (proj2 bounds_centered_and_zero_when_malformed) _ Hbad).
  - vm_compute. reflexivity.
Defined.

(** ** Queries *)

Lemma traverse_ext o1 o2 :
  (forall a, mismatch (opt_text o1) a = mismatch (opt_text o2) a) ->
  (forall a, mismatch (opt_contentDesc o1) a = mismatch (opt_contentDesc o2) a) ->
  (forall a, mismatch (opt_resourceId o1) a = mismatch (opt_resourceId o2) a) ->
  (forall a, mismatch (opt_className o1) a = mismatch (opt_className o2) a) ->
  forall e, traverse o1 e = traverse o2 e.
Proof.
  intros Ht Hc Hr Hk e.
  induction e as [e IH] using UIElement_tree_ind.
  destruct e as [t i tx cd cl b d ch]. simpl in *.
  rewrite Ht, Hc, Hr, Hk. f_equal.
  induction IH as [|c ch Hc' _ IHch]; simpl; [reflexivity|].
  rewrite Hc', IHch. reflexivity.
Qed.

Lemma mismatch_empty a : mismatch (Some "") a = mismatch None a.
Proof. reflexivity. Qed.

(** C10. A predicate field given as the empty string selects the same
    elements, in the same order, as the field left unset; for each of the
    four fields and whatever the other three are. *)
Theorem empty_predicate_field_is_wildcard (root : option UIElement)
    (text contentDesc resourceId className : option string) :
  findClickableElements root (mkOptions (Some "") contentDesc resourceId className)
    = findClickableElements root (mkOptions None contentDesc resourceId className) /\
  findClickableElements root (mkOptions text (Some "") resourceId className)
    = findClickableElements root (mkOptions text None resourceId className) /\
  findClickableElements root (mkOptions text contentDesc (Some "") className)
    = findClickableElements root (mkOptions text contentDesc None className) /\
  findClickableElements root (mkOptions text contentDesc resourceId (Some ""))
    = findClickableElements root (mkOptions text contentDesc resourceId None).
Proof.
  destruct root as [e|]; [|repeat split; reflexivity]. simpl.
  repeat split; apply traverse_ext; simpl; intros a;
    reflexivity || apply mismatch_empty.
Qed.

End UiExtractorFacts.

(* ===================================================================== *)
(** * Properties of the response normalizer and of the session history *)
(* ===================================================================== *)

Module AiServiceFacts.
Import Js DataModel Eff AiService.

(** ** Command repair *)

(** A tap of the canonical schema: type [tap], numeric [x] and [y], and no
    [coordinate] property. *)
Definition canonical_tap (c : obj) : Prop :=
  c !! "type" = Some (VStr "tap") /\
  (exists x y, c !! "x" = Some (VNum x) /\ c !! "y" = Some (VNum y)) /\
  c !! "coordinate" = None.

(** A swipe of the canonical schema: type [swipe], the four numeric end
    points, and no [coordinate] property. *)
Definition canonical_swipe (c : obj) : Prop :=
  c !! "type" = Some (VStr "swipe") /\
  (exists x1 y1 x2 y2,
      c !! "startX" = Some (VNum x1) /\ c !! "startY" = Some (VNum y1) /\
      c !! "endX" = Some (VNum x2) /\ c !! "endY" = Some (VNum y2)) /\
  c !! "coordinate" = None.

Lemma getv_lookup (c : obj) k v : c !! k = Some v -> getv c k = v.
Proof. unfold getv. intros ->. reflexivity. Qed.

Lemma getv_absent (c : obj) k : c !! k = None -> getv c k = VUndef.
Proof. unfold getv. intros ->. reflexivity. Qed.

(** Evaluates the guards of [normalizeCommand] on a command whose type is
    known and that has no [coordinate]. *)
Ltac canonical_steps Htype Hcoord :=
  repeat first
    [ rewrite (getv_lookup _ _ _ Htype)
    | rewrite (getv_absent _ _ Hcoord)
    | rewrite andb_false_r
    | progress cbn [truthy negb andb orb str_is String.eqb Ascii.eqb Bool.eqb
                    isArrayOfLength isArray] ].

Lemma normalizeCommand_canonical_tap c :
  canonical_tap c -> normalizeCommand (VObj c) = c.
Proof.
  intros (Htype & _ & Hcoord). unfold normalizeCommand. cbv zeta. simpl spread.
  canonical_steps Htype Hcoord. reflexivity.
Qed.

Lemma normalizeCommand_canonical_swipe c :
  canonical_swipe c -> normalizeCommand (VObj c) = c.
Proof.
  intros (Htype & _ & Hcoord). unfold normalizeCommand. cbv zeta. simpl spread.
  canonical_steps Htype Hcoord. reflexivity.
Qed.

(** C8. A tap or a swipe that is already in the canonical schema comes out
    of [normalizeCommand] unchanged, its coordinate fields included; the
    drifted shapes of the spec's two examples are repaired to the canonical
    ones. *)
Theorem canonical_commands_unchanged_and_aliases_repaired :
  (forall c, canonical_tap c ->
     normalizeCommand (VObj c) = c /\
     normalizeCommand (VObj c) !! "x" = c !! "x" /\
     normalizeCommand (VObj c) !! "y" = c !! "y") /\
  (forall c, canonical_swipe c ->
     normalizeCommand (VObj c) = c /\
     normalizeCommand (VObj c) !! "startX" = c !! "startX" /\
     normalizeCommand (VObj c) !! "startY" = c !! "startY" /\
     normalizeCommand (VObj c) !! "endX" = c !! "endX" /\
     normalizeCommand (VObj c) !! "endY" = c !! "endY") /\
  normalizeCommand
    (VObj {[ "action" := VStr "click"; "coordinate" := VArr [VNum 160; VNum 200] ]})
    = {[ "type" := VStr "tap"; "x" := VNum 160; "y" := VNum 200 ]} /\
  normalizeCommand
    (VObj {[ "type" := VStr "swipe"; "coordinate" := VArr [VNum 10; VNum 20];
             "coordinate2" := VArr [VNum 10; VNum 200] ]})
    = {[ "type" := VStr "swipe"; "startX" := VNum 10; "startY" := VNum 20;
         "endX" := VNum 10; "endY" := VNum 200 ]}.
Proof.
  split; [|split; [|split]].
  - intros c Hc. rewrite (normalizeCommand_canonical_tap c Hc). auto.
  - intros c Hc. rewrite (normalizeCommand_canonical_swipe c Hc). auto.
  - vm_compute. reflexivity.
  - vm_compute. reflexivity.
Qed.

Lemma canonical_commands_unchanged_and_aliases_repaired_witness :
  let tap : obj := {[ "type" := VStr "tap"; "x" := VNum 160; "y" := VNum 200;
                      "isTaskComplete" := VBool false ]} in
  let swipe : obj := {[ "type" := VStr "swipe"; "startX" := VNum 160;
                        "startY" := VNum 800; "endX" := VNum 160; "endY" := VNum 200;
                        "duration" := VNum 300 ]} in
  (canonical_tap tap /\ normalizeCommand (VObj tap) = tap) /\
  (canonical_swipe swipe /\ normalizeCommand (VObj swipe) = swipe).
Proof.
  intros tap swipe.
  assert (Htap : canonical_tap tap).
  { split; [reflexivity|]. split; [|reflexivity].
    exists 160, 200. split; reflexivity. }
  assert (Hswipe : canonical_swipe swipe).
  { split; [reflexivity|]. split; [|reflexivity].
    exists 160, 800, 160, 200. repeat split; reflexivity. }
  split; (split; [assumption|]).
  - exact (proj1 (proj1 canonical_commands_unchanged_and_aliases_repaired tap Htap)).
  - exact (proj1 (proj1 (proj2 canonical_commands_unchanged_and_aliases_repaired)
                    swipe Hswipe)).
Defined.

(** ** The final-command marker *)

(** Exactly one command is marked final, and it is the last one. *)
Definition exactly_last_final (cmds : list obj) : Prop :=
  exists init c,
    cmds = init ++ [c] /\
    is_true (getv c "isFinalCommand") = true /\
    Forall (fun c' => is_true (getv c' "isFinalCommand") = false) init.

(** The marker a non-last command ends up with: the one the model gave,
    [false] when it gave none. *)
Definition suppliedFinal (raw : value) : value :=
  if is_undefined (getv (spread raw) "isFinalCommand") then VBool false
  else getv (spread raw) "isFinalCommand".

Ltac split_ifs :=
  repeat match goal with
         | |- context [if ?b then _ else _] => destruct b
         end.

Lemma normalizeCommand_isFinalCommand raw :
  getv (normalizeCommand raw) "isFinalCommand" = getv (spread raw) "isFinalCommand".
Proof.
  unfold normalizeCommand, getv. cbv zeta. f_equal. split_ifs;
    repeat first [ rewrite lookup_delete_ne by done
                 | rewrite lookup_insert_ne by done ];
    reflexivity.
Qed.

Lemma addCompletionFlags_isFinalCommand flag cmd :
  getv (addCompletionFlags flag cmd) "isFinalCommand"
  = if is_undefined (getv cmd "isFinalCommand") then VBool false
    else getv cmd "isFinalCommand".
Proof.
  unfold addCompletionFlags.
  assert (Hkeep : forall v,
    getv (<["isTaskComplete" := v]> cmd) "isFinalCommand" = getv cmd "isFinalCommand").
  { intros v. unfold getv. rewrite lookup_insert_ne by done. reflexivity. }
  destruct (is_undefined (getv cmd "isTaskComplete")).
  - rewrite Hkeep. destruct (is_undefined (getv cmd "isFinalCommand")) eqn:Hu.
    + unfold getv. rewrite lookup_insert_eq. reflexivity.
    + rewrite Hkeep. reflexivity.
  - destruct (is_undefined (getv cmd "isFinalCommand")) eqn:Hu.
    + unfold getv. rewrite lookup_insert_eq. reflexivity.
    + reflexivity.
Qed.

Lemma markLastFinal_length cmds : length (markLastFinal cmds) = length cmds.
Proof.
  induction cmds as [|c [|c' rest] IH]; [reflexivity | reflexivity |].
  change (length (c :: markLastFinal (c' :: rest)) = length (c :: c' :: rest)).
  simpl in *. rewrite IH. reflexivity.
Qed.

Lemma markLastFinal_snoc init c :
  markLastFinal (init ++ [c]) = init ++ [<["isFinalCommand" := VBool true]> c].
Proof.
  induction init as [|x init IH]; [reflexivity|].
  change ((x :: init) ++ [c]) with (x :: (init ++ [c])).
  destruct (init ++ [c]) as [|y rest] eqn:Hrest.
  - destruct init; discriminate.
  - change (markLastFinal (x :: y :: rest)) with (x :: markLastFinal (y :: rest)).
    rewrite IH. reflexivity.
Qed.

Lemma nonempty_snoc {A} (l : list A) : l <> [] -> exists init x, l = init ++ [x].
Proof.
  intros Hne. destruct (exists_last Hne) as (init & x & ->). eauto.
Qed.

(** The commands of a parsed reply, as [cleanResponse] computes them. *)
Definition processCommands (flag : value) (raw : list value) : list obj :=
  markLastFinal (addCompletionFlags flag <$> (normalizeCommand <$> raw)).

Lemma processCommands_snoc flag init last :
  processCommands flag (init ++ [last])
  = (addCompletionFlags flag <$> (normalizeCommand <$> init))
      ++ [<["isFinalCommand" := VBool true]> (addCompletionFlags flag (normalizeCommand last))].
Proof.
  unfold processCommands. rewrite !fmap_app. exact (markLastFinal_snoc _ _).
Qed.

Lemma processed_final flag raw :
  getv (addCompletionFlags flag (normalizeCommand raw)) "isFinalCommand" = suppliedFinal raw.
Proof.
  rewrite addCompletionFlags_isFinalCommand, normalizeCommand_isFinalCommand. reflexivity.
Qed.

Lemma processCommands_spec flag raw :
  raw <> [] ->
  length (processCommands flag raw) = length raw /\
  (exists c, last (processCommands flag raw) = Some c /\
             getv c "isFinalCommand" = VBool true) /\
  (forall i v, raw !! i = Some v -> (S i < length raw)%nat ->
     exists c, processCommands flag raw !! i = Some c /\
               getv c "isFinalCommand" = suppliedFinal v) /\
  ((forall i v, raw !! i = Some v -> (S i < length raw)%nat ->
      is_true (suppliedFinal v) = false) ->
   exactly_last_final (processCommands flag raw)).
Proof.
  intros Hne. destruct (nonempty_snoc raw Hne) as (init & lastc & ->).
  rewrite processCommands_snoc.
  split; [|split; [|split]].
  - rewrite !length_app, !length_fmap. reflexivity.
  - eexists. split.
    + apply last_snoc.
    + unfold getv. rewrite lookup_insert_eq. reflexivity.
  - intros i v Hi Hlt. rewrite length_app in Hlt. simpl in Hlt.
    assert (Hi' : (i < length init)%nat) by lia.
    rewrite lookup_app_l in Hi by exact Hi'.
    exists (addCompletionFlags flag (normalizeCommand v)). split.
    + rewrite lookup_app_l by (rewrite !length_fmap; exact Hi').
      rewrite !list_lookup_fmap, Hi. reflexivity.
    + apply processed_final.
  - intros Hnone. eexists _, _. split; [reflexivity|]. split.
    + unfold getv. rewrite lookup_insert_eq. reflexivity.
    + apply Forall_forall. intros c Hc.
      apply list_elem_of_fmap in Hc. destruct Hc as (n & -> & Hn).
      apply list_elem_of_fmap in Hn. destruct Hn as (v & -> & Hv).
      apply list_elem_of_lookup in Hv. destruct Hv as [i Hi].
      rewrite processed_final.
      apply (Hnone i v).
      * rewrite lookup_app_l; [exact Hi | eapply lookup_lt_Some; exact Hi].
      * rewrite length_app. simpl. apply lookup_lt_Some in Hi. lia.
Qed.

Section Normalizer.
Context `{Host}.

Lemma parseModelResponse_commands content rest text parsed o raw :
  jsonContent content = Some text ->
  JSON_parse text = Some parsed ->
  properties parsed = Some o ->
  getv o "commands" = VArr raw ->
  commands (parseModelResponse (Some (content :: rest)))
  = processCommands (getv o "isTaskComplete") raw.
Proof.
  intros Hjson Hparse Hprops Hcmds.
  unfold parseModelResponse, parseJsonResponse, cleanResponse.
  rewrite Hjson, Hparse, Hprops, Hcmds. reflexivity.
Qed.

(** C1, as the code has it. When the reply of the model parses as JSON
    and its command list is not empty, the normalized list is as long, its
    last command is marked final whatever the model supplied, and every
    earlier command carries the marker the model supplied for it, [false]
    where it supplied none. So exactly the last command is marked final
    provided the model marked no earlier one. *)
Theorem last_command_final_earlier_keep_supplied_marker
    content rest text parsed o raw :
  jsonContent content = Some text ->
  JSON_parse text = Some parsed ->
  properties parsed = Some o ->
  getv o "commands" = VArr raw ->
  raw <> [] ->
  let out := commands (parseModelResponse (Some (content :: rest))) in
  length out = length raw /\
  (exists c, last out = Some c /\ getv c "isFinalCommand" = VBool true) /\
  (forall i v, raw !! i = Some v -> (S i < length raw)%nat ->
     exists c, out !! i = Some c /\ getv c "isFinalCommand" = suppliedFinal v) /\
  ((forall i v, raw !! i = Some v -> (S i < length raw)%nat ->
      is_true (suppliedFinal v) = false) ->
   exactly_last_final out).
Proof.
  intros Hjson Hparse Hprops Hcmds Hne out. subst out.
  rewrite (parseModelResponse_commands _ _ _ _ _ _ Hjson Hparse Hprops Hcmds).
  apply processCommands_spec, Hne.
Qed.

End Normalizer.

Import Scenarios.

(** A reply whose first command the model marked final: both commands
    come out marked, so the marker is not unique. *)
Lemma model_marker_on_earlier_command_survives :
  exists tapCmd backCmd,
    commands (parseModelResponse (H := twoFinalsHost) (Some [twoFinalsText]))
      = [tapCmd; backCmd] /\
    getv tapCmd "isFinalCommand" = VBool true /\
    getv backCmd "isFinalCommand" = VBool true /\
    ~ exactly_last_final
        (commands (parseModelResponse (H := twoFinalsHost) (Some [twoFinalsText]))).
Proof.
  assert (Hout :
    commands (parseModelResponse (H := twoFinalsHost) (Some [twoFinalsText]))
    = [ {[ "type" := VStr "tap"; "x" := VNum 1; "y" := VNum 2;
           "isFinalCommand" := VBool true; "isTaskComplete" := VBool false ]};
        {[ "type" := VStr "back"; "isFinalCommand" := VBool true;
           "isTaskComplete" := VBool false ]} ]).
  { vm_compute. reflexivity. }
  eexists _, _. split; [exact Hout|]. split; [reflexivity|]. split; [reflexivity|].
  rewrite Hout. intros (init & c & Heq & _ & Hinit).
  destruct init as [|a [|b init]].
  - discriminate Heq.
  - injection Heq as <- _. inversion Hinit as [|? ? Ha _]. discriminate Ha.
  - injection Heq as _ _ Heq. destruct init; discriminate Heq.
Qed.

Lemma last_command_final_earlier_keep_supplied_marker_witness :
  exists tapCmd backCmd,
    commands (parseModelResponse (H := twoFinalsHost) (Some [twoFinalsText]))
      !! 0%nat = Some tapCmd /\
    getv tapCmd "isFinalCommand" = VBool true /\
    last (commands (parseModelResponse (H := twoFinalsHost) (Some [twoFinalsText])))
      = Some backCmd /\
    getv backCmd "isFinalCommand" = VBool true.
Proof.
  pose proof (last_command_final_earlier_keep_supplied_marker
                (H := twoFinalsHost) twoFinalsText [] twoFinalsText twoFinalsValue
                _ _ eq_refl eq_refl eq_refl eq_refl
                ltac:(discriminate)) as (_ & (c & Hlast & Hc) & Hearlier & _).
  destruct (Hearlier 0%nat _ eq_refl ltac:(simpl; lia)) as (c0 & Hc0 & Hfinal0).
  exists c0, c. repeat split; assumption.
Defined.

(** ** Session history *)

(** Appending one item after the other, each with its clock reading; the
    run stops at the first append that throws. *)
Fixpoint appendAll (items : list (SessionHistoryItem AIResponse * string))
    (sessionContext : SessionContext) : outcome unit * SessionContext :=
  match items with
  | [] => (Ok tt, sessionContext)
  | (item, timestamp) :: rest =>
      match updateSessionContext item timestamp sessionContext with
      | (Ok _, updated) => appendAll rest updated
      | failed => failed
      end
  end.

(** The history item stored for [item] once its response is condensed. *)
Definition stored (item : SessionHistoryItem AIResponse) (condensed : SimpleAIResponse)
  : SessionHistoryItem SimpleAIResponse :=
  {| instruction := instruction item;
     item_screenshot := item_screenshot item;
     item_uiElements := item_uiElements item;
     parsedResponse := condensed |}.

Lemma slice_last_length {A} n (l : list A) : (length (slice_last n l) <= n)%nat.
Proof. unfold slice_last. rewrite length_drop. lia. Qed.

Lemma slice_last_suffix {A} n (l : list A) :
  exists evicted, l = evicted ++ slice_last n l /\ length evicted = (length l - n)%nat.
Proof.
  unfold slice_last. exists (take (length l - n) l). split.
  - symmetry. apply take_drop.
  - rewrite length_take. lia.
Qed.

Lemma updateSessionContext_Ok item timestamp ctx updated :
  updateSessionContext item timestamp ctx = (Ok tt, updated) ->
  exists condensed,
    simplifyResponse (parsedResponse item) = Some condensed /\
    history updated
    = Some (slice_last MAX_CONTEXT_ITEMS
              (default [] (history ctx) ++ [stored item condensed])) /\
    lastOperation updated = Some (mkLastOperation (instruction item) timestamp).
Proof.
  unfold updateSessionContext.
  destruct (simplifyResponse (parsedResponse item)) as [condensed|]; [|discriminate].
  intros Heq. injection Heq as <-. exists condensed. split; [reflexivity|].
  split; [|reflexivity]. simpl. f_equal. fold (stored item condensed).
  destruct (Nat.ltb_spec MAX_CONTEXT_ITEMS
              (length (default [] (history ctx) ++ [stored item condensed])))
    as [Hlt|Hle]; [reflexivity|].
  unfold slice_last.
  replace (length (default [] (history ctx) ++ [stored item condensed])
           - MAX_CONTEXT_ITEMS)%nat with 0%nat by lia.
  reflexivity.
Qed.

Lemma updateSessionContext_total item timestamp ctx t :
  thinking (parsedResponse item) = VStr t ->
  exists updated, updateSessionContext item timestamp ctx = (Ok tt, updated).
Proof.
  intros Ht. unfold updateSessionContext, simplifyResponse. rewrite Ht. eauto.
Qed.

(** The retained history after any run of appends: a suffix of the old
    history followed by the new items, at most five long. *)
Lemma appendAll_history items : forall ctx updated,
  appendAll items ctx = (Ok tt, updated) ->
  items <> [] ->
  exists condensed retained evicted,
    Forall2 (fun entry c => simplifyResponse (parsedResponse (fst entry)) = Some c)
            items condensed /\
    history updated = Some retained /\
    (length retained <= MAX_CONTEXT_ITEMS)%nat /\
    default [] (history ctx) ++ zip_with stored (fst <$> items) condensed
    = evicted ++ retained.
Proof.
  induction items as [|[item ts] rest IH]; intros ctx updated Hrun Hne; [congruence|].
  simpl in Hrun.
  destruct (updateSessionContext item ts ctx) as [[[]| |] mid] eqn:Hstep;
    try discriminate.
  destruct (updateSessionContext_Ok _ _ _ _ Hstep) as (c & Hc & Hhist & _).
  destruct rest as [|next rest].
  - simpl in Hrun. injection Hrun as <-.
    destruct (slice_last_suffix MAX_CONTEXT_ITEMS
                (default [] (history ctx) ++ [stored item c])) as (ev & Hev & _).
    exists [c], (slice_last MAX_CONTEXT_ITEMS (default [] (history ctx) ++ [stored item c])), ev.
    split; [constructor; [exact Hc | constructor]|].
    split; [exact Hhist|]. split; [apply slice_last_length|]. exact Hev.
  - destruct (IH mid updated Hrun ltac:(discriminate))
      as (cs & retained & ev & Hcs & Hret & Hlen & Hsplit).
    rewrite Hhist in Hsplit. simpl in Hsplit.
    destruct (slice_last_suffix MAX_CONTEXT_ITEMS
                (default [] (history ctx) ++ [stored item c])) as (ev0 & Hev0 & _).
    exists (c :: cs), retained, (ev0 ++ ev).
    split; [constructor; assumption|].
    split; [exact Hret|]. split; [exact Hlen|].
    rewrite <- app_assoc, <- Hsplit, app_assoc, <- Hev0, <- app_assoc. reflexivity.
Qed.

(** C6. After an append that completes the history holds at most five
    items: the old items followed by the new one, minus the oldest ones when
    that would be more than five (and minus nothing otherwise). The append
    completes whenever the response's thinking is a string, and the same
    bound and order hold after any number of appends in a row. *)
Theorem history_bounded_oldest_evicted_first :
  (forall item timestamp ctx updated,
     updateSessionContext item timestamp ctx = (Ok tt, updated) ->
     exists condensed retained evicted,
       simplifyResponse (parsedResponse item) = Some condensed /\
       history updated = Some retained /\
       (length retained <= 5)%nat /\
       default [] (history ctx) ++ [stored item condensed] = evicted ++ retained /\
       length evicted
       = (length (default [] (history ctx) ++ [stored item condensed]) - 5)%nat) /\
  (forall item timestamp ctx t,
     thinking (parsedResponse item) = VStr t ->
     exists updated, updateSessionContext item timestamp ctx = (Ok tt, updated)) /\
  (forall items ctx updated,
     appendAll items ctx = (Ok tt, updated) ->
     items <> [] ->
     exists condensed retained evicted,
       Forall2 (fun entry c => simplifyResponse (parsedResponse (fst entry)) = Some c)
               items condensed /\
       history updated = Some retained /\
       (length retained <= 5)%nat /\
       default [] (history ctx) ++ zip_with stored (fst <$> items) condensed
       = evicted ++ retained).
Proof.
  split; [|split].
  - intros item timestamp ctx updated Hstep.
    destruct (updateSessionContext_Ok _ _ _ _ Hstep) as (c & Hc & Hhist & _).
    destruct (slice_last_suffix MAX_CONTEXT_ITEMS
                (default [] (history ctx) ++ [stored item c])) as (ev & Hev & Hlen).
    exists c, (slice_last MAX_CONTEXT_ITEMS (default [] (history ctx) ++ [stored item c])), ev.
    split; [exact Hc|]. split; [exact Hhist|].
    split; [apply slice_last_length|]. split; [exact Hev | exact Hlen].
  - apply updateSessionContext_total.
  - apply appendAll_history.
Qed.

End AiServiceFacts.

(* ===================================================================== *)
(** * Properties of the command dispatcher *)
(* ===================================================================== *)

Module CommandExecutorFacts.
Import Js DataModel Eff AndroidConnection CommandExecutor.

(** ** Running computations *)

Lemma bind_Ok {A B} (c : M A) (k : A -> M B) w a w' :
  c w = (Ok a, w') -> bind c k w = k a w'.
Proof. unfold bind. intros ->. reflexivity. Qed.

Lemma bind_Throw {A B} (c : M A) (k : A -> M B) w m w' :
  c w = (Throw m, w') -> bind c k w = (Throw m, w').
Proof. unfold bind. intros ->. reflexivity. Qed.

Lemma bind_Starved {A B} (c : M A) (k : A -> M B) w w' :
  c w = (Starved, w') -> bind c k w = (Starved, w').
Proof. unfold bind. intros ->. reflexivity. Qed.

Lemma for_each_app {A B} (f : A -> M B) xs ys w rs w1 :
  for_each f xs w = (Ok rs, w1) ->
  for_each f (xs ++ ys) w
  = bind (for_each f ys) (fun rs' => ret (rs ++ rs')) w1.
Proof.
  revert w rs. induction xs as [|x xs IH]; intros w rs Hxs; simpl in *.
  - injection Hxs as <- <-. unfold bind, ret.
    destruct (for_each f ys w) as [[rs'| |] w2]; reflexivity.
  - unfold bind in Hxs |- * at 1.
    destruct (f x w) as [[r| |] w2]; try discriminate.
    fold (bind (for_each f xs) (fun rs0 => ret (r :: rs0)) w2) in Hxs.
    fold (bind (for_each f (xs ++ ys)) (fun rs0 => ret (r :: rs0)) w2).
    unfold bind in Hxs at 1.
    destruct (for_each f xs w2) as [[rs0| |] w3] eqn:Hrest; try discriminate.
    unfold ret in Hxs. injection Hxs as <- <-.
    unfold bind at 1. rewrite (IH _ _ Hrest).
    unfold bind, ret. destruct (for_each f ys w3) as [[rs'| |] w4]; reflexivity.
Qed.

(** The first failure ends the loop: what was collected is dropped and
    what follows is not run. *)
Lemma for_each_first_failure {A B} (f : A -> M B) done x rest w rs w1 m w2 :
  for_each f done w = (Ok rs, w1) ->
  f x w1 = (Throw m, w2) ->
  for_each f (done ++ x :: rest) w = (Throw m, w2).
Proof.
  intros Hdone Hx. rewrite (for_each_app _ _ _ _ _ _ Hdone).
  unfold bind at 1. simpl. unfold bind at 1. rewrite Hx. reflexivity.
Qed.

Section WithHost.
Context `{Host}.

(** The command types the dispatcher knows. *)
Definition recognised (type : value) : bool :=
  existsb (str_is type) CommandType.

Definition composite (cmds : list value) : value :=
  VObj {[ "type" := VStr "composite"; "commands" := VArr cmds ]}.

Lemma executeCommand_composite fuel (c : obj) :
  getv c "type" = VStr "composite" ->
  executeCommand (S fuel) (VObj c)
  = executeCompositeCommand fuel (getv c "commands").
Proof. intros Htype. simpl. rewrite Htype. reflexivity. Qed.

(** C3, as the code has it. The inner commands run in order. When one of
    them throws, the composite command throws the same error, in the world
    the failing command left: the remaining ones are not run and no result
    is returned, the results collected so far being dropped. When all of
    them return, the result is [{success: true, type: 'composite', results}]
    with their results in order; a returned result never has another
    success flag. A command list that is empty or no array is an error. *)
Theorem composite_runs_in_order_and_rethrows_first_failure :
  (forall fuel (c : obj) done failing rest w results w1 message w2,
     getv c "type" = VStr "composite" ->
     getv c "commands" = VArr (done ++ failing :: rest) ->
     for_each (executeCommand fuel) done w = (Ok results, w1) ->
     executeCommand fuel failing w1 = (Throw message, w2) ->
     executeCommand (S fuel) (VObj c) w = (Throw message, w2)) /\
  (forall fuel (c : obj) cmds w results w1,
     getv c "type" = VStr "composite" ->
     getv c "commands" = VArr cmds ->
     cmds <> [] ->
     for_each (executeCommand fuel) cmds w = (Ok results, w1) ->
     executeCommand (S fuel) (VObj c) w
     = (Ok {[ "success" := VBool true; "type" := VStr "composite";
              "results" := VArr (VObj <$> results) ]}, w1)) /\
  (forall fuel cmds w result w1,
     executeCompositeCommand fuel cmds w = (Ok result, w1) ->
     getv result "success" = VBool true) /\
  (forall fuel cmds w,
     (forall l, cmds = VArr l -> l = []) ->
     executeCompositeCommand fuel cmds w = (Throw "复合命令必须是命令数组且不能为空", w)).
Proof.
  split; [|split; [|split]].
  - intros fuel c done failing rest w results w1 message w2 Htype Hcmds Hdone Hfail.
    rewrite (executeCommand_composite _ _ Htype), Hcmds.
    unfold executeCompositeCommand, executeCompositeCommandWith.
    destruct (done ++ failing :: rest) as [|x l] eqn:Hl.
    { destruct done; discriminate. }
    rewrite <- Hl.
    apply bind_Throw, (for_each_first_failure _ _ _ _ _ _ _ _ _ Hdone Hfail).
  - intros fuel c cmds w results w1 Htype Hcmds Hne Hall.
    rewrite (executeCommand_composite _ _ Htype), Hcmds.
    unfold executeCompositeCommand, executeCompositeCommandWith.
    destruct cmds as [|x l]; [congruence|].
    rewrite (bind_Ok _ _ _ _ _ Hall). reflexivity.
  - intros fuel cmds w result w1.
    unfold executeCompositeCommand, executeCompositeCommandWith.
    destruct cmds as [| | | | |[|x l]|]; try discriminate.
    unfold bind. destruct (for_each _ _ w) as [[rs| |] w']; try discriminate.
    unfold ret. intros Heq. injection Heq as <- _. reflexivity.
  - intros fuel cmds w Hempty.
    unfold executeCompositeCommand, executeCompositeCommandWith.
    destruct cmds as [| | | | |[|x l]|]; try reflexivity.
    specialize (Hempty _ eq_refl). discriminate.
Qed.

Lemma recognised_false type :
  recognised type = false ->
  str_is type "tap" = false /\ str_is type "swipe" = false /\
  str_is type "text" = false /\ str_is type "key" = false /\
  str_is type "wait" = false /\ str_is type "back" = false /\
  str_is type "home" = false /\ str_is type "app_switch" = false /\
  str_is type "composite" = false.
Proof.
  unfold recognised, CommandType. cbn [existsb]. intros Hrec.
  repeat (apply orb_false_elim in Hrec as [? Hrec]). repeat split; assumption.
Qed.

(** C4, as the code has it. A command whose type is set but is none of
    the known tags fails with the unknown-type error, and a command that is
    no object or has no (or an empty) type fails with the invalid-format
    error, in both cases before anything reaches the device. The fields a
    type requires are not checked: a tap is handed to the transport with
    whatever [x] and [y] it carries, [undefined] included. *)
Theorem unknown_type_rejected_fields_unchecked :
  (forall fuel (c : obj) w,
     truthy (getv c "type") = true ->
     recognised (getv c "type") = false ->
     executeCommand fuel (VObj c) w
     = (Throw ("未知的命令类型: " +:+ js_String (getv c "type")), w)) /\
  (forall fuel (c : obj) w,
     truthy (getv c "type") = false ->
     executeCommand fuel (VObj c) w = (Throw "无效的命令格式", w)) /\
  (forall fuel v w,
     (forall c, v <> VObj c) ->
     executeCommand fuel v w = (Throw "无效的命令格式", w)) /\
  (forall fuel (c : obj) w,
     getv c "type" = VStr "tap" ->
     executeCommand fuel (VObj c) w = tap (getv c "x") (getv c "y") w /\
     trace (snd (executeCommand fuel (VObj c) w))
     = trace w ++ [Adb (AdbTap (getv c "x") (getv c "y"))
                       (adb_at (adbs w) (AdbTap (getv c "x") (getv c "y")))]).
Proof.
  split; [|split; [|split]].
  - intros fuel c w Htruthy Hrec.
    destruct (recognised_false _ Hrec) as (H1 & H2 & H3 & H4 & H5 & H6 & H7 & H8 & H9).
    destruct fuel; simpl; rewrite Htruthy, H1, H2, H3, H4, H5, H6, H7, H8, H9;
      reflexivity.
  - intros fuel c w Hfalsy. destruct fuel; simpl; rewrite Hfalsy; reflexivity.
  - intros fuel v w Hno. destruct v; try (destruct fuel; reflexivity).
    exfalso. exact (Hno _ eq_refl).
  - intros fuel c w Htype.
    assert (Hrun : executeCommand fuel (VObj c) w = tap (getv c "x") (getv c "y") w).
    { destruct fuel; simpl; rewrite Htype; reflexivity. }
    split; [exact Hrun|]. rewrite Hrun. unfold tap, bind, execPromise.
    destruct (adb_at (adbs w) (AdbTap (getv c "x") (getv c "y"))); reflexivity.
Qed.

End WithHost.
End CommandExecutorFacts.

(* ===================================================================== *)
(** * Properties of the orchestration loop *)
(* ===================================================================== *)

Module SocketHandlersFacts.
Import Js DataModel Eff AndroidConnection CommandExecutor AiService SocketHandlers.
Import CommandExecutorFacts.

Section WithHost.
Context `{Host}.

(** ** The decision after each command *)

Lemma executeCommandSequence_cons fuel command rest instruction w :
  executeCommandSequence (S fuel) (command :: rest) instruction w
  = (let* result := executeAndHandleSingleCommand (S fuel) command in
     if success result && negb (truthy (getv command "isTaskComplete"))
     then continueTaskExecution fuel instruction command;;;
          executeCommandSequence (S fuel) rest instruction
     else ret tt) w.
Proof.
  assert (Hunfold :
    executeCommandSequence (S fuel) (command :: rest) instruction
    = (let* result := executeAndHandleSingleCommand (S fuel) command in
       (if success result && negb (truthy (getv command "isTaskComplete"))
        then continueTaskExecution fuel instruction command
        else ret tt);;;
       if negb (success result) || truthy (getv command "isTaskComplete")
       then ret tt
       else executeCommandSequence (S fuel) rest instruction)) by reflexivity.
  rewrite Hunfold. clear Hunfold.
  destruct (executeAndHandleSingleCommand (S fuel) command w) as [[result| |] w1] eqn:E.
  - rewrite !(bind_Ok _ _ _ _ _ E).
    destruct (success result); destruct (truthy (getv command "isTaskComplete"));
      reflexivity.
  - rewrite !(bind_Throw _ _ _ _ _ E). reflexivity.
  - rewrite !(bind_Starved _ _ _ _ E). reflexivity.
Qed.


(** ** What a computation adds to the trace *)

(** Run from any world, [c] appends some events to the trace, and its
    outcome and those events satisfy [Q]. *)
Definition traced {A} (Q : outcome A -> list Event -> Prop) (c : M A) : Prop :=
  forall w, exists tr, trace (snd (c w)) = trace w ++ tr /\ Q (fst (c w)) tr.

Lemma traced_weaken {A} (Q Q' : outcome A -> list Event -> Prop) c :
  traced Q c -> (forall o tr, Q o tr -> Q' o tr) -> traced Q' c.
Proof. intros Hc Himp w. destruct (Hc w) as (tr & Htr & HQ). eauto. Qed.

Lemma traced_ret {A} (Q : outcome A -> list Event -> Prop) a :
  Q (Ok a) [] -> traced Q (ret a).
Proof. intros HQ w. exists []. simpl. rewrite app_nil_r. auto. Qed.

Lemma traced_throw {A} (Q : outcome A -> list Event -> Prop) m :
  Q (Throw m) [] -> traced Q (throw m).
Proof. intros HQ w. exists []. simpl. rewrite app_nil_r. auto. Qed.

Lemma traced_starve {A} (Q : outcome A -> list Event -> Prop) :
  Q Starved [] -> traced Q starve.
Proof. intros HQ w. exists []. simpl. rewrite app_nil_r. auto. Qed.

Lemma traced_record (Q : outcome unit -> list Event -> Prop) e :
  Q (Ok tt) [e] -> traced Q (record e).
Proof. intros HQ w. exists [e]. simpl. auto. Qed.

Lemma traced_bind {A B} (Q1 : outcome A -> list Event -> Prop)
    (Q2 : A -> outcome B -> list Event -> Prop)
    (Q : outcome B -> list Event -> Prop) (c : M A) (k : A -> M B) :
  traced Q1 c ->
  (forall a, traced (Q2 a) (k a)) ->
  (forall a tr1 o tr2, Q1 (Ok a) tr1 -> Q2 a o tr2 -> Q o (tr1 ++ tr2)) ->
  (forall m tr1, Q1 (Throw m) tr1 -> Q (Throw m) tr1) ->
  (forall tr1, Q1 Starved tr1 -> Q Starved tr1) ->
  traced Q (bind c k).
Proof.
  intros Hc Hk Hok Hthrow Hstarve w. unfold bind.
  destruct (Hc w) as (tr1 & Htr1 & HQ1).
  destruct (c w) as [[a|m|] w1]; simpl in *.
  - destruct (Hk a w1) as (tr2 & Htr2 & HQ2).
    exists (tr1 ++ tr2). rewrite Htr2, Htr1, app_assoc. eauto.
  - exists tr1. eauto.
  - exists tr1. eauto.
Qed.

Lemma traced_try_catch {A} (Q1 : outcome A -> list Event -> Prop)
    (Q2 : string -> outcome A -> list Event -> Prop)
    (Q : outcome A -> list Event -> Prop) (c : M A) (h : string -> M A) :
  traced Q1 c ->
  (forall m, traced (Q2 m) (h m)) ->
  (forall m tr1 o tr2, Q1 (Throw m) tr1 -> Q2 m o tr2 -> Q o (tr1 ++ tr2)) ->
  (forall a tr1, Q1 (Ok a) tr1 -> Q (Ok a) tr1) ->
  (forall tr1, Q1 Starved tr1 -> Q Starved tr1) ->
  traced Q (try_catch c h).
Proof.
  intros Hc Hh Hcaught Hok Hstarve w. unfold try_catch.
  destruct (Hc w) as (tr1 & Htr1 & HQ1).
  destruct (c w) as [[a|m|] w1]; simpl in *.
  - exists tr1. eauto.
  - destruct (Hh m w1) as (tr2 & Htr2 & HQ2).
    exists (tr1 ++ tr2). rewrite Htr2, Htr1, app_assoc. eauto.
  - exists tr1. eauto.
Qed.

(** Events that are not sent to the client. *)
Definition silent (e : Event) : Prop :=
  match e with Emit _ _ => False | _ => True end.

(** [c] emits nothing to the client. *)
Definition mute {A} (c : M A) : Prop := traced (fun _ tr => Forall silent tr) c.

Lemma mute_ret {A} (a : A) : mute (ret a).
Proof. apply traced_ret. constructor. Qed.

Lemma mute_throw {A} m : mute (@throw A m).
Proof. apply traced_throw. constructor. Qed.

Lemma mute_starve {A} : mute (@starve A).
Proof. apply traced_starve. constructor. Qed.

Lemma mute_bind {A B} (c : M A) (k : A -> M B) :
  mute c -> (forall a, mute (k a)) -> mute (bind c k).
Proof.
  intros Hc Hk.
  apply (traced_bind (fun _ tr => Forall silent tr) (fun _ _ tr => Forall silent tr));
    auto.
  intros a tr1 o tr2 H1 H2. apply Forall_app. auto.
Qed.

Lemma mute_for_each {A B} (f : A -> M B) xs :
  (forall x, mute (f x)) -> mute (for_each f xs).
Proof.
  intros Hf. induction xs as [|x xs IH]; simpl.
  - apply mute_ret.
  - apply mute_bind; [apply Hf|]. intros r.
    apply mute_bind; [apply IH|]. intros rs. apply mute_ret.
Qed.

Lemma mute_sleep ms : mute (sleep ms).
Proof. apply traced_record. repeat constructor. Qed.

Lemma mute_step {A} (c : M A) :
  (forall w, trace (snd (c w)) = trace w) -> mute c.
Proof. intros Hc w. exists []. rewrite app_nil_r. split; [apply Hc | constructor]. Qed.

Lemma mute_execPromise a : mute (execPromise a).
Proof.
  intros w. exists [Adb a (adb_at (adbs w) a)]. unfold execPromise.
  destruct (adb_at (adbs w) a); simpl; split; auto; repeat constructor.
Qed.

Lemma mute_getCurrentScreenState : mute getCurrentScreenState.
Proof.
  intros w. unfold getCurrentScreenState.
  destruct (screen_at (captures w)) as [m|state]; simpl;
    eexists; split; try reflexivity; repeat constructor.
Qed.

Lemma mute_callLLMAPI prompt shot : mute (callLLMAPI prompt shot).
Proof.
  unfold callLLMAPI. destruct configured; simpl; [|apply mute_throw].
  intros w. destruct (model_at (posts w) (buildMessages prompt shot)) as [m|data];
    simpl; eexists; split; try reflexivity; repeat constructor.
Qed.

Lemma mute_updateSessionContextAt l item : mute (updateSessionContextAt l item).
Proof.
  apply mute_step. intros w. unfold updateSessionContextAt.
  destruct (updateSessionContext _ _ _) as [[[]| |] updated]; reflexivity.
Qed.

Lemma mute_handleAIInstruction options : mute (handleAIInstruction options).
Proof.
  unfold handleAIInstruction.
  apply mute_bind; [apply mute_step; reflexivity|]. intros ctx.
  apply mute_bind; [apply mute_callLLMAPI|]. intros response.
  apply mute_bind; [apply mute_updateSessionContextAt|]. intros _. apply mute_ret.
Qed.

Lemma mute_sessionContextOrFresh : mute sessionContextOrFresh.
Proof.
  apply mute_step. intros w. unfold sessionContextOrFresh, bind, get_socket_sessionContext.
  simpl. destruct (socket_sessionContext w); reflexivity.
Qed.

(** [executeCommand] on an object, with the composite case set apart. *)
Definition dispatch (c : obj) (composite : M obj) : M obj :=
  let type := getv c "type" in
  if negb (truthy type) then throw "无效的命令格式"
  else if str_is type "tap" then tap (getv c "x") (getv c "y")
  else if str_is type "swipe" then
    swipe (getv c "startX") (getv c "startY") (getv c "endX") (getv c "endY")
          (getv c "duration")
  else if str_is type "text" then inputText (getv c "text")
  else if str_is type "key" then pressKey (getv c "keycode")
  else if str_is type "wait" then wait (or_else (getv c "duration") (VNum 1000))
  else if str_is type "back" then pressKey (VNum 4)
  else if str_is type "home" then pressKey (VNum 3)
  else if str_is type "app_switch" then pressKey (VNum 187)
  else if str_is type "composite" then composite
  else throw ("未知的命令类型: " +:+ js_String type).

Lemma executeCommand_dispatch fuel (c : obj) :
  executeCommand fuel (VObj c)
  = dispatch c match fuel with
               | O => starve
               | S fuel' =>
                   executeCompositeCommandWith (executeCommand fuel') (getv c "commands")
               end.
Proof. destruct fuel; reflexivity. Qed.

Lemma mute_dispatch (c : obj) (composite : M obj) :
  mute composite -> mute (dispatch c composite).
Proof.
  intros Hcomposite. unfold dispatch. cbv zeta.
  repeat match goal with
         | |- mute (if ?b then _ else _) => destruct b
         end;
    try apply mute_throw; try exact Hcomposite;
    unfold tap, swipe, pressKey, wait, inputText;
    try (apply mute_bind; [first [apply mute_execPromise | apply mute_sleep]
                          | intros _; apply mute_ret]).
  destruct (getv c "text"); try apply mute_throw.
  apply mute_bind; [apply mute_execPromise | intros _; apply mute_ret].
Qed.

Lemma mute_executeCommand fuel : forall command, mute (executeCommand fuel command).
Proof.
  induction fuel as [|fuel IH]; intros command;
    (destruct command as [| | | | | |c];
     [apply mute_throw | apply mute_throw | apply mute_throw | apply mute_throw
     | apply mute_throw | apply mute_throw | ]);
    rewrite executeCommand_dispatch; apply mute_dispatch.
  - apply mute_starve.
  - unfold executeCompositeCommandWith.
    destruct (getv c "commands") as [| | | | |[|x l]|]; try apply mute_throw.
    apply mute_bind; [apply mute_for_each, IH | intros rs; apply mute_ret].
Qed.

(** ** One recovery per failed dispatch *)

(** A failed dispatch as the client sees it: a ['command-result'] whose
    [success] is not true. *)
Definition isFailedDispatch (e : Event) : bool :=
  match e with
  | Emit name (VObj o) =>
      String.eqb name "command-result" && negb (is_true (getv o "success"))
  | _ => false
  end.

(** The end of a run of the error-correction sub-flow as the client sees
    it: ['error-correction-end'] when it went through, ['error'] when it
    failed. *)
Definition isRecoveryOutcome (e : Event) : bool :=
  match e with
  | Emit name _ => String.eqb name "error-correction-end" || String.eqb name "error"
  | _ => false
  end.

Definition count (p : Event -> bool) (tr : list Event) : nat :=
  length (List.filter p tr).

Definition failedDispatches : list Event -> nat := count isFailedDispatch.
Definition recoveries : list Event -> nat := count isRecoveryOutcome.

(** An event that is neither. *)
Definition neutral (e : Event) : Prop :=
  isFailedDispatch e = false /\ isRecoveryOutcome e = false.

Lemma count_app p tr1 tr2 : count p (tr1 ++ tr2) = (count p tr1 + count p tr2)%nat.
Proof. unfold count. rewrite List.filter_app, length_app. reflexivity. Qed.

Lemma count_singleton p e : count p [e] = if p e then 1%nat else 0%nat.
Proof. unfold count. simpl. destruct (p e); reflexivity. Qed.

Lemma count_neutral tr :
  Forall neutral tr -> failedDispatches tr = 0%nat /\ recoveries tr = 0%nat.
Proof.
  unfold failedDispatches, recoveries, count.
  induction 1 as [|e tr [Hf Hr] _ [IHf IHr]]; simpl; [auto|].
  rewrite Hf, Hr. auto.
Qed.

Lemma silent_neutral e : silent e -> neutral e.
Proof. destruct e; simpl; intros []; split; reflexivity. Qed.

(** [c] reports neither a failed dispatch nor the end of a recovery. *)
Definition calm {A} (c : M A) : Prop := traced (fun _ tr => Forall neutral tr) c.

Lemma mute_calm {A} (c : M A) : mute c -> calm c.
Proof.
  intros Hc. apply (traced_weaken _ _ _ Hc). intros _ tr Htr.
  eapply Forall_impl; [exact Htr | apply silent_neutral].
Qed.

Lemma calm_ret {A} (a : A) : calm (ret a).
Proof. apply mute_calm, mute_ret. Qed.

Lemma calm_bind {A B} (c : M A) (k : A -> M B) :
  calm c -> (forall a, calm (k a)) -> calm (bind c k).
Proof.
  intros Hc Hk.
  apply (traced_bind (fun _ tr => Forall neutral tr) (fun _ _ tr => Forall neutral tr));
    auto.
  intros a tr1 o tr2 H1 H2. apply Forall_app. auto.
Qed.

Lemma calm_emit name payload :
  neutral (Emit name payload) -> calm (emit name payload).
Proof. intros Hn. apply traced_record. repeat constructor; apply Hn. Qed.

(** [c] is calm and always returns. *)
Definition steady {A} (c : M A) : Prop :=
  traced (fun o tr => Forall neutral tr /\ exists a, o = Ok a) c.

Lemma steady_emit name payload :
  neutral (Emit name payload) -> steady (emit name payload).
Proof. intros Hn. apply traced_record. split; [repeat constructor; apply Hn | eauto]. Qed.

Lemma traced_after_steady {A B} (Q : outcome B -> list Event -> Prop)
    (c : M A) (k : A -> M B) :
  steady c ->
  (forall a, traced Q (k a)) ->
  (forall o s tr, Forall neutral s -> Q o tr -> Q o (s ++ tr)) ->
  traced Q (bind c k).
Proof.
  intros Hc Hk Hpre.
  apply (traced_bind (fun o tr => Forall neutral tr /\ exists a, o = Ok a) (fun _ => Q));
    auto.
  - intros a tr1 o tr2 [Hs _] HQ. auto.
  - intros m tr1 [_ [a Ha]]. discriminate.
  - intros tr1 [_ [a Ha]]. discriminate.
Qed.

(** After a calm start, what counts is what follows. *)
Lemma traced_after_calm {A B} (Q : outcome B -> list Event -> Prop)
    (c : M A) (k : A -> M B) :
  calm c ->
  (forall a, traced Q (k a)) ->
  (forall o s tr, Forall neutral s -> Q o tr -> Q o (s ++ tr)) ->
  (forall m s, Forall neutral s -> Q (Throw m) s) ->
  (forall s, Forall neutral s -> Q Starved s) ->
  traced Q (bind c k).
Proof.
  intros Hc Hk Hpre Hthrow Hstarve.
  apply (traced_bind (fun _ tr => Forall neutral tr) (fun _ => Q)); auto.
Qed.

(** The outcome of a piece of the loop that has settled its failures: it
    returned, and every failed dispatch it reported was followed by the
    end of one recovery. *)
Definition settled {A} (o : outcome A) (tr : list Event) : Prop :=
  o <> Starved -> (exists a, o = Ok a) /\ recoveries tr = failedDispatches tr.

(** The same with one recovery more than failures: the sub-flow itself. *)
Definition recovered {A} (o : outcome A) (tr : list Event) : Prop :=
  o <> Starved -> (exists a, o = Ok a) /\ recoveries tr = S (failedDispatches tr).

Lemma settled_for_each {A B} (f : A -> M B) xs :
  (forall x, traced settled (f x)) -> traced settled (for_each f xs).
Proof.
  intros Hf. induction xs as [|x xs IH]; simpl.
  - apply traced_ret. intros _. split; [eauto | reflexivity].
  - apply (traced_bind settled (fun _ => settled)); [apply Hf | | | | ].
    + intros r.
      apply (traced_bind settled (fun _ o tr => tr = [] /\ exists a, o = Ok a));
        [apply IH | | | | ].
      * intros rs. apply traced_ret. eauto.
      * intros rs tr1 o tr2 H1 [-> [a ->]] _. rewrite app_nil_r.
        split; [eauto|]. apply H1. discriminate.
      * intros m tr1 H1 _. destruct H1 as [[a Ha] _]; discriminate.
      * intros tr1 _ Hne. congruence.
    + intros r tr1 o tr2 H1 H2 Hne.
      destruct (H1 ltac:(discriminate)) as [_ Hb1].
      destruct (H2 Hne) as [Hok Hb2]. split; [exact Hok|].
      unfold recoveries, failedDispatches in *. rewrite !count_app. lia.
    + intros m tr1 H1 _. destruct H1 as [[a Ha] _]; discriminate.
    + intros tr1 _ Hne. congruence.
Qed.

Lemma neutral_prefix_counts s tr :
  Forall neutral s ->
  recoveries (s ++ tr) = recoveries tr /\ failedDispatches (s ++ tr) = failedDispatches tr.
Proof.
  intros Hs. destruct (count_neutral s Hs) as [Hf Hr].
  unfold recoveries, failedDispatches in *. rewrite !count_app, Hf, Hr. auto.
Qed.

Lemma recovery_end_emit name payload :
  isRecoveryOutcome (Emit name payload) = true ->
  isFailedDispatch (Emit name payload) = false ->
  traced (fun o tr => o = Ok tt /\ recoveries tr = 1%nat /\ failedDispatches tr = 0%nat)
         (emit name payload).
Proof.
  intros Hr Hf. apply traced_record.
  unfold recoveries, failedDispatches. rewrite !count_singleton, Hr, Hf. auto.
Qed.

Lemma handleErrorCorrectionWith_recovered exec command error :
  (forall x, traced settled (exec x)) ->
  traced recovered (handleErrorCorrectionWith exec command error).
Proof.
  intros Hexec. unfold handleErrorCorrectionWith.
  pose (Qbody := fun (o : outcome unit) (tr : list Event) =>
    match o with
    | Ok _ => recoveries tr = S (failedDispatches tr)
    | Throw _ => recoveries tr = failedDispatches tr
    | Starved => True
    end).
  assert (Hpre : forall o s tr, Forall neutral s -> Qbody o tr -> Qbody o (s ++ tr)).
  { intros o s tr Hs. destruct (neutral_prefix_counts s tr Hs) as [Hr Hf].
    destruct o; simpl; rewrite ?Hr, ?Hf; auto. }
  assert (Hthrow : forall m s, Forall neutral s -> Qbody (Throw m) s).
  { intros m s Hs. destruct (count_neutral s Hs) as [Hf Hr]. simpl. congruence. }
  assert (Hstarve : forall s, Forall neutral s -> Qbody Starved s) by (intros; exact I).
  apply (traced_try_catch Qbody
           (fun _ o tr => o = Ok tt /\ recoveries tr = 1%nat /\ failedDispatches tr = 0%nat)).
  - apply traced_after_calm; auto; [apply mute_calm, mute_getCurrentScreenState|].
    intros state.
    apply traced_after_calm; auto; [apply calm_emit; split; reflexivity|]. intros _.
    apply traced_after_calm; auto; [apply mute_calm, mute_sessionContextOrFresh|].
    intros ctx.
    apply traced_after_calm; auto; [apply mute_calm, mute_handleAIInstruction|].
    intros correction.
    apply (traced_bind settled
             (fun _ o tr => o = Ok tt /\ recoveries tr = 1%nat /\ failedDispatches tr = 0%nat));
      [apply settled_for_each, Hexec | | | | ].
    + intros _. apply recovery_end_emit; reflexivity.
    + intros rs tr1 o tr2 H1 (-> & Hr & Hf). simpl.
      destruct (H1 ltac:(discriminate)) as [_ Hb].
      unfold recoveries, failedDispatches in *. rewrite !count_app. lia.
    + intros m tr1 H1. destruct (H1 ltac:(discriminate)) as [[a Ha] _]. discriminate.
    + intros tr1 _. exact I.
  - intros m. apply recovery_end_emit; reflexivity.
  - intros m tr1 o tr2 H1 (-> & Hr & Hf) _. split; [eauto|].
    simpl in H1. unfold recoveries, failedDispatches in *. rewrite !count_app. lia.
  - intros [] tr1 H1 _. split; [eauto | exact H1].
  - intros tr1 _ Hne. congruence.
Qed.

Lemma commandResult_success_neutral (command result : obj) :
  neutral (Emit "command-result"
             (commandResultValue (mkCommandResult command true (Some result) None))).
Proof.
  split; [|reflexivity]. unfold commandResultValue. simpl.
  unfold getv. rewrite lookup_insert_ne by done. rewrite lookup_insert_eq. reflexivity.
Qed.

Lemma commandResult_failure (command : obj) message :
  isFailedDispatch
    (Emit "command-result"
       (commandResultValue (mkCommandResult command false None (Some message)))) = true /\
  isRecoveryOutcome
    (Emit "command-result"
       (commandResultValue (mkCommandResult command false None (Some message)))) = false.
Proof.
  split; [|reflexivity]. unfold commandResultValue. simpl.
  unfold getv. rewrite lookup_insert_ne by done. rewrite lookup_insert_eq. reflexivity.
Qed.

(** Every run of [executeAndHandleSingleCommand] that ends returns, and
    in what it emitted each failed dispatch is matched by the end of one
    recovery. *)
Lemma executeAndHandleSingleCommand_settled fuel :
  forall command, traced settled (executeAndHandleSingleCommand fuel command).
Proof.
  assert (Hpre : forall A (o : outcome A) s tr,
             Forall neutral s -> settled o tr -> settled o (s ++ tr)).
  { intros A o s tr Hs Hset Hne. destruct (Hset Hne) as [Hok Hb]. split; [exact Hok|].
    destruct (neutral_prefix_counts s tr Hs) as [-> ->]. exact Hb. }
  assert (Hbody : forall fuel0 command,
    calm (let* result := executeCommand fuel0 (VObj command) in
          let commandResult :=
            {| cr_command := command; success := true;
               cr_result := Some result; cr_error := None |} in
          emit "command-result" (commandResultValue commandResult);;;
          sleep (VNum 1000);;;
          ret commandResult)).
  { intros fuel0 command.
    apply calm_bind; [apply mute_calm, mute_executeCommand|]. intros result.
    apply calm_bind; [apply calm_emit, commandResult_success_neutral|]. intros _.
    apply calm_bind; [apply mute_calm, mute_sleep|]. intros _. apply calm_ret. }
  assert (Hstep : forall fuel0 command (recover : obj -> string -> M unit),
    (forall c m, traced recovered (recover c m)) ->
    traced settled
      (emit "command-start" (VObj command);;;
       try_catch
         (let* result := executeCommand fuel0 (VObj command) in
          let commandResult :=
            {| cr_command := command; success := true;
               cr_result := Some result; cr_error := None |} in
          emit "command-result" (commandResultValue commandResult);;;
          sleep (VNum 1000);;;
          ret commandResult)
         (fun errorMessage =>
            let commandResult :=
              {| cr_command := command; success := false;
                 cr_result := None; cr_error := Some errorMessage |} in
            emit "command-result" (commandResultValue commandResult);;;
            recover command errorMessage;;;
            ret commandResult))).
  { intros fuel0 command recover Hrecover.
    apply traced_after_steady; [apply steady_emit; split; reflexivity | | apply Hpre].
    intros _.
    apply (traced_try_catch (fun _ tr => Forall neutral tr) (fun _ => settled));
      [apply Hbody | | | | ].
    - intros m.
      apply (traced_bind
               (fun o tr => o = Ok tt /\ recoveries tr = 0%nat /\ failedDispatches tr = 1%nat)
               (fun _ => recovered)).
      + apply traced_record. destruct (commandResult_failure command m) as [Hf Hr].
        unfold recoveries, failedDispatches. rewrite !count_singleton, Hr, Hf. auto.
      + intros _.
        apply (traced_bind recovered (fun _ o tr => tr = [] /\ exists a, o = Ok a));
          [apply Hrecover | | | | ].
        * intros _. apply traced_ret. eauto.
        * intros a tr1 o tr2 H1 [-> [x ->]] _. rewrite app_nil_r.
          split; [eauto|]. apply H1. discriminate.
        * intros m' tr1 H1 _. destruct (H1 ltac:(discriminate)) as [[a Ha] _].
          discriminate.
        * intros tr1 _ Hne. congruence.
      + intros a tr1 o tr2 (_ & Hr & Hf) H2 Hne. destruct (H2 Hne) as [Hok Hb].
        split; [exact Hok|]. unfold recoveries, failedDispatches in *.
        rewrite !count_app. lia.
      + intros m' tr1 (Hm & _). discriminate.
      + intros tr1 (Hm & _). discriminate.
    - intros m tr1 o tr2 Hs H2. apply Hpre; assumption.
    - intros a tr1 Hs _. split; [eauto|]. destruct (count_neutral _ Hs). congruence.
    - intros tr1 _ Hne. congruence. }
  induction fuel as [|fuel IH]; intros command.
  - apply (Hstep 0%nat command (fun _ _ => starve)).
    intros c m. apply traced_starve. intros Hne. congruence.
  - apply (Hstep (S fuel) command
             (handleErrorCorrectionWith (executeAndHandleSingleCommand fuel))).
    intros c m. apply handleErrorCorrectionWith_recovered, IH.
Qed.


(** ** The error-correction sub-flow *)

Definition failedResult (command : obj) (message : string) : CommandResult :=
  {| cr_command := command; success := false; cr_result := None;
     cr_error := Some message |}.

(** The request the sub-flow sends for a failed [command]. *)
Definition correctionMessages (command : obj) (message : string) (state : ScreenState)
    (sessionContext : SessionContext) : list OpenAIMessage :=
  buildMessages
    (buildErrorCorrectionPrompt {| err_command := command; err_message := message |}
       (Some (uiElements state)) sessionContext)
    (Some (screenshot state)).

(** The context object the sub-flow works on: the socket's, or an empty
    one when the socket has none. *)
Definition contextInUse (w : World) : SessionContext :=
  match socket_sessionContext w with
  | Some l => default emptyContext (store w !! l)
  | None => emptyContext
  end.

Lemma dispatch_failure_starts_one_recovery fuel command w message w1 :
  executeCommand (S fuel) (VObj command)
    (snd (emit "command-start" (VObj command) w)) = (Throw message, w1) ->
  executeAndHandleSingleCommand (S fuel) command w
  = (handleErrorCorrection fuel command message;;; ret (failedResult command message))
      (snd (emit "command-result"
                 (commandResultValue (failedResult command message)) w1)).
Proof.
  intros Hfail.
  change (executeAndHandleSingleCommand (S fuel) command w)
    with ((emit "command-start" (VObj command);;;
           try_catch
             (let* result := executeCommand (S fuel) (VObj command) in
              let commandResult :=
                {| cr_command := command; success := true;
                   cr_result := Some result; cr_error := None |} in
              emit "command-result" (commandResultValue commandResult);;;
              sleep (VNum 1000);;;
              ret commandResult)
             (fun errorMessage =>
                emit "command-result"
                  (commandResultValue (failedResult command errorMessage));;;
                handleErrorCorrection fuel command errorMessage;;;
                ret (failedResult command errorMessage))) w).
  unfold bind at 1. cbn [emit record fst snd] in *.
  unfold try_catch. rewrite (bind_Throw _ _ _ _ _ Hfail).
  reflexivity.
Qed.

Lemma correction_capture_failure fuel command message w failure :
  screen_at (captures w) = inl failure ->
  exists w',
    handleErrorCorrection fuel command message w = (Ok tt, w') /\
    trace w' = trace w ++ [ Capture (Some failure);
                            Emit "error" (errorNotice ("纠错过程出错: " +:+ failure)) ].
Proof.
  intros Hscreen. eexists. split.
  - unfold handleErrorCorrection, handleErrorCorrectionWith, try_catch.
    unfold bind at 1. unfold getCurrentScreenState. rewrite Hscreen. reflexivity.
  - simpl. rewrite <- app_assoc. reflexivity.
Qed.


Lemma lookup_fresh {A} (l : list A) x : (l ++ [x]) !! length l = Some x.
Proof. apply list_lookup_middle. reflexivity. Qed.

Lemma insert_fresh {A} (l : list A) x y : <[length l := y]> (l ++ [x]) = l ++ [y].
Proof. rewrite insert_app_r_alt by lia. rewrite Nat.sub_diag. reflexivity. Qed.

Lemma sessionContextOrFresh_load w :
  exists l w1,
    sessionContextOrFresh w = (Ok l, w1) /\
    trace w1 = trace w /\ captures w1 = captures w /\ posts w1 = posts w /\
    adbs w1 = adbs w /\ clock w1 = clock w /\
    socket_sessionContext w1 = socket_sessionContext w /\
    default emptyContext (store w1 !! l) = contextInUse w.
Proof.
  unfold sessionContextOrFresh, bind, get_socket_sessionContext, contextInUse.
  destruct (socket_sessionContext w) as [l|] eqn:Hsock.
  - exists l, w. repeat split; try reflexivity; assumption.
  - eexists _, _. split; [reflexivity|]. simpl. rewrite lookup_fresh.
    repeat split; try reflexivity; assumption.
Qed.

(** The request [handleAIInstruction] sends from world [w]. *)
Definition requestOf (options : HandleInstructionOptions) (w : World)
  : list OpenAIMessage :=
  buildMessages
    (choosePrompt options (default emptyContext (store w !! o_sessionContext options)))
    (o_screenshot options).

Lemma handleAIInstruction_failure options w failure :
  configured = true ->
  model_at (posts w) (requestOf options w) = inl failure ->
  exists w',
    handleAIInstruction options w = (Throw failure, w') /\
    trace w' = trace w ++ [Post (requestOf options w) (Some failure)] /\
    adbs w' = adbs w.
Proof.
  intros Hconf Hmodel. unfold handleAIInstruction. cbv zeta.
  unfold bind at 1. unfold load at 1.
  unfold bind at 1. unfold callLLMAPI. rewrite Hconf. cbn [negb].
  fold (requestOf options w). rewrite Hmodel.
  eexists. split; [reflexivity|]. split; reflexivity.
Qed.

Lemma handleAIInstruction_success options w data t :
  configured = true ->
  model_at (posts w) (requestOf options w) = inr data ->
  thinking (parseModelResponse data) = VStr t ->
  exists w',
    handleAIInstruction options w = (Ok (parseModelResponse data), w') /\
    trace w' = trace w ++ [Post (requestOf options w) None] /\
    adbs w' = adbs w /\
    socket_sessionContext w' = socket_sessionContext w.
Proof.
  intros Hconf Hmodel Hthinking. unfold handleAIInstruction. cbv zeta.
  unfold bind at 1. unfold load at 1.
  unfold bind at 1. unfold callLLMAPI. rewrite Hconf. cbn [negb].
  fold (requestOf options w). rewrite Hmodel.
  unfold bind at 1. unfold updateSessionContextAt, updateSessionContext, simplifyResponse.
  cbn [parsedResponse]. rewrite Hthinking.
  eexists. split; [reflexivity|]. repeat split; reflexivity.
Qed.

Definition correctionOptions (command : obj) (message : string) (state : ScreenState)
    (l : nat) : HandleInstructionOptions :=
  {| o_instruction := None;
     o_screenshot := Some (screenshot state);
     o_uiElements := Some (uiElements state);
     o_sessionContext := l;
     o_isErrorCorrection := true;
     o_error := Some {| err_command := command; err_message := message |};
     o_isContinuation := false;
     o_previousCommand := None |}.

Lemma correction_request command message state l w1 w :
  default emptyContext (store w1 !! l) = contextInUse w ->
  requestOf (correctionOptions command message state l) w1
  = correctionMessages command message state (contextInUse w).
Proof. intros Hload. unfold requestOf, correctionMessages. simpl. rewrite Hload. reflexivity. Qed.

Lemma try_catch_congr {A} (c c' : M A) h w w1 :
  c w = c' w1 -> try_catch c h w = try_catch c' h w1.
Proof. unfold try_catch. intros ->. reflexivity. Qed.

Lemma getCurrentScreenState_ok w state :
  screen_at (captures w) = inr state ->
  getCurrentScreenState w
  = (Ok state, mkWorld (trace w ++ [Capture None]) (store w) (socket_sessionContext w)
                       (S (captures w)) (posts w) (adbs w) (clock w)).
Proof. intros Hscreen. unfold getCurrentScreenState. rewrite Hscreen. reflexivity. Qed.

(** The sub-flow up to its request to the model. *)
Lemma handleErrorCorrectionWith_start exec command message w state :
  screen_at (captures w) = inr state ->
  exists l w1,
    handleErrorCorrectionWith exec command message w
    = try_catch
        (let* correction := handleAIInstruction (correctionOptions command message state l) in
         for_each exec (commands correction);;;
         emit "error-correction-end" (responseValue correction))
        (fun errorMessage =>
           emit "error" (errorNotice ("纠错过程出错: " +:+ errorMessage))) w1 /\
    trace w1 = trace w ++ [Capture None; Emit "error-correction-start" VUndef] /\
    posts w1 = posts w /\ adbs w1 = adbs w /\
    requestOf (correctionOptions command message state l) w1
    = correctionMessages command message state (contextInUse w).
Proof.
  intros Hscreen.
  set (w0 := mkWorld ((trace w ++ [Capture None]) ++ [Emit "error-correction-start" VUndef])
               (store w) (socket_sessionContext w) (S (captures w)) (posts w) (adbs w)
               (clock w)).
  destruct (sessionContextOrFresh_load w0)
    as (l & w1 & Hctx & Htr & Hcap & Hpost & Hadb & _ & _ & Hload).
  exists l, w1. split; [|split; [|split; [exact Hpost | split; [exact Hadb|]]]].
  - unfold handleErrorCorrectionWith. apply try_catch_congr.
    rewrite (bind_Ok _ _ _ _ _ (getCurrentScreenState_ok w state Hscreen)).
    unfold bind at 1. cbn [emit record]. fold w0.
    rewrite (bind_Ok _ _ _ _ _ Hctx). reflexivity.
  - rewrite Htr. subst w0. simpl. rewrite <- app_assoc. reflexivity.
  - apply correction_request. exact Hload.
Qed.

Lemma correction_model_failure fuel command message w state failure :
  screen_at (captures w) = inr state ->
  configured = true ->
  model_at (posts w) (correctionMessages command message state (contextInUse w))
    = inl failure ->
  exists w',
    handleErrorCorrection fuel command message w = (Ok tt, w') /\
    trace w' = trace w ++ [ Capture None;
                            Emit "error-correction-start" VUndef;
                            Post (correctionMessages command message state (contextInUse w))
                                 (Some failure);
                            Emit "error" (errorNotice ("纠错过程出错: " +:+ failure)) ].
Proof.
  intros Hscreen Hconf Hmodel. unfold handleErrorCorrection.
  destruct (handleErrorCorrectionWith_start
              (executeAndHandleSingleCommand fuel) command message w state Hscreen)
    as (l & w1 & -> & Htr & Hpost & _ & Hreq).
  rewrite <- Hreq, <- Hpost in Hmodel.
  destruct (handleAIInstruction_failure _ _ _ Hconf Hmodel) as (w2 & Hrun & Htr2 & _).
  unfold try_catch. rewrite (bind_Throw _ _ _ _ _ Hrun).
  eexists. split; [reflexivity|]. simpl. rewrite Htr2, Htr, Hreq.
  rewrite <- !app_assoc. reflexivity.
Qed.

Lemma correction_without_commands fuel command message w state data t :
  screen_at (captures w) = inr state ->
  configured = true ->
  model_at (posts w) (correctionMessages command message state (contextInUse w))
    = inr data ->
  thinking (parseModelResponse data) = VStr t ->
  commands (parseModelResponse data) = [] ->
  exists w',
    handleErrorCorrection fuel command message w = (Ok tt, w') /\
    trace w' = trace w ++ [ Capture None;
                            Emit "error-correction-start" VUndef;
                            Post (correctionMessages command message state (contextInUse w))
                                 None;
                            Emit "error-correction-end"
                                 (responseValue (parseModelResponse data)) ] /\
    adbs w' = adbs w.
Proof.
  intros Hscreen Hconf Hmodel Hthinking Hcommands. unfold handleErrorCorrection.
  destruct (handleErrorCorrectionWith_start
              (executeAndHandleSingleCommand fuel) command message w state Hscreen)
    as (l & w1 & -> & Htr & Hpost & Hadb & Hreq).
  rewrite <- Hreq, <- Hpost in Hmodel.
  destruct (handleAIInstruction_success _ _ _ _ Hconf Hmodel Hthinking)
    as (w2 & Hrun & Htr2 & Hadb2 & _).
  unfold try_catch. rewrite (bind_Ok _ _ _ _ _ Hrun), Hcommands.
  eexists. split; [reflexivity|]. simpl. rewrite Htr2, Htr, Hreq, Hadb2, Hadb.
  rewrite <- !app_assoc. split; reflexivity.
Qed.

(** ** Every computation only appends to the trace *)

Definition grows {A} (c : M A) : Prop := traced (fun _ _ => True) c.

Lemma traced_grows {A} (Q : outcome A -> list Event -> Prop) c : traced Q c -> grows c.
Proof. intros Hc. apply (traced_weaken _ _ _ Hc). auto. Qed.

Lemma grows_bind {A B} (c : M A) (k : A -> M B) :
  grows c -> (forall a, grows (k a)) -> grows (bind c k).
Proof.
  intros Hc Hk.
  apply (traced_bind (fun _ _ => True) (fun _ _ _ => True)); auto.
Qed.

Lemma grows_try_catch {A} (c : M A) (h : string -> M A) :
  grows c -> (forall m, grows (h m)) -> grows (try_catch c h).
Proof.
  intros Hc Hh.
  apply (traced_try_catch (fun _ _ => True) (fun _ _ _ => True)); auto.
Qed.

Lemma grows_ret {A} (a : A) : grows (ret a).
Proof. apply traced_ret. exact I. Qed.

Lemma grows_emit name payload : grows (emit name payload).
Proof. apply traced_record. exact I. Qed.

Lemma grows_for_each {A B} (f : A -> M B) xs :
  (forall x, grows (f x)) -> grows (for_each f xs).
Proof.
  intros Hf. induction xs as [|x xs IH]; simpl.
  - apply grows_ret.
  - apply grows_bind; [apply Hf|]. intros r.
    apply grows_bind; [apply IH|]. intros rs. apply grows_ret.
Qed.

Lemma grows_executeAndHandleSingleCommand fuel command :
  grows (executeAndHandleSingleCommand fuel command).
Proof. exact (traced_grows _ _ (executeAndHandleSingleCommand_settled fuel command)). Qed.

Lemma grows_continueTaskExecutionWith exec instruction previousCommand :
  (forall cmds i, grows (exec cmds i)) ->
  grows (continueTaskExecutionWith exec instruction previousCommand).
Proof.
  intros Hexec. unfold continueTaskExecutionWith.
  apply grows_bind; [exact (traced_grows _ _ mute_getCurrentScreenState)|]. intros state.
  apply grows_bind; [exact (traced_grows _ _ mute_sessionContextOrFresh)|]. intros l.
  apply grows_bind; [exact (traced_grows _ _ (mute_handleAIInstruction _))|].
  intros response.
  apply grows_bind.
  - destruct (truthy (result response)); [apply grows_emit | apply grows_ret].
  - intros _. destruct (commands response); [apply grows_ret|].
    apply grows_bind; [apply grows_emit | intros _; apply Hexec].
Qed.

Lemma grows_executeCommandSequence fuel :
  forall cmds instruction, grows (executeCommandSequence fuel cmds instruction).
Proof.
  assert (Hloop : forall fuel0 (continue : obj -> M unit),
    (forall c, grows (continue c)) ->
    forall cmds,
      grows ((fix loop (commands : list obj) : M unit :=
                match commands with
                | [] => ret tt
                | command :: rest =>
                    let* result := executeAndHandleSingleCommand fuel0 command in
                    (if success result && negb (truthy (getv command "isTaskComplete"))
                     then continue command
                     else ret tt);;;
                    if negb (success result) || truthy (getv command "isTaskComplete")
                    then ret tt
                    else loop rest
                end) cmds)).
  { intros fuel0 continue Hcont cmds.
    induction cmds as [|command rest IH]; [apply grows_ret|].
    apply grows_bind; [apply grows_executeAndHandleSingleCommand|]. intros result.
    apply grows_bind.
    - destruct (success result && negb (truthy (getv command "isTaskComplete")));
        [apply Hcont | apply grows_ret].
    - intros _.
      destruct (negb (success result) || truthy (getv command "isTaskComplete"));
        [apply grows_ret | exact IH]. }
  induction fuel as [|fuel IH]; intros cmds instruction.
  - apply (Hloop 0%nat (fun _ => starve)).
    intros c. apply traced_starve. exact I.
  - apply (Hloop (S fuel)
             (fun c => continueTaskExecutionWith (executeCommandSequence fuel) instruction c)).
    intros c. apply grows_continueTaskExecutionWith, IH.
Qed.

(** What follows a step whose events are known. *)
Lemma trace_bind_after {A B} (c : M A) (k : A -> M B) w o w1 tr1 :
  c w = (o, w1) -> trace w1 = trace w ++ tr1 ->
  (forall a, grows (k a)) ->
  exists tr, trace (snd (bind c k w)) = trace w ++ tr1 ++ tr.
Proof.
  intros Hrun Htr Hk. unfold bind. rewrite Hrun. destruct o as [a|m|].
  - destruct (Hk a w1) as (tr & Htr' & _). exists tr. rewrite Htr', Htr, app_assoc.
    reflexivity.
  - exists []. simpl. rewrite app_nil_r. exact Htr.
  - exists []. simpl. rewrite app_nil_r. exact Htr.
Qed.

Lemma trace_try_catch_after {A} (c : M A) (h : string -> M A) w tr1 :
  (exists tr, trace (snd (c w)) = trace w ++ tr1 ++ tr) ->
  (forall m, grows (h m)) ->
  exists tr, trace (snd (try_catch c h w)) = trace w ++ tr1 ++ tr.
Proof.
  intros [tr Htr] Hh. unfold try_catch. destruct (c w) as [[a|m|] w1]; simpl in *; eauto.
  destruct (Hh m w1) as (tr' & Htr' & _). exists (tr ++ tr').
  rewrite Htr', Htr, <- !app_assoc. reflexivity.
Qed.

(** The failure a reply stands for, if any. *)
Definition failureOf {A} (reply : string + A) : option string :=
  match reply with inl m => Some m | inr _ => None end.

(** When the endpoint is configured, [handleAIInstruction] adds exactly
    one event: its request, with what came of it. *)
Lemma handleAIInstruction_trace options w :
  configured = true ->
  trace (snd (handleAIInstruction options w))
  = trace w ++ [Post (requestOf options w)
                     (failureOf (model_at (posts w) (requestOf options w)))].
Proof.
  intros Hconf. unfold handleAIInstruction. cbv zeta.
  unfold bind at 1. unfold load at 1.
  unfold bind at 1. unfold callLLMAPI. rewrite Hconf. cbn [negb].
  fold (requestOf options w).
  destruct (model_at (posts w) (requestOf options w)) as [m|data]; [reflexivity|].
  unfold bind at 1. unfold updateSessionContextAt.
  destruct (updateSessionContext _ _ _) as [[[]| |] updated]; reflexivity.
Qed.

(** The sub-flow always starts by capturing the screen and asking the
    model about the failing command and its error message. *)
Lemma correction_request_carries_failure fuel command message w state :
  screen_at (captures w) = inr state ->
  configured = true ->
  exists tr,
    trace (snd (handleErrorCorrection fuel command message w))
    = trace w ++
      [ Capture None;
        Emit "error-correction-start" VUndef;
        Post (correctionMessages command message state (contextInUse w))
             (failureOf (model_at (posts w)
                           (correctionMessages command message state (contextInUse w)))) ]
      ++ tr.
Proof.
  intros Hscreen Hconf. unfold handleErrorCorrection.
  destruct (handleErrorCorrectionWith_start
              (executeAndHandleSingleCommand fuel) command message w state Hscreen)
    as (l & w1 & -> & Htr & Hpost & _ & Hreq).
  pose proof (handleAIInstruction_trace (correctionOptions command message state l) w1 Hconf)
    as Hpostev.
  rewrite Hreq, Hpost in Hpostev.
  destruct (trace_try_catch_after
              (let* correction := handleAIInstruction (correctionOptions command message state l) in
               for_each (executeAndHandleSingleCommand fuel) (commands correction);;;
               emit "error-correction-end" (responseValue correction))
              (fun errorMessage =>
                 emit "error" (errorNotice ("纠错过程出错: " +:+ errorMessage)))
              w1
              [Post (correctionMessages command message state (contextInUse w))
                    (failureOf (model_at (posts w)
                       (correctionMessages command message state (contextInUse w))))])
    as [tr Htr'].
  - destruct (handleAIInstruction (correctionOptions command message state l) w1)
      as [o w2] eqn:Hrun.
    apply (trace_bind_after _ _ _ _ _ _ Hrun Hpostev).
    intros correction. apply grows_bind.
    + apply grows_for_each. intros x. apply grows_executeAndHandleSingleCommand.
    + intros _. apply grows_emit.
  - intros m. apply grows_emit.
  - exists tr. rewrite Htr', Htr, <- !app_assoc. reflexivity.
Qed.

(** ** Continuation rounds *)

Definition continuationOptions (instruction : string) (previousCommand : obj)
    (state : ScreenState) (l : nat) : HandleInstructionOptions :=
  {| o_instruction := Some instruction;
     o_screenshot := Some (screenshot state);
     o_uiElements := Some (uiElements state);
     o_sessionContext := l;
     o_isErrorCorrection := false;
     o_error := None;
     o_isContinuation := true;
     o_previousCommand := Some previousCommand |}.

(** The request of a continuation round after [previousCommand]. *)
Definition continuationMessages (instruction : string) (previousCommand : obj)
    (state : ScreenState) (sessionContext : SessionContext) : list OpenAIMessage :=
  buildMessages
    (buildContinuationPrompt instruction previousCommand (Some (uiElements state))
       sessionContext)
    (Some (screenshot state)).

Lemma continuation_round_captures_and_asks fuel instruction previousCommand w state :
  screen_at (captures w) = inr state ->
  configured = true ->
  exists tr,
    trace (snd (continueTaskExecution fuel instruction previousCommand w))
    = trace w ++
      [ Capture None;
        Post (continuationMessages instruction previousCommand state (contextInUse w))
             (failureOf (model_at (posts w)
                (continuationMessages instruction previousCommand state (contextInUse w)))) ]
      ++ tr.
Proof.
  intros Hscreen Hconf. unfold continueTaskExecution, continueTaskExecutionWith.
  rewrite (bind_Ok _ _ _ _ _ (getCurrentScreenState_ok w state Hscreen)).
  set (w0 := mkWorld _ _ _ _ _ _ _).
  destruct (sessionContextOrFresh_load w0)
    as (l & w1 & Hctx & Htr & Hcap & Hpost & Hadb & _ & _ & Hload).
  rewrite (bind_Ok _ _ _ _ _ Hctx).
  fold (continuationOptions instruction previousCommand state l).
  pose proof (handleAIInstruction_trace
                (continuationOptions instruction previousCommand state l) w1 Hconf) as Hev.
  assert (Hreq : requestOf (continuationOptions instruction previousCommand state l) w1
                 = continuationMessages instruction previousCommand state (contextInUse w)).
  { unfold requestOf, continuationMessages. simpl. rewrite Hload. reflexivity. }
  rewrite Hreq, Hpost in Hev. change (posts w0) with (posts w) in Hev.
  destruct (handleAIInstruction (continuationOptions instruction previousCommand state l) w1)
    as [o w2] eqn:Hrun.
  destruct (trace_bind_after _
              (fun continuationResponse : AIResponse =>
                 (if truthy (result continuationResponse)
                  then emit "task-result"
                         (VObj {[ "instruction" := VStr instruction;
                                  "result" := result continuationResponse ]})
                  else ret tt);;;
                 match commands continuationResponse with
                 | [] => ret tt
                 | cmds =>
                     emit "instruction-response" (responseValue continuationResponse);;;
                     executeCommandSequence fuel cmds instruction
                 end) _ _ _ _ Hrun Hev) as [tr Htr'].
  - intros response. apply grows_bind.
    + destruct (truthy (result response)); [apply grows_emit | apply grows_ret].
    + intros _. destruct (commands response); [apply grows_ret|].
      apply grows_bind; [apply grows_emit | intros _; apply grows_executeCommandSequence].
  - exists tr. rewrite Htr', Htr. subst w0. simpl. rewrite <- !app_assoc. reflexivity.
Qed.

(** C2, as the code has it. In a batch of two commands neither of which
    is marked complete, the first command runs; if it succeeded a
    continuation round follows at once, whether or not the command is marked
    final; then the second command runs and, if it succeeded, a second
    continuation round follows. A continuation round is a new capture and a
    request to the model that names the command just executed. *)
Theorem continuation_round_after_each_unfinished_command :
  (forall fuel c1 c2 instruction w,
     truthy (getv c1 "isTaskComplete") = false ->
     truthy (getv c2 "isTaskComplete") = false ->
     executeCommandSequence (S fuel) [c1; c2] instruction w
     = (let* r1 := executeAndHandleSingleCommand (S fuel) c1 in
        if success r1 then
          continueTaskExecution fuel instruction c1;;;
          let* r2 := executeAndHandleSingleCommand (S fuel) c2 in
          if success r2 then continueTaskExecution fuel instruction c2;;; ret tt
          else ret tt
        else ret tt) w) /\
  (forall fuel instruction previousCommand w state,
     screen_at (captures w) = inr state ->
     configured = true ->
     exists tr,
       trace (snd (continueTaskExecution fuel instruction previousCommand w))
       = trace w ++
         [ Capture None;
           Post (continuationMessages instruction previousCommand state (contextInUse w))
                (failureOf (model_at (posts w)
                   (continuationMessages instruction previousCommand state
                      (contextInUse w)))) ]
         ++ tr).
Proof.
  split; [|apply continuation_round_captures_and_asks].
  intros fuel c1 c2 instruction w Hc1 Hc2.
  rewrite executeCommandSequence_cons, Hc1.
  destruct (executeAndHandleSingleCommand (S fuel) c1 w) as [[r1| |] w1] eqn:E1.
  - rewrite !(bind_Ok _ _ _ _ _ E1). destruct (success r1); [|reflexivity].
    cbn [andb negb].
    destruct (continueTaskExecution fuel instruction c1 w1) as [[[]| |] w2] eqn:E2.
    + rewrite !(bind_Ok _ _ _ _ _ E2). rewrite executeCommandSequence_cons, Hc2.
      destruct (executeAndHandleSingleCommand (S fuel) c2 w2) as [[r2| |] w3] eqn:E3.
      * rewrite !(bind_Ok _ _ _ _ _ E3). destruct (success r2); reflexivity.
      * rewrite !(bind_Throw _ _ _ _ _ E3). reflexivity.
      * rewrite !(bind_Starved _ _ _ _ E3). reflexivity.
    + rewrite !(bind_Throw _ _ _ _ _ E2). reflexivity.
    + rewrite !(bind_Starved _ _ _ _ E2). reflexivity.
  - rewrite !(bind_Throw _ _ _ _ _ E1). reflexivity.
  - rewrite !(bind_Starved _ _ _ _ E1). reflexivity.
Qed.

(** C7. A dispatch that throws starts the error-correction sub-flow once,
    with the failing command and the error message, which the request to
    the model carries. The sub-flow is one attempt: when its capture or its
    request fails it reports the failure and returns, and nothing is tried
    again. When the model returns no corrective command the sub-flow ends
    without any device command. In every run that ends, the client sees as
    many recovery outcomes as failed dispatches. *)
Theorem failed_dispatch_recovered_once :
  (forall fuel command w message w1,
     executeCommand (S fuel) (VObj command)
       (snd (emit "command-start" (VObj command) w)) = (Throw message, w1) ->
     executeAndHandleSingleCommand (S fuel) command w
     = (handleErrorCorrection fuel command message;;;
        ret (failedResult command message))
         (snd (emit "command-result"
                    (commandResultValue (failedResult command message)) w1))) /\
  (forall fuel command message w state,
     screen_at (captures w) = inr state ->
     configured = true ->
     exists tr,
       trace (snd (handleErrorCorrection fuel command message w))
       = trace w ++
         [ Capture None;
           Emit "error-correction-start" VUndef;
           Post (correctionMessages command message state (contextInUse w))
                (failureOf (model_at (posts w)
                   (correctionMessages command message state (contextInUse w)))) ]
         ++ tr) /\
  (forall fuel command message w failure,
     screen_at (captures w) = inl failure ->
     exists w',
       handleErrorCorrection fuel command message w = (Ok tt, w') /\
       trace w' = trace w ++
         [ Capture (Some failure);
           Emit "error" (errorNotice ("纠错过程出错: " +:+ failure)) ]) /\
  (forall fuel command message w state failure,
     screen_at (captures w) = inr state ->
     configured = true ->
     model_at (posts w) (correctionMessages command message state (contextInUse w))
       = inl failure ->
     exists w',
       handleErrorCorrection fuel command message w = (Ok tt, w') /\
       trace w' = trace w ++
         [ Capture None;
           Emit "error-correction-start" VUndef;
           Post (correctionMessages command message state (contextInUse w))
                (Some failure);
           Emit "error" (errorNotice ("纠错过程出错: " +:+ failure)) ]) /\
  (forall fuel command message w state data t,
     screen_at (captures w) = inr state ->
     configured = true ->
     model_at (posts w) (correctionMessages command message state (contextInUse w))
       = inr data ->
     thinking (parseModelResponse data) = VStr t ->
     commands (parseModelResponse data) = [] ->
     exists w',
       handleErrorCorrection fuel command message w = (Ok tt, w') /\
       trace w' = trace w ++
         [ Capture None;
           Emit "error-correction-start" VUndef;
           Post (correctionMessages command message state (contextInUse w)) None;
           Emit "error-correction-end" (responseValue (parseModelResponse data)) ] /\
       adbs w' = adbs w) /\
  (forall fuel command w,
     fst (executeAndHandleSingleCommand fuel command w) <> Starved ->
     exists result tr,
       fst (executeAndHandleSingleCommand fuel command w) = Ok result /\
       trace (snd (executeAndHandleSingleCommand fuel command w)) = trace w ++ tr /\
       recoveries tr = failedDispatches tr).
Proof.
  split; [|split; [|split; [|split; [|split]]]].
  - apply dispatch_failure_starts_one_recovery.
  - apply correction_request_carries_failure.
  - intros fuel command message w failure. apply correction_capture_failure.
  - apply correction_model_failure.
  - apply correction_without_commands.
  - intros fuel command w Hne.
    destruct (executeAndHandleSingleCommand_settled fuel command w) as (tr & Htr & Hset).
    destruct (Hset Hne) as [[result Hok] Hbal]. eauto.
Qed.


(** ** The first instruction of a socket *)

(** The item [handleAIInstruction] appends for an instruction. *)
Definition itemFor (instruction : string) (state : ScreenState)
    (condensed : SimpleAIResponse) : SessionHistoryItem SimpleAIResponse :=
  {| instruction := if String.eqb instruction "" then "自动纠错" else instruction;
     item_screenshot := Some (shot_timestamp (screenshot state));
     item_uiElements := Some (ui_timestamp (uiElements state));
     parsedResponse := condensed |}.

Lemma historyPrompt_empty ctx : history ctx = Some [] -> historyPrompt ctx = "".
Proof. unfold historyPrompt. intros ->. reflexivity. Qed.

(** The item [handleAIInstruction] hands to [updateSessionContext]. *)
Definition newItemOf (options : HandleInstructionOptions) (response : AIResponse)
  : SessionHistoryItem AIResponse :=
  {| instruction :=
       if String.eqb (default "" (o_instruction options)) "" then "自动纠错"
       else default "" (o_instruction options);
     item_screenshot := shot_timestamp <$> o_screenshot options;
     item_uiElements := ui_timestamp <$> o_uiElements options;
     parsedResponse := response |}.

Lemma handleAIInstruction_Ok options w response w' :
  handleAIInstruction options w = (Ok response, w') ->
  exists data updated,
    model_at (posts w) (requestOf options w) = inr data /\
    response = parseModelResponse data /\
    updateSessionContext (newItemOf options response) (now_at (clock w))
      (default emptyContext (store w !! o_sessionContext options)) = (Ok tt, updated) /\
    w' = mkWorld (trace w ++ [Post (requestOf options w) None])
                 (<[o_sessionContext options := updated]> (store w))
                 (socket_sessionContext w) (captures w) (S (posts w)) (adbs w)
                 (S (clock w)).
Proof.
  unfold handleAIInstruction. cbv zeta.
  unfold bind at 1. unfold load at 1.
  unfold bind at 1. unfold callLLMAPI.
  destruct configured; cbn [negb]; [|discriminate].
  fold (requestOf options w).
  destruct (model_at (posts w) (requestOf options w)) as [m|data]; [discriminate|].
  unfold bind at 1. unfold updateSessionContextAt.
  cbn [store clock trace socket_sessionContext captures posts adbs].
  fold (newItemOf options (parseModelResponse data)).
  destruct (updateSessionContext _ _ _) as [[[]| |] updated] eqn:Hupd; try discriminate.
  unfold ret. intros Heq. injection Heq as <- <-.
  exists data, updated. repeat split; try reflexivity. exact Hupd.
Qed.

Definition instructionOptions (instruction : string) (state : ScreenState) (l : nat)
  : HandleInstructionOptions :=
  {| o_instruction := Some instruction;
     o_screenshot := Some (screenshot state);
     o_uiElements := Some (uiElements state);
     o_sessionContext := l;
     o_isErrorCorrection := false;
     o_error := None;
     o_isContinuation := false;
     o_previousCommand := None |}.

(** The request for an instruction, over the history the prompt sees. *)
Definition instructionMessages (instruction : string) (state : ScreenState)
    (sessionContext : SessionContext) : list OpenAIMessage :=
  buildMessages
    (buildInstructionPrompt instruction (Some (uiElements state)) sessionContext)
    (Some (screenshot state)).

Lemma instruction_request instruction state l w ctx :
  default emptyContext (store w !! l) = ctx ->
  requestOf (instructionOptions instruction state l) w
  = instructionMessages instruction state ctx.
Proof. intros <-. reflexivity. Qed.

Lemma receiveInstruction_first instruction w response w' :
  socket_sessionContext w = None ->
  receiveInstruction instruction w = (Ok response, w') ->
  exists state condensed temporary rebuilt,
    screen_at (captures w) = inr state /\
    simplifyResponse response = Some condensed /\
    store w' = store w ++ [temporary; rebuilt] /\
    history temporary = Some [itemFor instruction state condensed] /\
    history rebuilt = Some [] /\
    socket_sessionContext w' = Some (S (length (store w))) /\
    trace w' = trace w ++
      [ Capture None; Emit "handle-instruction-start" VUndef;
        Post (instructionMessages instruction state emptyContext) None ].
Proof.
  intros Hsock Hrun. unfold receiveInstruction in Hrun.
  unfold bind at 1 in Hrun. unfold getCurrentScreenState at 1 in Hrun.
  destruct (screen_at (captures w)) as [m|state] eqn:Hscreen; [discriminate|].
  unfold bind at 1 in Hrun.
  cbn [emit record trace store socket_sessionContext captures posts adbs clock] in Hrun.
  rewrite Hsock in Hrun.
  set (w0 := mkWorld _ _ _ _ _ _ _) in Hrun.
  assert (Hfresh : sessionContextOrFresh w0
                   = (Ok (length (store w)),
                      mkWorld (trace w0) (store w ++ [emptyContext]) None
                              (captures w0) (posts w0) (adbs w0) (clock w0))).
  { reflexivity. }
  rewrite (bind_Ok _ _ _ _ _ Hfresh) in Hrun.
  set (w1 := mkWorld (trace w0) _ _ _ _ _ _) in Hrun.
  fold (instructionOptions instruction state (length (store w))) in Hrun.
  destruct (handleAIInstruction (instructionOptions instruction state (length (store w))) w1)
    as [[r| |] w2] eqn:Hai;
    [ rewrite (bind_Ok _ _ _ _ _ Hai) in Hrun
    | rewrite (bind_Throw _ _ _ _ _ Hai) in Hrun; discriminate
    | rewrite (bind_Starved _ _ _ _ Hai) in Hrun; discriminate ].
  destruct (handleAIInstruction_Ok _ _ _ _ Hai) as (data & updated & Hmodel & -> & Hupd & ->).
  assert (Hload : default emptyContext (store w1 !! length (store w)) = emptyContext).
  { subst w1. cbn [store]. rewrite lookup_fresh. reflexivity. }
  cbn [o_sessionContext instructionOptions] in Hupd. rewrite Hload in Hupd.
  unfold updateSessionContext in Hupd. cbn [parsedResponse newItemOf] in Hupd.
  destruct (simplifyResponse (parseModelResponse data)) as [condensed|] eqn:Hsimple;
    [|discriminate].
  injection Hupd as <-.
  unfold bind, get_socket_sessionContext, ret, now, alloc, set_socket_sessionContext in Hrun.
  cbn [socket_sessionContext store trace captures posts adbs clock
       o_sessionContext instructionOptions] in Hrun.
  subst w1. cbn [socket_sessionContext store trace captures posts adbs clock] in Hrun.
  injection Hrun as <- <-.
  exists state, condensed. eexists _, _.
  split; [reflexivity|]. split; [exact Hsimple|].
  cbn [store socket_sessionContext trace].
  split.
  { rewrite insert_fresh, <- app_assoc. reflexivity. }
  split; [reflexivity|]. split; [reflexivity|]. split.
  { rewrite length_insert, length_app. simpl. f_equal. lia. }
  rewrite (instruction_request _ _ _ _ emptyContext)
    by (cbn [store]; rewrite lookup_fresh; reflexivity).
  subst w0. cbn [trace]. rewrite <- !app_assoc. reflexivity.
Qed.


Lemma grows_step {A} (c : M A) : (forall w, trace (snd (c w)) = trace w) -> grows c.
Proof. intros Hc. exact (traced_grows _ _ (mute_step c Hc)). Qed.

Lemma bind_assoc {A B C} (c : M A) (f : A -> M B) (g : B -> M C) w :
  bind (bind c f) g w = bind c (fun a => bind (f a) g) w.
Proof. unfold bind. destruct (c w) as [[a|m|] w1]; reflexivity. Qed.

Lemma emit_run name payload w :
  emit name payload w
  = (Ok tt, mkWorld (trace w ++ [Emit name payload]) (store w) (socket_sessionContext w)
                    (captures w) (posts w) (adbs w) (clock w)).
Proof. reflexivity. Qed.

(** Whatever the socket holds, the request for an instruction is built
    from the history of the context in use. *)
Lemma instruction_request_from_context fuel instruction w state :
  screen_at (captures w) = inr state ->
  configured = true ->
  exists tr,
    trace (snd (onSendInstruction fuel instruction w))
    = trace w ++
      [ Capture None;
        Emit "handle-instruction-start" VUndef;
        Post (instructionMessages instruction state (contextInUse w))
             (failureOf (model_at (posts w)
                (instructionMessages instruction state (contextInUse w)))) ]
      ++ tr.
Proof.
  intros Hscreen Hconf. unfold onSendInstruction.
  apply trace_try_catch_after; [|intros m; apply grows_emit].
  unfold receiveInstruction.
  set (w0 := mkWorld ((trace w ++ [Capture None]) ++ [Emit "handle-instruction-start" VUndef])
               (store w) (socket_sessionContext w) (S (captures w)) (posts w) (adbs w)
               (clock w)).
  destruct (sessionContextOrFresh_load w0)
    as (l & w1 & Hctx & Htr & Hcap & Hpost & Hadb & _ & _ & Hload).
  pose proof (handleAIInstruction_trace (instructionOptions instruction state l) w1 Hconf)
    as Hev.
  rewrite (instruction_request _ _ _ _ _ Hload), Hpost in Hev.
  change (contextInUse w0) with (contextInUse w) in Hev.
  change (posts w0) with (posts w) in Hev.
  destruct (handleAIInstruction (instructionOptions instruction state l) w1)
    as [o w2] eqn:Hrun.
  rewrite bind_assoc, (bind_Ok _ _ _ _ _ (getCurrentScreenState_ok w state Hscreen)).
  rewrite bind_assoc, (bind_Ok _ _ _ _ _ (emit_run _ _ _)). fold w0.
  rewrite bind_assoc, (bind_Ok _ _ _ _ _ Hctx).
  fold (instructionOptions instruction state l).
  rewrite bind_assoc.
  match goal with
  | |- context [bind (handleAIInstruction _) ?k w1] =>
      destruct (trace_bind_after (handleAIInstruction (instructionOptions instruction state l))
                  k w1 o w2 _ Hrun Hev) as [tr Htr']
  end.
  - intros response.
    repeat first
      [ apply grows_ret | apply grows_emit | apply grows_executeCommandSequence
      | apply grows_bind; [|intros ?]
      | apply grows_step; reflexivity
      | match goal with
        | |- grows (match ?x with _ => _ end) => destruct x
        end ].
  - exists tr. rewrite Htr', Htr. subst w0. cbn [trace]. rewrite <- !app_assoc. reflexivity.
Qed.

(** C9, as the code has it. On a socket that has no session context yet,
    the item appended during the round-trip of the first instruction goes
    into a temporary object, and the context the socket is then given is a
    different object whose history is empty. A prompt for an instruction is
    built from the history the socket's context holds at that moment, so
    after a first instruction whose response holds no command (no further
    round-trip runs) the next instruction's prompt has no history part. *)
Theorem first_instruction_item_not_retained :
  (forall instruction w response w',
     socket_sessionContext w = None ->
     receiveInstruction instruction w = (Ok response, w') ->
     exists state condensed temporary rebuilt,
       screen_at (captures w) = inr state /\
       simplifyResponse response = Some condensed /\
       store w' = store w ++ [temporary; rebuilt] /\
       history temporary = Some [itemFor instruction state condensed] /\
       history rebuilt = Some [] /\
       socket_sessionContext w' = Some (S (length (store w))) /\
       socketHistory w' = Some []) /\
  (forall fuel instruction w response w1,
     socket_sessionContext w = None ->
     receiveInstruction instruction w = (Ok response, w1) ->
     commands response = [] ->
     exists w',
       onSendInstruction fuel instruction w = (Ok tt, w') /\
       socketHistory w' = Some [] /\
       forall next state,
         contextPrompt (buildInstructionPrompt next (Some (uiElements state))
                          (contextInUse w')) = "") /\
  (forall fuel instruction w state,
     screen_at (captures w) = inr state ->
     configured = true ->
     exists tr,
       trace (snd (onSendInstruction fuel instruction w))
       = trace w ++
         [ Capture None;
           Emit "handle-instruction-start" VUndef;
           Post (instructionMessages instruction state (contextInUse w))
                (failureOf (model_at (posts w)
                   (instructionMessages instruction state (contextInUse w)))) ]
         ++ tr).
Proof.
  assert (Hrebuilt : forall instruction w response w',
    socket_sessionContext w = None ->
    receiveInstruction instruction w = (Ok response, w') ->
    socketHistory w' = Some [] /\ history (contextInUse w') = Some []).
  { intros instruction w response w' Hsock Hrun.
    destruct (receiveInstruction_first _ _ _ _ Hsock Hrun)
      as (state & condensed & temporary & rebuilt & _ & _ & Hstore & _ & Hhist & Hs & _).
    assert (Hlook : store w' !! S (length (store w)) = Some rebuilt).
    { rewrite Hstore.
      change (store w ++ [temporary; rebuilt]) with (store w ++ [temporary] ++ [rebuilt]).
      rewrite app_assoc.
      replace (S (length (store w))) with (length (store w ++ [temporary]))
        by (rewrite length_app; simpl; lia).
      apply lookup_fresh. }
    unfold socketHistory, contextInUse. rewrite Hs, Hlook. auto. }
  split; [|split].
  - intros instruction w response w' Hsock Hrun.
    destruct (receiveInstruction_first _ _ _ _ Hsock Hrun)
      as (state & condensed & temporary & rebuilt & H1 & H2 & H3 & H4 & H5 & H6 & _).
    exists state, condensed, temporary, rebuilt.
    repeat (split; [assumption|]). exact (proj1 (Hrebuilt _ _ _ _ Hsock Hrun)).
  - intros fuel instruction w response w1 Hsock Hrun Hcommands.
    destruct (Hrebuilt _ _ _ _ Hsock Hrun) as [Hsh Hctx].
    eexists. split; [|split].
    + unfold onSendInstruction, try_catch. rewrite (bind_Ok _ _ _ _ _ Hrun), Hcommands.
      reflexivity.
    + exact Hsh.
    + intros next state. cbn [buildInstructionPrompt contextPrompt].
      apply historyPrompt_empty. exact Hctx.
  - apply instruction_request_from_context.
Qed.

End WithHost.
End SocketHandlersFacts.


Module CommandExecutorExamples.
Import Js DataModel Eff AndroidConnection CommandExecutor CommandExecutorFacts Scenarios.

(** The second of three inner commands fails at the device: the composite
    command throws, the third command is never sent, and the result of the
    first is gone. *)
Lemma composite_failure_returns_no_result :
  exists w,
    executeCommand (H := failSecondHost) 1 (VObj threeStepComposite) initialWorld
    = (Throw "device offline", w) /\
    trace w = [ Adb (AdbTap (VNum 1) (VNum 2)) None;
                Adb (AdbTap (VNum 3) (VNum 4)) (Some "device offline") ] /\
    forall result w',
      executeCommand (H := failSecondHost) 1 (VObj threeStepComposite) initialWorld
      <> (Ok result, w').
Proof.
  eexists. split; [vm_compute; reflexivity|]. split; [reflexivity|].
  intros result w'. vm_compute. discriminate.
Qed.

Lemma composite_runs_in_order_and_rethrows_first_failure_witness :
  exists w,
    executeCommand (H := failSecondHost) 1 (VObj threeStepComposite) initialWorld
    = (Throw "device offline", w) /\
    adbs w = 2%nat.
Proof.
  destruct (for_each (executeCommand (H := failSecondHost) 0) [VObj (tapAt 1 2)]
              initialWorld) as [o w1] eqn:Hdone.
  vm_compute in Hdone. injection Hdone as <- <-.
  eexists. split.
  - apply (proj1 (composite_runs_in_order_and_rethrows_first_failure
                    (H := failSecondHost))
             0%nat threeStepComposite [VObj (tapAt 1 2)] (VObj (tapAt 3 4))
             [VObj {[ "type" := VStr "back" ]}] initialWorld _ _ "device offline" _
             eq_refl eq_refl eq_refl).
    vm_compute. reflexivity.
  - reflexivity.
Defined.

(** A tap without coordinates is sent to the device all the same. *)
Lemma tap_without_coordinates_is_dispatched :
  exists w,
    executeCommand (H := obedientHost) 0 (VObj bareTap) initialWorld
    = (Ok {[ "success" := VBool true; "x" := VUndef; "y" := VUndef ]}, w) /\
    trace w = [ Adb (AdbTap VUndef VUndef) None ].
Proof. eexists. split; [vm_compute; reflexivity | reflexivity]. Qed.

Lemma unknown_type_rejected_fields_unchecked_witness :
  (exists w,
     executeCommand (H := obedientHost) 0 (VObj longPress) initialWorld
     = (Throw "未知的命令类型: long_press", w) /\ trace w = []) /\
  trace (snd (executeCommand (H := obedientHost) 0 (VObj bareTap) initialWorld))
  = [ Adb (AdbTap VUndef VUndef) None ].
Proof.
  split.
  - eexists. split.
    + rewrite (proj1 (unknown_type_rejected_fields_unchecked (H := obedientHost))
                 0%nat longPress initialWorld
                 ltac:(vm_compute; reflexivity) ltac:(vm_compute; reflexivity)).
      reflexivity.
    + reflexivity.
  - apply (proj2 (proj2 (proj2 (proj2 (unknown_type_rejected_fields_unchecked
                                         (H := obedientHost))))
             0%nat bareTap initialWorld eq_refl)).
Defined.

End CommandExecutorExamples.

Module OrchestrationExamples.
Import Js DataModel Eff AndroidConnection CommandExecutor AiService SocketHandlers.
Import AiServiceFacts SocketHandlersFacts Scenarios.

(** Appending to a full history drops the oldest item and keeps the rest
    in order. *)
Lemma history_bounded_oldest_evicted_first_witness :
  exists updated retained,
    updateSessionContext (asked "i6" "t6") "now" fullContext = (Ok tt, updated) /\
    history updated = Some retained /\
    (length retained <= 5)%nat /\
    retained = [ remembered "i2" "t2"; remembered "i3" "t3"; remembered "i4" "t4";
                 remembered "i5" "t5"; remembered "i6" "t6" ].
Proof.
  edestruct (proj1 history_bounded_oldest_evicted_first (asked "i6" "t6") "now" fullContext)
    as (condensed & retained & evicted & Hc & Hh & Hlen & Hsplit & Hev);
    [reflexivity|].
  eexists _, retained. split; [reflexivity|]. split; [exact Hh|]. split; [exact Hlen|].
  simpl in Hh. injection Hh as <-. reflexivity.
Defined.

(** The batch of the scenario, with a model that has nothing more to do:
    a continuation round (capture, request) follows the first command too,
    before the second command starts. *)
Lemma continuation_also_after_first_command :
  exists w,
    executeCommandSequence (H := idleHost) 1 [firstOfBatch; secondOfBatch]
      "open settings" initialWorld = (Ok tt, w) /\
    eventName <$> trace w
    = [ "command-start"; "adb"; "command-result"; "sleep"; "capture"; "post";
        "command-start"; "adb"; "command-result"; "sleep"; "capture"; "post" ] /\
    length (requestsOf (trace w)) = 2%nat.
Proof. eexists. split; [vm_compute; reflexivity|]. split; reflexivity. Qed.

Lemma continuation_round_after_each_unfinished_command_witness :
  executeCommandSequence (H := idleHost) 1 [firstOfBatch; secondOfBatch]
    "open settings" initialWorld
  = (let* r1 := executeAndHandleSingleCommand (H := idleHost) 1 firstOfBatch in
     if success r1 then
       continueTaskExecution (H := idleHost) 0 "open settings" firstOfBatch;;;
       let* r2 := executeAndHandleSingleCommand (H := idleHost) 1 secondOfBatch in
       if success r2
       then continueTaskExecution (H := idleHost) 0 "open settings" secondOfBatch;;; ret tt
       else ret tt
     else ret tt) initialWorld.
Proof.
  apply (proj1 (continuation_round_after_each_unfinished_command (H := idleHost))
           0%nat firstOfBatch secondOfBatch "open settings" initialWorld);
    vm_compute; reflexivity.
Defined.

(** The device rejects a tap and the model has no corrective command:
    one recovery, no further device command. *)
Lemma failed_dispatch_recovered_once_witness :
  exists w,
    handleErrorCorrection (H := brokenDeviceHost) 0 (tapAt 1 2) "device offline"
      initialWorld = (Ok tt, w) /\
    eventName <$> trace w
    = [ "capture"; "error-correction-start"; "post"; "error-correction-end" ] /\
    adbs w = 0%nat.
Proof.
  edestruct (proj1 (proj2 (proj2 (proj2 (proj2
               (failed_dispatch_recovered_once (H := brokenDeviceHost))))))
             0%nat (tapAt 1 2) "device offline" initialWorld aScreen (Some [idleText])
             "looking") as (w & Hrun & Htr & Hadb);
    try (vm_compute; reflexivity).
  exists w. split; [exact Hrun|]. split; [rewrite Htr; reflexivity | exact Hadb].
Defined.

(** The first instruction is answered with a tap, after which a
    continuation round runs: the socket's history then holds the item of
    that round, and the next instruction's request carries a history part. *)
Lemma next_instruction_sees_continuation_history :
  exists w item,
    onSendInstruction (H := tapThenIdleHost) 1 "open settings" initialWorld = (Ok tt, w) /\
    socketHistory w = Some [item] /\
    s_thinking (parsedResponse item) = "looking" /\
    contextPrompt (buildInstructionPrompt (H := tapThenIdleHost) "go back"
                     (Some (uiElements aScreen)) (contextInUse w)) <> "" /\
    length <$> requestsOf (trace (snd (onSendInstruction (H := tapThenIdleHost) 1
                                         "go back" w)))
    = [2; 3; 3]%nat.
Proof.
  eexists _, _. split; [vm_compute; reflexivity|].
  split; [reflexivity|]. split; [reflexivity|]. split.
  - vm_compute. discriminate.
  - vm_compute. reflexivity.
Qed.

Lemma first_instruction_item_not_retained_witness :
  exists w,
    onSendInstruction (H := doneHost) 1 "open settings" initialWorld = (Ok tt, w) /\
    socketHistory w = Some [] /\
    length <$> requestsOf (trace (snd (onSendInstruction (H := doneHost) 1 "go back" w)))
    = [2; 2]%nat.
Proof.
  edestruct (proj1 (proj2 (first_instruction_item_not_retained (H := doneHost)))
             1%nat "open settings" initialWorld) as (w & Hrun & Hhist & _);
    [reflexivity | vm_compute; reflexivity | reflexivity |].
  exists w. split; [exact Hrun|]. split; [exact Hhist|].
  vm_compute in Hrun. injection Hrun as <-. vm_compute. reflexivity.
Defined.

End OrchestrationExamples.

(* ===================================================================== *)
(** * More on the element tree: search results, depths, bounds *)
(* ===================================================================== *)

Module UiExtractorMore.
Import UiExtractor UiExtractorFacts.

(** ** Vocabulary *)

(** [x] is [root] or one of its descendants. *)
Inductive inTree (x : UIElement) : UIElement -> Prop :=
| inTree_here : inTree x x
| inTree_child root c : In c (children root) -> inTree x c -> inTree x root.

(** A predicate field agrees with an element's attribute: it is unset or
    empty, or the attribute is exactly the wanted string. *)
Definition agrees (wanted actual : option string) : Prop :=
  wanted = None \/ wanted = Some "" \/ actual = wanted.

Definition selected (options : FindClickableOptions) (e : UIElement) : Prop :=
  clickable e = true /\
  agrees (opt_text options) (text e) /\
  agrees (opt_contentDesc options) (contentDesc e) /\
  agrees (opt_resourceId options) (id e) /\
  agrees (opt_className options) (type e).

(** [options] with some of its fields unset. *)
Definition relax (keepText keepDesc keepId keepClass : bool)
    (options : FindClickableOptions) : FindClickableOptions :=
  {| opt_text := if keepText then opt_text options else None;
     opt_contentDesc := if keepDesc then opt_contentDesc options else None;
     opt_resourceId := if keepId then opt_resourceId options else None;
     opt_className := if keepClass then opt_className options else None |}.

(** The children of a raw node that [processNode] keeps, in order. *)
Definition keptKids (kids : RawKids) : list RawNode :=
  match kids with
  | NoKids => []
  | OneKid k => [k]
  | ManyKids ks => omap (fun k => k) ks
  end.

(** Every element of the tree carries its distance from the root, counted
    from [d]. *)
Inductive layered : nat -> UIElement -> Prop :=
| layered_node d e :
    depth e = d -> Forall (layered (S d)) (children e) -> layered d e.


(** ** Queries *)

Lemma mismatch_agrees wanted actual : mismatch wanted actual = false <-> agrees wanted actual.
Proof.
  unfold mismatch, agrees. destruct wanted as [w|]; [|tauto].
  destruct (String.eqb_spec w "") as [->|Hne]; [tauto|].
  destruct actual as [a|].
  - destruct (String.eqb_spec a w) as [->|Hne']; simpl; split.
    + auto.
    + reflexivity.
    + discriminate.
    + intros [H|[H|H]]; congruence.
  - split; [discriminate|]. intros [H|[H|H]]; congruence.
Qed.

Lemma traverse_head options e :
  traverse options e
  = (if negb (mismatch (opt_text options) (text e)) &&
        negb (mismatch (opt_contentDesc options) (contentDesc e)) &&
        negb (mismatch (opt_resourceId options) (id e)) &&
        negb (mismatch (opt_className options) (type e)) && clickable e
     then [e] else [])
    ++ flat_map (traverse options) (children e).
Proof. destruct e. reflexivity. Qed.

Lemma selected_guard options e :
  negb (mismatch (opt_text options) (text e)) &&
  negb (mismatch (opt_contentDesc options) (contentDesc e)) &&
  negb (mismatch (opt_resourceId options) (id e)) &&
  negb (mismatch (opt_className options) (type e)) && clickable e = true
  <-> selected options e.
Proof.
  unfold selected. rewrite !andb_true_iff, !negb_true_iff, !mismatch_agrees. tauto.
Qed.

Lemma traverse_spec options root x :
  In x (traverse options root) <-> inTree x root /\ selected options x.
Proof.
  induction root as [root IH] using UIElement_tree_ind.
  rewrite traverse_head, in_app_iff, in_flat_map. split.
  - intros [Hhere|(c & Hc & Hx)].
    + destruct (_ && clickable root) eqn:Hg; [|destruct Hhere].
      destruct Hhere as [<-|[]]. split; [constructor | apply selected_guard, Hg].
    + rewrite Forall_forall in IH.
      destruct (proj1 (IH c (proj2 (list_elem_of_In _ _) Hc)) Hx) as [Hin Hsel].
      split; [econstructor 2; eassumption | exact Hsel].
  - intros [Hin Hsel]. inversion Hin as [|? c Hc Hx]; subst.
    + left. rewrite (proj2 (selected_guard options root) Hsel). left. reflexivity.
    + right. exists c. split; [exact Hc|].
      rewrite Forall_forall in IH.
      apply (IH c (proj2 (list_elem_of_In _ _) Hc)). auto.
Qed.

(** X1. [findClickableElements] returns exactly the elements of the tree
    that are clickable and whose attributes agree with every predicate
    field that is supplied and non-empty. *)
Theorem findClickableElements_exactly_the_selected
    (root : UIElement) (options : FindClickableOptions) (x : UIElement) :
  In x (findClickableElements (Some root) options)
  <-> inTree x root /\ selected options x.
Proof. apply traverse_spec. Qed.

Lemma sublist_flat_map {A B} (f g : A -> list B) l :
  Forall (fun x => sublist (f x) (g x)) l -> sublist (flat_map f l) (flat_map g l).
Proof.
  induction 1 as [|x l Hx _ IH]; simpl; [constructor|].
  apply sublist_app; assumption.
Qed.

Lemma mismatch_relax (keep : bool) (wanted actual : option string) :
  mismatch (if keep then wanted else None) actual = true -> mismatch wanted actual = true.
Proof. destruct keep; [auto | discriminate]. Qed.

Lemma traverse_relax b1 b2 b3 b4 options e :
  sublist (traverse options e) (traverse (relax b1 b2 b3 b4 options) e).
Proof.
  induction e as [e IH] using UIElement_tree_ind.
  rewrite !traverse_head. apply sublist_app; [|apply sublist_flat_map, IH].
  destruct (_ && clickable e) eqn:Hstrict; [|apply sublist_nil_l].
  assert (Hweak :
    negb (mismatch (opt_text (relax b1 b2 b3 b4 options)) (text e)) &&
    negb (mismatch (opt_contentDesc (relax b1 b2 b3 b4 options)) (contentDesc e)) &&
    negb (mismatch (opt_resourceId (relax b1 b2 b3 b4 options)) (id e)) &&
    negb (mismatch (opt_className (relax b1 b2 b3 b4 options)) (type e)) &&
    clickable e = true).
  { rewrite !andb_true_iff, !negb_true_iff in Hstrict |- *.
    destruct Hstrict as [[[[H1 H2] H3] H4] H5]. simpl.
    repeat split; try assumption;
      match goal with
      | |- mismatch (if ?b then ?w else None) ?a = false =>
          destruct (mismatch (if b then w else None) a) eqn:Hm; [|reflexivity];
          apply mismatch_relax in Hm; congruence
      end. }
  rewrite Hweak. reflexivity.
Qed.

(** X2. Unsetting predicate fields can only add results: the elements
    found with [options] are, in the same order, among those found with any
    of its fields unset, and so among all clickable elements. *)
Theorem findClickableElements_fewer_fields_more_results
    (root : option UIElement) (options : FindClickableOptions)
    (keepText keepDesc keepId keepClass : bool) :
  sublist (findClickableElements root options)
          (findClickableElements root (relax keepText keepDesc keepId keepClass options)) /\
  sublist (findClickableElements root options) (findClickableElements root noOptions).
Proof.
  destruct root as [e|]; simpl; [|split; constructor].
  split; [apply traverse_relax|].
  exact (traverse_relax false false false false options e).
Qed.

(** ** The tree [processNode] builds *)

Lemma processNode_children c r t d k b kids depth0 :
  children (processNode (Raw c r t d k b kids) depth0)
  = (fun kid => processNode kid (S depth0)) <$> keptKids kids.
Proof.
  destruct kids as [|kid|ks]; [reflexivity | reflexivity |]. simpl.
  induction ks as [|[kid|] ks IH]; simpl; [reflexivity | f_equal; exact IH | exact IH].
Qed.

Lemma processNode_layered node : forall d, layered d (processNode node d).
Proof.
  induction node as [c r t a k b|c r t a k b kid IH|c r t a k b kids IH]
    using RawNode_tree_ind; intros d; constructor; try reflexivity.
  - constructor.
  - simpl. constructor; [apply IH | constructor].
  - rewrite processNode_children. simpl.
    induction IH as [|[kid|] kids Hkid _ IHkids]; simpl; [constructor| |assumption].
    constructor; [apply Hkid | exact IHkids].
Qed.

(** X3. [processNode] keeps the shape of the capture: the children of an
    element are the truthy child nodes, processed in their order one level
    deeper, and every element of the tree carries its distance from the
    root as its depth. *)
Theorem processNode_keeps_order_and_depth :
  (forall c r t d k b kids depth0,
     children (processNode (Raw c r t d k b kids) depth0)
     = (fun kid => processNode kid (S depth0)) <$> keptKids kids) /\
  (forall node depth0, layered depth0 (processNode node depth0)).
Proof. split; [apply processNode_children | intros; apply processNode_layered]. Qed.

(** ** Bounds *)

Lemma digit_value_nonneg c : is_digit c = true -> 0 <= digit_value c <= 9.
Proof.
  unfold is_digit, digit_value. rewrite andb_true_iff, !Nat.leb_le. lia.
Qed.

Lemma digits_from_nonneg s : forall acc n rest,
  0 <= acc -> digits_from acc s = (n, rest) -> 0 <= n.
Proof.
  induction s as [|c s IH]; simpl; intros acc n rest Hacc Heq.
  - injection Heq as <- _. exact Hacc.
  - destruct (is_digit c) eqn:Hc.
    + pose proof (digit_value_nonneg c Hc). eapply IH; [|exact Heq]. lia.
    + injection Heq as <- _. exact Hacc.
Qed.

Lemma digits_nonneg s n rest : digits s = Some (n, rest) -> 0 <= n.
Proof.
  unfold digits. destruct s as [|c s]; [discriminate|].
  destruct (is_digit c); [|discriminate]. intros Heq. injection Heq as Heq.
  apply (digits_from_nonneg (String c s) 0 n rest); [lia | exact Heq].
Qed.

Lemma match_here_nonneg s l t r b :
  match_here s = Some (l, t, r, b) -> 0 <= l /\ 0 <= t /\ 0 <= r /\ 0 <= b.
Proof.
  unfold match_here. intros Hm.
  destruct (lit "[" s) as [s1|]; simpl in Hm; [|discriminate].
  destruct (digits s1) as [[l' s2]|] eqn:E2; simpl in Hm; [|discriminate].
  destruct (lit "," s2) as [s3|]; simpl in Hm; [|discriminate].
  destruct (digits s3) as [[t' s4]|] eqn:E4; simpl in Hm; [|discriminate].
  destruct (lit "]" s4) as [s5|]; simpl in Hm; [|discriminate].
  destruct (lit "[" s5) as [s6|]; simpl in Hm; [|discriminate].
  destruct (digits s6) as [[r' s7]|] eqn:E7; simpl in Hm; [|discriminate].
  destruct (lit "," s7) as [s8|]; simpl in Hm; [|discriminate].
  destruct (digits s8) as [[b' s9]|] eqn:E9; simpl in Hm; [|discriminate].
  destruct (lit "]" s9) as [s10|]; simpl in Hm; [|discriminate].
  injection Hm as <- <- <- <-.
  apply digits_nonneg in E2, E4, E7, E9. auto.
Qed.

Lemma match_bounds_nonneg s l t r b :
  match_bounds s = Some (l, t, r, b) -> 0 <= l /\ 0 <= t /\ 0 <= r /\ 0 <= b.
Proof.
  induction s as [|c s IH]; simpl.
  - discriminate.
  - destruct (match_here (String c s)) as [[[[l' t'] r'] b']|] eqn:Hhere.
    + intros Heq. injection Heq as <- <- <- <-. exact (match_here_nonneg _ _ _ _ _ Hhere).
    + exact IH.
Qed.

(** X4. Whatever the bounds string, the sides [parseBounds] returns are
    not negative, width and height are the differences of the sides, and
    the centre lies between the sides on each axis. *)
Theorem parseBounds_sides_nonnegative_centre_between (boundsStr : option string) :
  let b := parseBounds boundsStr in
  0 <= left b /\ 0 <= top b /\ 0 <= right b /\ 0 <= bottom b /\
  width b = right b - left b /\ height b = bottom b - top b /\
  Z.min (left b) (right b) <= centerX b <= Z.max (left b) (right b) /\
  Z.min (top b) (bottom b) <= centerY b <= Z.max (top b) (bottom b).
Proof.
  assert (Hzero :
    0 <= left zeroBounds /\ 0 <= top zeroBounds /\ 0 <= right zeroBounds /\
    0 <= bottom zeroBounds /\
    width zeroBounds = right zeroBounds - left zeroBounds /\
    height zeroBounds = bottom zeroBounds - top zeroBounds /\
    Z.min (left zeroBounds) (right zeroBounds) <= centerX zeroBounds
      <= Z.max (left zeroBounds) (right zeroBounds) /\
    Z.min (top zeroBounds) (bottom zeroBounds) <= centerY zeroBounds
      <= Z.max (top zeroBounds) (bottom zeroBounds)).
  { simpl. lia. }
  unfold parseBounds. destruct boundsStr as [s|]; [|exact Hzero].
  destruct (String.eqb s ""); [exact Hzero|].
  destruct (match_bounds s) as [[[[l t] r] b]|] eqn:Hm; [|exact Hzero].
  destruct (match_bounds_nonneg _ _ _ _ _ Hm) as (Hl & Ht & Hr & Hb).
  cbn [left top right bottom width height centerX centerY].
  pose proof (Z.div_mod (l + r) 2 ltac:(lia)) as Hx.
  pose proof (Z.mod_pos_bound (l + r) 2 ltac:(lia)) as Hx'.
  pose proof (Z.div_mod (t + b) 2 ltac:(lia)) as Hy.
  pose proof (Z.mod_pos_bound (t + b) 2 ltac:(lia)) as Hy'.
  repeat split; lia.
Qed.









End UiExtractorMore.

(* ===================================================================== *)
(** * More on the dispatcher: device failures and defaults *)
(* ===================================================================== *)

Module CommandExecutorMore.
Import Js DataModel Eff AndroidConnection CommandExecutor AiService.
Import CommandExecutorFacts SocketHandlersFacts.

(** ** Reading properties of updated objects *)

Lemma getv_insert_eq (o : obj) k v : getv (<[k := v]> o) k = v.
Proof. unfold getv. rewrite lookup_insert_eq. reflexivity. Qed.

Lemma getv_insert_ne (o : obj) k k' v : k <> k' -> getv (<[k := v]> o) k' = getv o k'.
Proof. intros Hne. unfold getv. rewrite lookup_insert_ne by exact Hne. reflexivity. Qed.

Lemma getv_delete_eq (o : obj) k : getv (delete k o) k = VUndef.
Proof. unfold getv. rewrite lookup_delete_eq. reflexivity. Qed.

Lemma getv_delete_ne (o : obj) k k' : k <> k' -> getv (delete k o) k' = getv o k'.
Proof. intros Hne. unfold getv. rewrite lookup_delete_ne by exact Hne. reflexivity. Qed.

Lemma getv_singleton_eq k v : getv ({[ k := v ]} : obj) k = v.
Proof. unfold getv. rewrite lookup_singleton_eq. reflexivity. Qed.

Ltac getv_steps :=
  repeat first
    [ rewrite getv_insert_eq
    | rewrite getv_insert_ne by done
    | rewrite getv_delete_eq
    | rewrite getv_delete_ne by done
    | rewrite getv_singleton_eq ].

Section WithHost.
Context `{Host}.

(** The part of the world the dispatcher has no business with. *)
Definition beyondDevice (w : World) : list SessionContext * option nat * nat * nat * nat :=
  (store w, socket_sessionContext w, captures w, posts w, clock w).

(** [c] leaves everything but the trace and the device counter alone. *)
Definition deviceOnly {A} (c : M A) : Prop :=
  forall w, beyondDevice (snd (c w)) = beyondDevice w.

Lemma deviceOnly_ret {A} (a : A) : deviceOnly (ret a).
Proof. intros w. reflexivity. Qed.

Lemma deviceOnly_throw {A} m : deviceOnly (@throw A m).
Proof. intros w. reflexivity. Qed.

Lemma deviceOnly_starve {A} : deviceOnly (@starve A).
Proof. intros w. reflexivity. Qed.

Lemma deviceOnly_bind {A B} (c : M A) (k : A -> M B) :
  deviceOnly c -> (forall a, deviceOnly (k a)) -> deviceOnly (bind c k).
Proof.
  intros Hc Hk w. unfold bind. specialize (Hc w).
  destruct (c w) as [[a| |] w1]; simpl in *; [|exact Hc|exact Hc].
  rewrite (Hk a w1). exact Hc.
Qed.

Lemma deviceOnly_for_each {A B} (f : A -> M B) xs :
  (forall x, deviceOnly (f x)) -> deviceOnly (for_each f xs).
Proof.
  intros Hf. induction xs as [|x xs IH]; simpl.
  - apply deviceOnly_ret.
  - apply deviceOnly_bind; [apply Hf|]. intros r.
    apply deviceOnly_bind; [apply IH|]. intros rs. apply deviceOnly_ret.
Qed.

Lemma deviceOnly_execPromise a : deviceOnly (execPromise a).
Proof. intros w. unfold execPromise. destruct (adb_at (adbs w) a); reflexivity. Qed.

Lemma deviceOnly_sleep ms : deviceOnly (sleep ms).
Proof. intros w. reflexivity. Qed.

Lemma deviceOnly_dispatch (c : obj) (composite : M obj) :
  deviceOnly composite -> deviceOnly (dispatch c composite).
Proof.
  intros Hcomposite. unfold dispatch. cbv zeta.
  repeat match goal with
         | |- deviceOnly (if ?b then _ else _) => destruct b
         end;
    try apply deviceOnly_throw; try exact Hcomposite;
    unfold tap, swipe, pressKey, wait, inputText;
    try (apply deviceOnly_bind;
         [first [apply deviceOnly_execPromise | apply deviceOnly_sleep]
         | intros _; apply deviceOnly_ret]).
  destruct (getv c "text"); try apply deviceOnly_throw.
  apply deviceOnly_bind; [apply deviceOnly_execPromise | intros _; apply deviceOnly_ret].
Qed.

Lemma deviceOnly_executeCommand fuel : forall command, deviceOnly (executeCommand fuel command).
Proof.
  induction fuel as [|fuel IH]; intros command;
    (destruct command as [| | | | | |c];
     [apply deviceOnly_throw | apply deviceOnly_throw | apply deviceOnly_throw
     | apply deviceOnly_throw | apply deviceOnly_throw | apply deviceOnly_throw | ]);
    rewrite executeCommand_dispatch; apply deviceOnly_dispatch.
  - apply deviceOnly_starve.
  - unfold executeCompositeCommandWith.
    destruct (getv c "commands") as [| | | | |[|x l]|]; try apply deviceOnly_throw.
    apply deviceOnly_bind; [apply deviceOnly_for_each, IH | intros rs; apply deviceOnly_ret].
Qed.

(** ** Device commands stop at the first failure *)

(** A step that went through: a pause, or a device command that was obeyed. *)
Definition obeyed (e : Event) : Prop :=
  match e with
  | Sleep _ | Adb _ None => True
  | _ => False
  end.

(** What a run of the dispatcher leaves on the trace, by how it ended. *)
Definition haltsAtFailure (o : outcome obj) (tr : list Event) : Prop :=
  match o with
  | Ok r => getv r "success" = VBool true /\ Forall obeyed tr
  | Throw m =>
      Forall obeyed tr \/
      exists done a, tr = done ++ [Adb a (Some m)] /\ Forall obeyed done
  | Starved => Forall obeyed tr
  end.

(** The same for a step whose result is not a command result. *)
Definition haltsAtFailure' {A} (o : outcome A) (tr : list Event) : Prop :=
  match o with
  | Ok _ | Starved => Forall obeyed tr
  | Throw m =>
      Forall obeyed tr \/
      exists done a, tr = done ++ [Adb a (Some m)] /\ Forall obeyed done
  end.

Lemma haltsAtFailure_weaken o tr : haltsAtFailure o tr -> haltsAtFailure' o tr.
Proof. destruct o; simpl; tauto. Qed.

Lemma halts_execPromise a : traced haltsAtFailure' (execPromise a).
Proof.
  intros w. exists [Adb a (adb_at (adbs w) a)]. unfold execPromise.
  destruct (adb_at (adbs w) a) as [m|] eqn:Hreply; simpl; split; auto.
  - right. exists [], a. split; [reflexivity | constructor].
  - repeat constructor.
Qed.

Lemma halts_sleep ms : traced haltsAtFailure' (sleep ms).
Proof. apply traced_record. repeat constructor. Qed.

Lemma halts_after {A} (c : M A) (r : A -> obj) :
  traced haltsAtFailure' c -> (forall a, getv (r a) "success" = VBool true) ->
  traced haltsAtFailure (let* a := c in ret (r a)).
Proof.
  intros Hc Hr.
  apply (traced_bind haltsAtFailure' (fun a o tr => o = Ok (r a) /\ tr = []) haltsAtFailure
           c (fun a => ret (r a)) Hc).
  - intros a. apply traced_ret. auto.
  - intros a tr1 o tr2 H1 [-> ->]. rewrite app_nil_r. simpl in *. auto.
  - intros m tr1 H1. exact H1.
  - intros tr1 H1. exact H1.
Qed.

Lemma halts_throw m : traced haltsAtFailure (throw m).
Proof. apply traced_throw. left. constructor. Qed.

Lemma halts_for_each (f : value -> M obj) xs :
  (forall x, traced haltsAtFailure (f x)) -> traced haltsAtFailure' (for_each f xs).
Proof.
  intros Hf. induction xs as [|x xs IH]; simpl.
  - apply traced_ret. constructor.
  - apply (traced_bind haltsAtFailure (fun _ => haltsAtFailure') haltsAtFailure'
             (f x) _ (Hf x)).
    + intros r.
      apply (traced_bind haltsAtFailure' (fun _ o tr => tr = [] /\ exists a, o = Ok a)
               haltsAtFailure' _ _ IH).
      * intros rs. apply traced_ret. eauto.
      * intros rs tr1 o tr2 H1 [-> [a ->]]. rewrite app_nil_r. exact H1.
      * intros m tr1 H1. exact H1.
      * intros tr1 H1. exact H1.
    + intros r tr1 o tr2 [_ H1] H2. destruct o as [a|m|]; simpl in *.
      * apply Forall_app. auto.
      * destruct H2 as [H2|(done & a & -> & H2)].
        -- left. apply Forall_app. auto.
        -- right. exists (tr1 ++ done), a. rewrite app_assoc. split; [reflexivity|].
           apply Forall_app. auto.
      * apply Forall_app. auto.
    + intros m tr1 H1. exact H1.
    + intros tr1 H1. exact H1.
Qed.

Lemma halts_dispatch (c : obj) (composite : M obj) :
  traced haltsAtFailure composite -> traced haltsAtFailure (dispatch c composite).
Proof.
  intros Hcomposite. unfold dispatch. cbv zeta.
  repeat match goal with
         | |- traced _ (if ?b then _ else _) => destruct b
         end;
    try apply halts_throw; try exact Hcomposite;
    unfold tap, swipe, pressKey, wait, inputText;
    try (apply (halts_after _ (fun _ => _));
         [first [apply halts_execPromise | apply halts_sleep]
         | intros _; apply getv_insert_eq]).
  destruct (getv c "text"); try apply halts_throw.
  apply (halts_after _ (fun _ => _));
    [apply halts_execPromise | intros _; apply getv_insert_eq].
Qed.

Lemma halts_executeCommand fuel :
  forall command, traced haltsAtFailure (executeCommand fuel command).
Proof.
  induction fuel as [|fuel IH]; intros command;
    (destruct command as [| | | | | |c];
     [apply halts_throw | apply halts_throw | apply halts_throw
     | apply halts_throw | apply halts_throw | apply halts_throw | ]);
    rewrite executeCommand_dispatch; apply halts_dispatch.
  - apply traced_starve. constructor.
  - unfold executeCompositeCommandWith.
    destruct (getv c "commands") as [| | | | |[|x l]|]; try apply halts_throw.
    apply (halts_after _ (fun results => _));
      [apply halts_for_each, IH | intros results; apply getv_insert_eq].
Qed.

(** X6. Whatever the command, nested batches included, [executeCommand]
    issues device commands and pauses only, and it stops at the first device
    command that fails: a returned result carries [success: true] and every
    step before it was obeyed; when it throws, either every step so far was
    obeyed (the command itself was refused) or the last step is the one
    failed device command and the error thrown is that command's error. *)
Theorem executeCommand_halts_at_first_device_failure fuel command w :
  exists tr,
    trace (snd (executeCommand fuel command w)) = trace w ++ tr /\
    match fst (executeCommand fuel command w) with
    | Ok r => getv r "success" = VBool true /\ Forall obeyed tr
    | Throw m =>
        Forall obeyed tr \/
        exists done a, tr = done ++ [Adb a (Some m)] /\ Forall obeyed done
    | Starved => Forall obeyed tr
    end.
Proof. exact (halts_executeCommand fuel command w). Qed.

(** X7. The dispatcher has no business beyond the device: whatever the
    command, [executeCommand] leaves the session store, the socket's
    context and the numbers of screen captures and of model requests as
    they were. *)
Theorem executeCommand_touches_only_the_device fuel command w :
  store (snd (executeCommand fuel command w)) = store w /\
  socket_sessionContext (snd (executeCommand fuel command w)) = socket_sessionContext w /\
  captures (snd (executeCommand fuel command w)) = captures w /\
  posts (snd (executeCommand fuel command w)) = posts w.
Proof.
  pose proof (deviceOnly_executeCommand fuel command w) as Hframe.
  unfold beyondDevice in Hframe. injection Hframe as -> -> -> -> _. auto.
Qed.

(** ** The single commands *)

Definition after (w : World) (e : Event) (devices : nat) : World :=
  mkWorld (trace w ++ [e]) (store w) (socket_sessionContext w)
          (captures w) (posts w) (devices + adbs w) (clock w).

(** X8. A [wait] command never reaches the device: it pauses for its
    [duration], and for one second when the duration is missing, zero or
    otherwise falsy, and reports the pause it made. *)
Theorem wait_pauses_and_defaults_to_one_second fuel (c : obj) w :
  getv c "type" = VStr "wait" ->
  let pause := if truthy (getv c "duration") then getv c "duration" else VNum 1000 in
  executeCommand fuel (VObj c) w
  = (Ok {[ "success" := VBool true; "duration" := pause ]}, after w (Sleep pause) 0).
Proof.
  intros Htype pause. rewrite executeCommand_dispatch. unfold dispatch. cbv zeta.
  rewrite Htype. reflexivity.
Qed.

(** X9. A [swipe] without a [duration] is the same swipe with a duration
    of 300: same device command, same result. *)
Theorem swipe_without_duration_takes_300 fuel (c : obj) w :
  getv c "type" = VStr "swipe" ->
  getv c "duration" = VUndef ->
  executeCommand fuel (VObj c) w
  = executeCommand fuel (VObj (<["duration" := VNum 300]> c)) w.
Proof.
  intros Htype Hduration. rewrite !executeCommand_dispatch. unfold dispatch. cbv zeta.
  getv_steps. rewrite Htype, Hduration. reflexivity.
Qed.

(** X10. A [text] command whose [text] is not a string is refused before
    any input command is issued to the device: the call throws, and the
    trace, the device counter and the rest of the world are as they were. *)
Theorem text_that_is_no_string_never_reaches_the_device fuel (c : obj) w :
  getv c "type" = VStr "text" ->
  (forall s, getv c "text" <> VStr s) ->
  exists message, executeCommand fuel (VObj c) w = (Throw message, w).
Proof.
  intros Htype Htext. rewrite executeCommand_dispatch. unfold dispatch. cbv zeta.
  rewrite Htype. cbn [truthy negb str_is String.eqb Ascii.eqb Bool.eqb].
  unfold inputText.
  destruct (getv c "text") as [| | | |s| |]; try (eexists; reflexivity).
  destruct (Htext s eq_refl).
Qed.

End WithHost.

(** ** Instances on a device that obeys *)

Import Scenarios.

Lemma wait_pauses_and_defaults_to_one_second_witness :
  let c : obj := {[ "type" := VStr "wait"; "duration" := VNum 0 ]} in
  executeCommand (H := obedientHost) 0 (VObj c) initialWorld
  = (Ok {[ "success" := VBool true; "duration" := VNum 1000 ]},
     after initialWorld (Sleep (VNum 1000)) 0).
Proof.
  intros c. exact (wait_pauses_and_defaults_to_one_second (H := obedientHost) 0 c initialWorld eq_refl).
Defined.

Lemma swipe_without_duration_takes_300_witness :
  let c : obj := {[ "type" := VStr "swipe"; "startX" := VNum 500; "startY" := VNum 1500;
                    "endX" := VNum 500; "endY" := VNum 300 ]} in
  executeCommand (H := obedientHost) 0 (VObj c) initialWorld
  = executeCommand (H := obedientHost) 0 (VObj (<["duration" := VNum 300]> c)) initialWorld.
Proof.
  intros c.
  exact (swipe_without_duration_takes_300 (H := obedientHost) 0 c initialWorld eq_refl eq_refl).
Defined.

Lemma text_that_is_no_string_never_reaches_the_device_witness :
  let c : obj := {[ "type" := VStr "text"; "text" := VNum 42 ]} in
  exists message, executeCommand (H := obedientHost) 0 (VObj c) initialWorld = (Throw message, initialWorld).
Proof.
  intros c.
  apply (text_that_is_no_string_never_reaches_the_device (H := obedientHost) 0 c initialWorld).
  - reflexivity.
  - intros s. vm_compute. discriminate.
Defined.
End CommandExecutorMore.

(* ===================================================================== *)
(** * More on command repair *)
(* ===================================================================== *)

Module NormalizeMore.
Import Js DataModel Eff AndroidConnection CommandExecutor AiService.
Import AiServiceFacts CommandExecutorFacts SocketHandlersFacts CommandExecutorMore.

(** ** The three repairs of [normalizeCommand], one at a time *)

Definition moveAction (c : obj) : obj :=
  if truthy (getv c "action") && negb (truthy (getv c "type"))
  then delete "action" (<["type" := getv c "action"]> c)
  else c.

Definition repairTap (c : obj) : obj :=
  if str_is (getv c "type") "click"
     || (str_is (getv c "type") "tap" && isArrayOfLength (getv c "coordinate") 2)
  then
    if isArrayOfLength (getv c "coordinate") 2
    then delete "coordinate"
           (<["y" := index (getv c "coordinate") 1]>
              (<["x" := index (getv c "coordinate") 0]> (<["type" := VStr "tap"]> c)))
    else <["type" := VStr "tap"]> c
  else c.

Definition repairSwipe (c : obj) : obj :=
  if str_is (getv c "type") "swipe" then
    if isArray (getv c "coordinate") && isArray (getv c "coordinate2") then
      delete "coordinate2" (delete "coordinate"
        (<["endY" := index (getv c "coordinate2") 1]>
        (<["endX" := index (getv c "coordinate2") 0]>
        (<["startY" := index (getv c "coordinate") 1]>
        (<["startX" := index (getv c "coordinate") 0]> c)))))
    else if isArrayOfLength (getv c "coordinate") 4 then
      delete "coordinate"
        (<["endY" := index (getv c "coordinate") 3]>
        (<["endX" := index (getv c "coordinate") 2]>
        (<["startY" := index (getv c "coordinate") 1]>
        (<["startX" := index (getv c "coordinate") 0]> c))))
    else c
  else c.

Lemma normalizeCommand_steps (c : obj) :
  normalizeCommand (VObj c) = repairSwipe (repairTap (moveAction c)).
Proof. reflexivity. Qed.

(** The properties a repair may write or remove. *)
Definition repairedKeys : list string :=
  ["action"; "type"; "x"; "y"; "coordinate"; "coordinate2";
   "startX"; "startY"; "endX"; "endY"]%string.

Ltac other_key Hk :=
  let Heq := fresh in
  intros Heq; apply Hk; rewrite <- Heq; unfold repairedKeys; simpl; tauto.

Ltac untouched Hk :=
  repeat first
    [ rewrite lookup_delete_ne by other_key Hk
    | rewrite lookup_insert_ne by other_key Hk ].

Lemma moveAction_other (c : obj) k : ~ In k repairedKeys -> moveAction c !! k = c !! k.
Proof. intros Hk. unfold moveAction. case_match; untouched Hk; reflexivity. Qed.

Lemma repairTap_other (c : obj) k : ~ In k repairedKeys -> repairTap c !! k = c !! k.
Proof. intros Hk. unfold repairTap. repeat case_match; untouched Hk; reflexivity. Qed.

Lemma repairSwipe_other (c : obj) k : ~ In k repairedKeys -> repairSwipe c !! k = c !! k.
Proof. intros Hk. unfold repairSwipe. repeat case_match; untouched Hk; reflexivity. Qed.

(** X11. [normalizeCommand] rewrites the type and the coordinate
    properties only: every other property of the command ([text],
    [keycode], [duration], [commands], the completion flags, ...) comes out
    as it went in, present or absent. *)
Theorem normalizeCommand_keeps_the_other_properties (c : obj) k :
  ~ In k repairedKeys -> normalizeCommand (VObj c) !! k = c !! k.
Proof.
  intros Hk. rewrite normalizeCommand_steps.
  rewrite repairSwipe_other, repairTap_other, moveAction_other by exact Hk.
  reflexivity.
Qed.

Lemma normalizeCommand_keeps_the_other_properties_witness :
  let c : obj := {[ "action" := VStr "click"; "coordinate" := VArr [VNum 160; VNum 200];
                    "isFinalCommand" := VBool true ]} in
  normalizeCommand (VObj c) !! "isFinalCommand" = c !! "isFinalCommand".
Proof.
  intros c. apply (normalizeCommand_keeps_the_other_properties c "isFinalCommand").
  unfold repairedKeys. simpl. intros Hin.
  repeat (destruct Hin as [Hin|Hin]; [discriminate Hin|]). exact Hin.
Defined.

(** ** Repaired commands are fixed points *)

(** Nothing left to repair. *)
Definition repaired (c : obj) : Prop :=
  (truthy (getv c "action") && negb (truthy (getv c "type")) = false) /\
  (str_is (getv c "type") "click" = false) /\
  (str_is (getv c "type") "tap" && isArrayOfLength (getv c "coordinate") 2 = false) /\
  (str_is (getv c "type") "swipe"
   && ((isArray (getv c "coordinate") && isArray (getv c "coordinate2"))
       || isArrayOfLength (getv c "coordinate") 4) = false).

Lemma repaired_fixed (c : obj) : repaired c -> normalizeCommand (VObj c) = c.
Proof.
  intros (Haction & Hclick & Htap & Hswipe). rewrite normalizeCommand_steps.
  assert (H1 : moveAction c = c) by (unfold moveAction; rewrite Haction; reflexivity).
  rewrite H1.
  assert (H2 : repairTap c = c).
  { unfold repairTap. rewrite Hclick, Htap. reflexivity. }
  rewrite H2. unfold repairSwipe.
  destruct (str_is (getv c "type") "swipe"); [|reflexivity].
  simpl in Hswipe. apply orb_false_iff in Hswipe as [-> ->]. reflexivity.
Qed.

Definition actionMoved (c : obj) : Prop :=
  truthy (getv c "action") && negb (truthy (getv c "type")) = false.

Definition tapRepaired (c : obj) : Prop :=
  str_is (getv c "type") "click" = false /\
  str_is (getv c "type") "tap" && isArrayOfLength (getv c "coordinate") 2 = false.

Ltac repair_steps :=
  repeat first
    [ progress getv_steps
    | progress cbn [truthy negb andb orb str_is String.eqb Ascii.eqb Bool.eqb
                    isArrayOfLength isArray]
    | rewrite andb_false_r ].

Lemma moveAction_actionMoved (c : obj) : actionMoved (moveAction c).
Proof.
  unfold actionMoved, moveAction.
  destruct (truthy (getv c "action") && negb (truthy (getv c "type"))) eqn:Hmove.
  - repair_steps. reflexivity.
  - exact Hmove.
Qed.

Lemma repairTap_tapRepaired (c : obj) :
  actionMoved c -> actionMoved (repairTap c) /\ tapRepaired (repairTap c).
Proof.
  unfold actionMoved, tapRepaired, repairTap. intros Haction.
  destruct (str_is (getv c "type") "click"
            || str_is (getv c "type") "tap" && isArrayOfLength (getv c "coordinate") 2)
    eqn:Htap.
  - destruct (isArrayOfLength (getv c "coordinate") 2) eqn:Hpair;
      repair_steps; try rewrite Hpair; repair_steps; auto.
  - apply orb_false_iff in Htap as [Hclick Hpair]. auto.
Qed.

Lemma repairSwipe_repaired (c : obj) :
  actionMoved c -> tapRepaired c -> repaired (repairSwipe c).
Proof.
  unfold actionMoved, tapRepaired, repaired, repairSwipe. intros Haction [Hclick Htap].
  destruct (str_is (getv c "type") "swipe") eqn:Hswipe.
  - destruct (isArray (getv c "coordinate") && isArray (getv c "coordinate2")) eqn:Hboth;
      [|destruct (isArrayOfLength (getv c "coordinate") 4) eqn:Hfour];
      repair_steps; rewrite ?Hswipe, ?Hboth, ?Hfour, ?Hclick; repair_steps;
      repeat split; auto.
    all: destruct (getv c "type") as [| | | |t| |]; try discriminate Hswipe;
      simpl in Hswipe; apply String.eqb_eq in Hswipe; subst t; reflexivity.
  - rewrite Hswipe. auto.
Qed.

Lemma normalizeCommand_repaired (c : obj) : repaired (normalizeCommand (VObj c)).
Proof.
  rewrite normalizeCommand_steps.
  destruct (repairTap_tapRepaired (moveAction c) (moveAction_actionMoved c)).
  apply repairSwipe_repaired; assumption.
Qed.

(** X12. Repairing a command twice changes nothing more:
    [normalizeCommand] applied to its own result returns that result. *)
Theorem normalizeCommand_idempotent (c : obj) :
  normalizeCommand (VObj (normalizeCommand (VObj c))) = normalizeCommand (VObj c).
Proof. apply repaired_fixed, normalizeCommand_repaired. Qed.

(** X13. No command leaves [normalizeCommand] with type [click], and none
    leaves it as a [tap] that still carries a coordinate pair, or as a
    [swipe] that still carries its end points in [coordinate] arrays. *)
Theorem normalizeCommand_leaves_no_alias (c : obj) :
  let n := normalizeCommand (VObj c) in
  getv n "type" <> VStr "click" /\
  (getv n "type" = VStr "tap" -> isArrayOfLength (getv n "coordinate") 2 = false) /\
  (getv n "type" = VStr "swipe" ->
   isArray (getv n "coordinate") && isArray (getv n "coordinate2") = false /\
   isArrayOfLength (getv n "coordinate") 4 = false).
Proof.
  intros n. destruct (normalizeCommand_repaired c) as (_ & Hclick & Htap & Hswipe).
  fold n in Hclick, Htap, Hswipe. split; [|split].
  - intros Heq. rewrite Heq in Hclick. discriminate Hclick.
  - intros Heq. rewrite Heq in Htap. exact Htap.
  - intros Heq. rewrite Heq in Hswipe. simpl in Hswipe.
    apply orb_false_iff in Hswipe. exact Hswipe.
Qed.

Lemma normalizeCommand_leaves_no_alias_witness :
  let c : obj := {[ "type" := VStr "tap"; "coordinate" := VArr [VNum 160; VNum 200] ]} in
  isArrayOfLength (getv (normalizeCommand (VObj c)) "coordinate") 2 = false.
Proof.
  intros c. apply (proj1 (proj2 (normalizeCommand_leaves_no_alias c))). reflexivity.
Defined.

(** ** Repair composed with dispatch *)

Section WithHost.
Context `{Host}.

(** The type a command is repaired from: [action] stands in for a missing
    [type]. *)
Definition statedType (c : obj) : value :=
  if truthy (getv c "action") && negb (truthy (getv c "type"))
  then getv c "action" else getv c "type".

Lemma moveAction_type (c : obj) : getv (moveAction c) "type" = statedType c.
Proof.
  unfold moveAction, statedType. case_match; getv_steps; reflexivity.
Qed.

Lemma moveAction_get (c : obj) k :
  k <> "action" -> k <> "type" -> getv (moveAction c) k = getv c k.
Proof.
  intros Haction Htype. unfold moveAction. case_match; [|reflexivity].
  rewrite getv_delete_ne by congruence. rewrite getv_insert_ne by congruence.
  reflexivity.
Qed.

(** X14. A [click], or a [tap], that carries its point as a [coordinate]
    pair is dispatched, once repaired, as a tap at that point, also when
    the model wrote the type under [action]. *)
Theorem repaired_click_is_dispatched_as_tap fuel (c : obj) x y w :
  statedType c = VStr "click" \/ statedType c = VStr "tap" ->
  getv c "coordinate" = VArr [x; y] ->
  executeCommand fuel (VObj (normalizeCommand (VObj c))) w = tap x y w.
Proof.
  intros Htype Hcoord. rewrite normalizeCommand_steps.
  pose proof (moveAction_type c) as Htype1.
  assert (Hcoord1 : getv (moveAction c) "coordinate" = VArr [x; y]).
  { rewrite moveAction_get by discriminate. exact Hcoord. }
  set (c1 := moveAction c) in *.
  assert (Htap : repairTap c1
                 = delete "coordinate"
                     (<["y" := y]> (<["x" := x]> (<["type" := VStr "tap"]> c1)))).
  { unfold repairTap. rewrite Hcoord1, Htype1.
    destruct Htype as [-> | ->]; reflexivity. }
  rewrite Htap.
  set (c2 := delete "coordinate" _).
  assert (Htype2 : getv c2 "type" = VStr "tap") by (unfold c2; getv_steps; reflexivity).
  assert (Hswipe : repairSwipe c2 = c2) by (unfold repairSwipe; rewrite Htype2; reflexivity).
  rewrite Hswipe, executeCommand_dispatch. unfold dispatch. cbv zeta. rewrite Htype2.
  cbn [truthy negb str_is String.eqb Ascii.eqb Bool.eqb].
  unfold c2. getv_steps. reflexivity.
Qed.

(** X15. A [swipe] that carries its end points as two [coordinate] arrays
    is dispatched, once repaired, as the swipe from the first two entries of
    [coordinate] to the first two of [coordinate2], with the duration it
    came with; entries an array lacks go to the device as [undefined]. *)
Theorem repaired_swipe_is_dispatched_between_the_two_points fuel (c : obj) from to w :
  statedType c = VStr "swipe" ->
  getv c "coordinate" = VArr from ->
  getv c "coordinate2" = VArr to ->
  executeCommand fuel (VObj (normalizeCommand (VObj c))) w
  = swipe (index (VArr from) 0) (index (VArr from) 1)
          (index (VArr to) 0) (index (VArr to) 1) (getv c "duration") w.
Proof.
  intros Htype Hfrom Hto. rewrite normalizeCommand_steps.
  pose proof (moveAction_type c) as Htype1. rewrite Htype in Htype1.
  assert (Hfrom1 : getv (moveAction c) "coordinate" = VArr from).
  { rewrite moveAction_get by discriminate. exact Hfrom. }
  assert (Hto1 : getv (moveAction c) "coordinate2" = VArr to).
  { rewrite moveAction_get by discriminate. exact Hto. }
  assert (Hduration : getv (moveAction c) "duration" = getv c "duration").
  { apply moveAction_get; discriminate. }
  set (c1 := moveAction c) in *.
  assert (Htap : repairTap c1 = c1) by (unfold repairTap; rewrite Htype1; reflexivity).
  rewrite Htap. unfold repairSwipe. rewrite Htype1, Hfrom1, Hto1.
  cbn [str_is String.eqb Ascii.eqb Bool.eqb isArray andb].
  rewrite executeCommand_dispatch. unfold dispatch. cbv zeta.
  getv_steps. rewrite Htype1.
  cbn [truthy negb str_is String.eqb Ascii.eqb Bool.eqb].
  rewrite Hduration. reflexivity.
Qed.

End WithHost.

(** ** Instances on a device that obeys *)

Import Scenarios.

Lemma repaired_click_is_dispatched_as_tap_witness :
  let c : obj := {[ "action" := VStr "click"; "coordinate" := VArr [VNum 160; VNum 200] ]} in
  executeCommand (H := obedientHost) 0 (VObj (normalizeCommand (VObj c))) initialWorld
  = tap (H := obedientHost) (VNum 160) (VNum 200) initialWorld.
Proof.
  intros c.
  apply (repaired_click_is_dispatched_as_tap (H := obedientHost) 0 c (VNum 160) (VNum 200) initialWorld).
  - left. reflexivity.
  - reflexivity.
Defined.

Lemma repaired_swipe_is_dispatched_between_the_two_points_witness :
  let c : obj := {[ "type" := VStr "swipe"; "coordinate" := VArr [VNum 10; VNum 20];
                    "coordinate2" := VArr [VNum 10; VNum 200] ]} in
  executeCommand (H := obedientHost) 0 (VObj (normalizeCommand (VObj c))) initialWorld
  = swipe (H := obedientHost) (VNum 10) (VNum 20) (VNum 10) (VNum 200) VUndef initialWorld.
Proof.
  intros c.
  exact (repaired_swipe_is_dispatched_between_the_two_points (H := obedientHost) 0 c
           [VNum 10; VNum 20] [VNum 10; VNum 200] initialWorld eq_refl eq_refl eq_refl).
Defined.

End NormalizeMore.

(* ===================================================================== *)
(** * More on parsing the reply of the model *)
(* ===================================================================== *)

Module ParsingMore.
Import Js DataModel Eff AiService AiServiceFacts CommandExecutorMore.

(** ** Where the JSON of a reply is taken from *)

(** [c] does not occur in [s]. *)
Fixpoint lacks (c : ascii) (s : string) : Prop :=
  match s with
  | EmptyString => True
  | String d s' => d <> c /\ lacks c s'
  end.

Definition backtick : ascii := "`"%char.

Lemma substring0_all s : forall n, (String.length s <= n)%nat -> String.substring 0 n s = s.
Proof.
  induction s as [|c s IH]; intros [|n] Hlen; simpl in *; try reflexivity; try lia.
  rewrite IH by lia. reflexivity.
Qed.

Lemma prefix_app p s : String.prefix p (p +:+ s) = true.
Proof.
  induction p as [|c p IH]; simpl.
  - destruct s; reflexivity.
  - destruct (ascii_dec c c) as [_|Hne]; [exact IH | destruct (Hne eq_refl)].
Qed.

Lemma substring_skip p s : forall n,
  String.substring (String.length p) n (p +:+ s) = String.substring 0 n s.
Proof. induction p as [|c p IH]; intros n; simpl; [reflexivity | apply IH]. Qed.

Lemma length_append p s : String.length (p +:+ s) = (String.length p + String.length s)%nat.
Proof. induction p as [|c p IH]; simpl; [reflexivity | rewrite IH; reflexivity]. Qed.

Lemma split_at_first_prefix p s :
  String.prefix p s = true ->
  split_at_first p s
  = Some ("", String.substring (String.length p) (String.length s) s).
Proof. intros Hp. destruct s; simpl in *; rewrite Hp; reflexivity. Qed.

Lemma split_at_first_here p s : split_at_first p (p +:+ s) = Some ("", s).
Proof.
  rewrite split_at_first_prefix by apply prefix_app.
  rewrite substring_skip, substring0_all; [reflexivity|].
  rewrite length_append. lia.
Qed.

Lemma split_at_first_skip p c s :
  String.prefix p (String c s) = false ->
  split_at_first p (String c s)
  = match split_at_first p s with
    | Some (before, after) => Some (String c before, after)
    | None => None
    end.
Proof. intros Hno. simpl. simpl in Hno. rewrite Hno. reflexivity. Qed.

Lemma prefix_cons_ne a p c s : a <> c -> String.prefix (String a p) (String c s) = false.
Proof.
  intros Hne. cbn [String.prefix].
  destruct (ascii_dec a c) as [Heq|_]; [destruct (Hne Heq) | reflexivity].
Qed.

Lemma prefix_cons_eq a p s : String.prefix (String a p) (String a s) = String.prefix p s.
Proof.
  cbn [String.prefix].
  destruct (ascii_dec a a) as [_|Hne]; [reflexivity | destruct (Hne eq_refl)].
Qed.

Lemma append_cons c s t : String c s +:+ t = String c (s +:+ t).
Proof. reflexivity. Qed.

Lemma split_at_opening_fence pre rest :
  lacks backtick pre ->
  split_at_first fence_open (pre +:+ fence_open +:+ rest) = Some (pre, rest).
Proof.
  induction pre as [|c pre IH]; intros Hpre.
  - exact (split_at_first_here fence_open rest).
  - destruct Hpre as [Hc Hpre]. rewrite append_cons, split_at_first_skip.
    + rewrite (IH Hpre). reflexivity.
    + apply prefix_cons_ne. intros Heq. apply Hc. symmetry. exact Heq.
Qed.

Lemma split_at_closing_fence body post :
  lacks backtick body ->
  split_at_first fence_close (body +:+ fence_close +:+ post) = Some (body, post).
Proof.
  induction body as [|c body IH]; intros Hbody.
  - exact (split_at_first_here fence_close post).
  - destruct Hbody as [Hc Hbody]. rewrite append_cons, split_at_first_skip.
    + rewrite (IH Hbody). reflexivity.
    + unfold fence_close.
      destruct (ascii_dec "010" c) as [<-|Hne]; [|apply prefix_cons_ne, Hne].
      rewrite prefix_cons_eq. destruct body as [|d body].
      * reflexivity.
      * destruct Hbody as [Hd _]. rewrite append_cons.
        apply prefix_cons_ne. intros Heq. apply Hd. symmetry. exact Heq.
Qed.

Lemma no_opening_fence s : lacks backtick s -> split_at_first fence_open s = None.
Proof.
  induction s as [|c s IH]; intros Hs; [reflexivity|].
  destruct Hs as [Hc Hs]. rewrite split_at_first_skip.
  - rewrite (IH Hs). reflexivity.
  - apply prefix_cons_ne. intros Heq. apply Hc. symmetry. exact Heq.
Qed.

Lemma lacks_app c s t : lacks c (s +:+ t) <-> lacks c s /\ lacks c t.
Proof.
  induction s as [|d s IH]; simpl; [tauto|]. rewrite IH. tauto.
Qed.

Lemma upto_last_brace_none s : lacks "}" s -> upto_last_brace s = None.
Proof.
  induction s as [|c s IH]; intros Hs; [reflexivity|].
  destruct Hs as [Hc Hs]. simpl. rewrite (IH Hs).
  destruct (Ascii.eqb_spec c "}") as [Heq|_]; [destruct (Hc Heq) | reflexivity].
Qed.

Lemma upto_last_brace_closing body post :
  lacks "}" post -> upto_last_brace (body +:+ "}" +:+ post) = Some (body +:+ "}").
Proof.
  intros Hpost. induction body as [|c body IH].
  - change (upto_last_brace (String "}" post) = Some "}").
    cbn [upto_last_brace]. rewrite (upto_last_brace_none post Hpost). reflexivity.
  - rewrite append_cons. cbn [upto_last_brace]. rewrite IH. reflexivity.
Qed.

Lemma match_braces_opening pre rest :
  lacks "{" pre ->
  match_braces (pre +:+ "{" +:+ rest)
  = match upto_last_brace rest with
    | Some r => Some (String "{" r)
    | None => None
    end.
Proof.
  induction pre as [|c pre IH]; intros Hpre.
  - reflexivity.
  - destruct Hpre as [Hc Hpre]. rewrite append_cons. cbn [match_braces].
    destruct (Ascii.eqb_spec c "{") as [Heq|_]; [destruct (Hc Heq)|].
    apply (IH Hpre).
Qed.

Section WithHost.
Context `{Host}.

(** X16. A reply that wraps its JSON in a [```json] fence has exactly
    the text between the first opening fence and the closing fence parsed,
    whatever precedes the fence and whatever follows it. *)
Theorem fenced_json_is_taken_from_between_the_fences pre body post :
  lacks backtick pre -> lacks backtick body -> body <> "" ->
  jsonContent (pre +:+ fence_open +:+ body +:+ fence_close +:+ post) = Some body /\
  parseJsonResponse (pre +:+ fence_open +:+ body +:+ fence_close +:+ post)
  = match JSON_parse body with
    | Some parsed => cleanResponse parsed
    | None => None
    end.
Proof.
  intros Hpre Hbody Hne.
  assert (Hjson : jsonContent (pre +:+ fence_open +:+ body +:+ fence_close +:+ post)
                  = Some body).
  { unfold jsonContent, match_fenced_json.
    rewrite (split_at_opening_fence pre _ Hpre).
    rewrite (split_at_closing_fence body post Hbody).
    destruct (String.eqb_spec body "") as [Heq|_]; [destruct (Hne Heq) | reflexivity]. }
  split; [exact Hjson|]. unfold parseJsonResponse. rewrite Hjson. reflexivity.
Qed.

(** X17. A reply without a fence has the text from its first opening
    brace to its last closing brace parsed: the prose around the object is
    dropped, braces inside it are kept. *)
Theorem bare_json_is_taken_from_first_to_last_brace pre body post :
  lacks backtick (pre +:+ "{" +:+ body +:+ "}" +:+ post) ->
  lacks "{" pre -> lacks "}" post ->
  jsonContent (pre +:+ "{" +:+ body +:+ "}" +:+ post) = Some ("{" +:+ body +:+ "}") /\
  parseJsonResponse (pre +:+ "{" +:+ body +:+ "}" +:+ post)
  = match JSON_parse ("{" +:+ body +:+ "}") with
    | Some parsed => cleanResponse parsed
    | None => None
    end.
Proof.
  intros Hticks Hpre Hpost.
  assert (Hjson : jsonContent (pre +:+ "{" +:+ body +:+ "}" +:+ post)
                  = Some ("{" +:+ body +:+ "}")).
  { unfold jsonContent, match_fenced_json.
    rewrite (no_opening_fence _ Hticks).
    rewrite (match_braces_opening pre _ Hpre).
    rewrite (upto_last_brace_closing body post Hpost). reflexivity. }
  split; [exact Hjson|]. unfold parseJsonResponse. rewrite Hjson. reflexivity.
Qed.

End WithHost.

Import Scenarios.

Lemma fenced_json_is_taken_from_between_the_fences_witness :
  jsonContent
    ("Here is the plan:" +:+ fence_open +:+ "{}" +:+ fence_close +:+ " Done.")
  = Some "{}".
Proof.
  refine (proj1 (fenced_json_is_taken_from_between_the_fences (H := obedientHost)
                   "Here is the plan:" "{}" " Done." _ _ _)).
  - vm_compute. repeat split; discriminate.
  - vm_compute. repeat split; discriminate.
  - discriminate.
Defined.

Lemma bare_json_is_taken_from_first_to_last_brace_witness :
  jsonContent ("Plan: " +:+ "{" +:+ "{}, {}" +:+ "}" +:+ " end")
  = Some ("{" +:+ "{}, {}" +:+ "}").
Proof.
  refine (proj1 (bare_json_is_taken_from_first_to_last_brace (H := obedientHost)
                   "Plan: " "{}, {}" " end" _ _ _)).
  - vm_compute. repeat split; discriminate.
  - vm_compute. repeat split; discriminate.
  - vm_compute. repeat split; discriminate.
Defined.

(** ** The completion flag of each command *)

Lemma normalizeCommand_isTaskComplete raw :
  getv (normalizeCommand raw) "isTaskComplete" = getv (spread raw) "isTaskComplete".
Proof.
  unfold normalizeCommand, getv. cbv zeta. f_equal. split_ifs;
    repeat first [ rewrite lookup_delete_ne by done
                 | rewrite lookup_insert_ne by done ];
    reflexivity.
Qed.

Lemma addCompletionFlags_isTaskComplete flag cmd :
  getv (addCompletionFlags flag cmd) "isTaskComplete"
  = if is_undefined (getv cmd "isTaskComplete") then or_else flag (VBool false)
    else getv cmd "isTaskComplete".
Proof.
  unfold addCompletionFlags.
  destruct (is_undefined (getv cmd "isTaskComplete")) eqn:Hown;
    case_match; getv_steps; reflexivity.
Qed.

Lemma addCompletionFlags_other flag cmd k :
  k <> "isTaskComplete" -> k <> "isFinalCommand" ->
  addCompletionFlags flag cmd !! k = cmd !! k.
Proof.
  intros Htask Hfinal. unfold addCompletionFlags.
  repeat case_match;
    repeat (rewrite lookup_insert_ne by congruence); reflexivity.
Qed.

Lemma markLastFinal_lookup cmds : forall i c0,
  cmds !! i = Some c0 ->
  exists c, markLastFinal cmds !! i = Some c /\
            (c = c0 \/ c = <["isFinalCommand" := VBool true]> c0).
Proof.
  induction cmds as [|x [|y rest] IH]; intros i c0 Hi.
  - discriminate Hi.
  - destruct i as [|i]; [|discriminate Hi]. injection Hi as ->.
    eexists. split; [reflexivity|]. right. reflexivity.
  - change (markLastFinal (x :: y :: rest)) with (x :: markLastFinal (y :: rest)).
    destruct i as [|i].
    + injection Hi as ->. eexists. split; [reflexivity|]. left. reflexivity.
    + apply (IH i c0 Hi).
Qed.

Lemma or_else_defined flag : is_undefined (or_else flag (VBool false)) = false.
Proof. unfold or_else. destruct (truthy flag) eqn:Hflag; [|reflexivity]. destruct flag; [discriminate Hflag | reflexivity ..]. Qed.

Section Flags.
Context `{Host}.

(** X18. In a reply that parses as JSON every command comes out as its
    repaired form plus the two completion flags, and neither flag is ever
    left undefined: a command keeps the [isTaskComplete] it came with, and
    one that came without takes the reply's own [isTaskComplete] when that
    is truthy and [false] otherwise. *)
Theorem parsed_commands_inherit_task_completion content rest text parsed o raw i v :
  jsonContent content = Some text ->
  JSON_parse text = Some parsed ->
  properties parsed = Some o ->
  getv o "commands" = VArr raw ->
  raw !! i = Some v ->
  exists c,
    commands (parseModelResponse (Some (content :: rest))) !! i = Some c /\
    getv c "isTaskComplete"
    = (if is_undefined (getv (spread v) "isTaskComplete")
       then if truthy (getv o "isTaskComplete") then getv o "isTaskComplete"
            else VBool false
       else getv (spread v) "isTaskComplete") /\
    is_undefined (getv c "isTaskComplete") = false /\
    is_undefined (getv c "isFinalCommand") = false /\
    forall k, k <> "isTaskComplete" -> k <> "isFinalCommand" ->
              c !! k = normalizeCommand v !! k.
Proof.
  intros Hjson Hparse Hprops Hcmds Hi.
  rewrite (parseModelResponse_commands _ _ _ _ _ _ Hjson Hparse Hprops Hcmds).
  unfold processCommands.
  set (flag := getv o "isTaskComplete").
  set (c0 := addCompletionFlags flag (normalizeCommand v)).
  assert (Hc0 : (addCompletionFlags flag <$> (normalizeCommand <$> raw)) !! i = Some c0).
  { rewrite !list_lookup_fmap, Hi. reflexivity. }
  destruct (markLastFinal_lookup _ i c0 Hc0) as (c & Hc & Hshape).
  assert (Htask0 : getv c0 "isTaskComplete"
                   = if is_undefined (getv (spread v) "isTaskComplete")
                     then or_else flag (VBool false)
                     else getv (spread v) "isTaskComplete").
  { unfold c0. rewrite addCompletionFlags_isTaskComplete, normalizeCommand_isTaskComplete.
    reflexivity. }
  assert (Htask : getv c "isTaskComplete" = getv c0 "isTaskComplete").
  { destruct Hshape as [-> | ->]; [reflexivity|]. getv_steps. reflexivity. }
  assert (Hfinal0 : is_undefined (getv c0 "isFinalCommand") = false).
  { unfold c0. rewrite addCompletionFlags_isFinalCommand.
    destruct (is_undefined (getv (normalizeCommand v) "isFinalCommand")) eqn:Hu;
      [reflexivity | exact Hu]. }
  exists c. split; [exact Hc|]. split; [rewrite Htask; exact Htask0|].
  split; [|split].
  - rewrite Htask, Htask0.
    destruct (is_undefined (getv (spread v) "isTaskComplete")) eqn:Hu;
      [apply or_else_defined | exact Hu].
  - destruct Hshape as [-> | ->]; [exact Hfinal0|]. getv_steps. reflexivity.
  - intros k Htaskk Hfinalk.
    assert (Hk : c !! k = c0 !! k).
    { destruct Hshape as [-> | ->]; [reflexivity|].
      rewrite lookup_insert_ne by congruence. reflexivity. }
    rewrite Hk. unfold c0. apply addCompletionFlags_other; assumption.
Qed.

End Flags.

Lemma parsed_commands_inherit_task_completion_witness :
  exists c,
    commands (parseModelResponse (H := twoFinalsHost) (Some [twoFinalsText]))
      !! 0%nat = Some c /\
    getv c "isTaskComplete" = VBool false.
Proof.
  destruct (parsed_commands_inherit_task_completion (H := twoFinalsHost)
              twoFinalsText [] twoFinalsText twoFinalsValue _ _ 0%nat _
              eq_refl eq_refl eq_refl eq_refl eq_refl)
    as (c & Hc & Htask & _).
  exists c. split; [exact Hc|]. rewrite Htask. reflexivity.
Defined.

End ParsingMore.

(* ===================================================================== *)
(** * More on the session history, the prompts and the request *)
(* ===================================================================== *)

Module ContextMore.
Import Js DataModel Eff AiService AiServiceFacts SocketHandlersFacts ParsingMore.

(** ** What is kept of a response *)








(** ** How much history a prompt shows *)

Lemma slice_last_app {A} (older recent : list A) n :
  length recent = n -> slice_last n (older ++ recent) = recent.
Proof.
  intros <-. unfold slice_last. rewrite length_app.
  replace (length older + length recent - length recent)%nat with (length older) by lia.
  apply drop_app_length.
Qed.

Lemma slice_last_all {A} (l : list A) n : (length l <= n)%nat -> slice_last n l = l.
Proof.
  intros Hle. unfold slice_last.
  replace (length l - n)%nat with 0%nat by lia. reflexivity.
Qed.

Section WithHost.
Context `{Host}.

Lemma historyPrompt_window older recent lo lo' :
  length recent = 3%nat ->
  historyPrompt {| history := Some (older ++ recent); lastOperation := lo |}
  = historyPrompt {| history := Some recent; lastOperation := lo' |}.
Proof.
  intros Hlen. unfold historyPrompt. cbn [history].
  rewrite (slice_last_app older recent 3 Hlen).
  rewrite (slice_last_all recent 3) by lia.
  destruct recent as [|r recent]; [discriminate Hlen|].
  destruct (older ++ r :: recent) as [|x l] eqn:Happ; [|reflexivity].
  destruct older; discriminate Happ.
Qed.

(** X20. The instruction prompt shows the last three history items and
    nothing of the older ones; the correction prompt shows the newest item
    only; the continuation prompt shows none of the history. The
    last-operation record enters no prompt. *)
Theorem prompts_show_bounded_history :
  (forall instruction ui older recent lo lo',
     length recent = 3%nat ->
     buildInstructionPrompt instruction ui
       {| history := Some (older ++ recent); lastOperation := lo |}
     = buildInstructionPrompt instruction ui
         {| history := Some recent; lastOperation := lo' |}) /\
  (forall error ui older newest lo lo',
     buildErrorCorrectionPrompt error ui
       {| history := Some (older ++ [newest]); lastOperation := lo |}
     = buildErrorCorrectionPrompt error ui
         {| history := Some [newest]; lastOperation := lo' |}) /\
  (forall instruction previousCommand ui ctx ctx',
     buildContinuationPrompt instruction previousCommand ui ctx
     = buildContinuationPrompt instruction previousCommand ui ctx').
Proof.
  split; [|split].
  - intros instruction ui older recent lo lo' Hlen. unfold buildInstructionPrompt.
    rewrite (historyPrompt_window older recent lo lo' Hlen). reflexivity.
  - intros error ui older newest lo lo'. unfold buildErrorCorrectionPrompt.
    cbn [history]. rewrite (slice_last_app older [newest] 1 eq_refl).
    destruct (older ++ [newest]) as [|x l] eqn:Happ; [|reflexivity].
    destruct older; discriminate Happ.
  - reflexivity.
Qed.

(** The options with another UI snapshot. *)
Definition withUiElements (options : HandleInstructionOptions) (ui : UiSnapshot)
  : HandleInstructionOptions :=
  {| o_instruction := o_instruction options;
     o_screenshot := o_screenshot options;
     o_uiElements := Some ui;
     o_sessionContext := o_sessionContext options;
     o_isErrorCorrection := o_isErrorCorrection options;
     o_error := o_error options;
     o_isContinuation := o_isContinuation options;
     o_previousCommand := o_previousCommand options |}.

(** X21. No prompt carries the extracted UI tree: whichever of the three
    prompts is chosen, the messages sent for one UI snapshot are those sent
    for any other. The snapshot is interpolated as an object, which prints
    the same for every snapshot; only the screenshot tells the model what
    is on the screen. *)
Theorem request_does_not_depend_on_the_ui_tree options ui ui' w :
  requestOf (withUiElements options ui) w = requestOf (withUiElements options ui') w.
Proof.
  unfold requestOf, choosePrompt. cbn [withUiElements o_sessionContext o_screenshot
    o_isErrorCorrection o_error o_isContinuation o_previousCommand o_uiElements
    o_instruction].
  destruct (o_isErrorCorrection options), (o_error options),
    (o_isContinuation options), (o_previousCommand options); reflexivity.
Qed.

(** ** One request, one context *)

(** The context object at address [l]. *)
Definition contextAt (w : World) (l : nat) : SessionContext :=
  default emptyContext (store w !! l).

Lemma updateSessionContext_Throw item timestamp ctx m updated :
  updateSessionContext item timestamp ctx = (Throw m, updated) ->
  default [] (history updated) = default [] (history ctx) /\
  lastOperation updated = lastOperation ctx.
Proof.
  unfold updateSessionContext.
  destruct (simplifyResponse (parsedResponse item)); [discriminate|].
  intros Heq. injection Heq as _ <-. split; reflexivity.
Qed.

Lemma updateSessionContext_not_Starved item timestamp ctx updated :
  updateSessionContext item timestamp ctx <> (Starved, updated).
Proof.
  unfold updateSessionContext.
  destruct (simplifyResponse (parsedResponse item)); discriminate.
Qed.

(** The world after the request was sent. *)
Definition posted (options : HandleInstructionOptions) (w : World) : World :=
  mkWorld (trace w ++ [Post (requestOf options w)
                            (failureOf (model_at (posts w) (requestOf options w)))])
          (store w) (socket_sessionContext w) (captures w) (S (posts w)) (adbs w)
          (clock w).

(** [handleAIInstruction] step by step. *)
Lemma handleAIInstruction_run options w :
  handleAIInstruction options w
  = if negb configured then (Throw "API配置错误", w)
    else match model_at (posts w) (requestOf options w) with
         | inl m => (Throw m, posted options w)
         | inr data =>
             (updateSessionContextAt (o_sessionContext options)
                (newItemOf options (parseModelResponse data));;;
              ret (parseModelResponse data)) (posted options w)
         end.
Proof.
  unfold handleAIInstruction. cbv zeta.
  unfold bind at 1. unfold load at 1.
  unfold bind at 1. unfold callLLMAPI.
  destruct configured; cbn [negb]; [|reflexivity].
  fold (requestOf options w). unfold posted.
  destruct (model_at (posts w) (requestOf options w)) as [m|data]; reflexivity.
Qed.

(** X22. [handleAIInstruction] sends at most one request and none when
    the endpoint is not configured; it captures no screen, drives no device
    and leaves every context but the one it was given untouched; and the
    history of that context grows only when the call returns: a request
    that fails, or a reply whose thinking is not a string, leaves its items
    as they were. *)
Theorem handleAIInstruction_asks_once_and_appends_on_return options w :
  let run := handleAIInstruction options w in
  (posts (snd run) <= S (posts w))%nat /\
  captures (snd run) = captures w /\
  adbs (snd run) = adbs w /\
  socket_sessionContext (snd run) = socket_sessionContext w /\
  length (store (snd run)) = length (store w) /\
  (forall l, l <> o_sessionContext options -> store (snd run) !! l = store w !! l) /\
  (configured = false -> run = (Throw "API配置错误", w)) /\
  match fst run with
  | Ok _ => posts (snd run) = S (posts w)
  | _ => default [] (history (contextAt (snd run) (o_sessionContext options)))
         = default [] (history (contextAt w (o_sessionContext options)))
  end.
Proof.
  intros run. subst run. rewrite handleAIInstruction_run.
  destruct configured; cbn [negb].
  2: { cbn [fst snd]. repeat split; auto. }
  destruct (model_at (posts w) (requestOf options w)) as [m|data] eqn:Hmodel.
  { cbn [fst snd posted posts captures adbs socket_sessionContext store].
    repeat split; auto. discriminate. }
  unfold bind, updateSessionContextAt.
  cbn [posted store clock trace socket_sessionContext captures posts adbs].
  set (l := o_sessionContext options).
  destruct (updateSessionContext _ _ _) as [[[]| |] updated] eqn:Hupd.
  - unfold ret. cbn [fst snd posts captures adbs socket_sessionContext store].
    repeat split; auto; try discriminate.
    + apply length_insert.
    + intros l' Hne. apply list_lookup_insert_ne. congruence.
  - cbn [fst snd posts captures adbs socket_sessionContext store].
    repeat split; auto; try discriminate.
    + apply length_insert.
    + intros l' Hne. apply list_lookup_insert_ne. congruence.
    + apply updateSessionContext_Throw in Hupd as [Hhist _].
      unfold contextAt. cbn [store].
      destruct (decide (l < length (store w))%nat) as [Hin|Hout].
      * rewrite list_lookup_insert_eq by exact Hin. exact Hhist.
      * rewrite list_insert_ge by lia. reflexivity.
  - destruct (updateSessionContext_not_Starved _ _ _ _ Hupd).
Qed.

End WithHost.

Lemma prompts_show_bounded_history_witness :
  buildInstructionPrompt (H := Scenarios.obedientHost) "next" None Scenarios.fullContext
  = buildInstructionPrompt (H := Scenarios.obedientHost) "next" None
      {| history := Some [ Scenarios.remembered "i3" "t3"; Scenarios.remembered "i4" "t4";
                           Scenarios.remembered "i5" "t5" ];
         lastOperation := None |}.
Proof.
  exact (proj1 (prompts_show_bounded_history (H := Scenarios.obedientHost))
           "next" None [Scenarios.remembered "i1" "t1"; Scenarios.remembered "i2" "t2"]
           [Scenarios.remembered "i3" "t3"; Scenarios.remembered "i4" "t4";
            Scenarios.remembered "i5" "t5"] None None eq_refl).
Defined.

(** A server whose endpoint is not configured. *)
Definition unconfiguredHost : Host :=
  {| JSON_parse := fun _ => None;
     JSON_stringify := fun _ => "{}";
     js_String := fun v => match v with VStr s => s | _ => "" end;
     match_commands := fun _ => None;
     match_thinking := fun _ => None;
     trim := fun s => s;
     BASE_SYSTEM_PROMPT := "BASE";
     INSTRUCTION_RULES := "INSTRUCT";
     CORRECTION_RULES := "CORRECT";
     CONTINUATION_RULES := fun instruction => "CONTINUE " +:+ instruction;
     configured := false;
     screen_at := Scenarios.screenAlways;
     model_at := fun n _ => Scenarios.noReplies n;
     adb_at := Scenarios.deviceAlways;
     now_at := fun n => pretty n |}.

Lemma handleAIInstruction_asks_once_and_appends_on_return_witness :
  handleAIInstruction (H := unconfiguredHost)
    (instructionOptions "open settings" Scenarios.aScreen 0) initialWorld
  = (Throw "API配置错误", initialWorld).
Proof.
  apply (handleAIInstruction_asks_once_and_appends_on_return (H := unconfiguredHost)
           (instructionOptions "open settings" Scenarios.aScreen 0) initialWorld).
  reflexivity.
Defined.

End ContextMore.

(* ===================================================================== *)
(** * More on the orchestration: where a run stops *)
(* ===================================================================== *)

Module SequenceMore.
Import Js DataModel Eff AndroidConnection CommandExecutor AiService SocketHandlers.
Import AiServiceFacts CommandExecutorFacts SocketHandlersFacts.
Import CommandExecutorMore ContextMore.

Section WithHost.
Context `{Host}.

(** ** Where a sequence stops *)

Lemma executeCommandSequence_unfold fuel command rest instruction :
  executeCommandSequence fuel (command :: rest) instruction
  = (let* result := executeAndHandleSingleCommand fuel command in
     (if success result && negb (truthy (getv command "isTaskComplete"))
      then match fuel with
           | O => starve
           | S fuel' => continueTaskExecution fuel' instruction command
           end
      else ret tt);;;
     if negb (success result) || truthy (getv command "isTaskComplete")
     then ret tt
     else executeCommandSequence fuel rest instruction).
Proof. destruct fuel; reflexivity. Qed.

(** X23. The commands after a command are reached only when that command
    succeeded, is not marked complete and its continuation round returned.
    After a command marked complete nothing follows, not even a
    continuation round; after a command that failed (and was put through
    error correction) the sequence ends normally; and a continuation round
    that throws ends the sequence with that error, as nothing in between
    catches it. *)
Theorem sequence_ends_at_completed_or_failed_command :
  (forall fuel command rest instruction w,
     truthy (getv command "isTaskComplete") = true ->
     executeCommandSequence fuel (command :: rest) instruction w
     = (executeAndHandleSingleCommand fuel command;;; ret tt) w) /\
  (forall fuel command rest instruction w result w1,
     executeAndHandleSingleCommand fuel command w = (Ok result, w1) ->
     success result = false ->
     executeCommandSequence fuel (command :: rest) instruction w = (Ok tt, w1)) /\
  (forall fuel command rest instruction w result w1 message w2,
     executeAndHandleSingleCommand (S fuel) command w = (Ok result, w1) ->
     success result = true ->
     truthy (getv command "isTaskComplete") = false ->
     continueTaskExecution fuel instruction command w1 = (Throw message, w2) ->
     executeCommandSequence (S fuel) (command :: rest) instruction w
     = (Throw message, w2)).
Proof.
  split; [|split].
  - intros fuel command rest instruction w Hdone.
    rewrite executeCommandSequence_unfold, Hdone. unfold bind.
    destruct (executeAndHandleSingleCommand fuel command w) as [[result| |] w1];
      [|reflexivity|reflexivity].
    rewrite andb_false_r, orb_true_r. reflexivity.
  - intros fuel command rest instruction w result w1 Hrun Hfailed.
    rewrite executeCommandSequence_unfold. unfold bind. rewrite Hrun, Hfailed.
    reflexivity.
  - intros fuel command rest instruction w result w1 message w2 Hrun Hok Hopen Hround.
    rewrite executeCommandSequence_unfold. unfold bind. rewrite Hrun, Hok, Hopen.
    cbn [andb negb]. rewrite Hround. reflexivity.
Qed.

(** ** An instruction whose first step fails *)

Lemma receiveInstruction_capture_failure instruction w failure :
  screen_at (captures w) = inl failure ->
  receiveInstruction instruction w
  = (Throw failure,
     mkWorld (trace w ++ [Capture (Some failure)]) (store w) (socket_sessionContext w)
             (S (captures w)) (posts w) (adbs w) (clock w)).
Proof.
  intros Hscreen. unfold receiveInstruction.
  unfold bind at 1. unfold getCurrentScreenState. rewrite Hscreen. reflexivity.
Qed.

Lemma receiveInstruction_request_failure instruction w state :
  screen_at (captures w) = inr state ->
  match (if negb configured then inl "API配置错误"
         else match model_at (posts w) (instructionMessages instruction state (contextInUse w)) with
              | inl failure => inl failure
              | inr _ => inr tt
              end) with
  | inl failure =>
      exists w',
        receiveInstruction instruction w = (Throw failure, w') /\
        trace w' = trace w ++
          [Capture None; Emit "handle-instruction-start" VUndef] ++
          (if negb configured then []
           else [Post (instructionMessages instruction state (contextInUse w))
                      (Some failure)]) /\
        adbs w' = adbs w /\
        socket_sessionContext w' = socket_sessionContext w /\
        posts w' = (if negb configured then posts w else S (posts w))
  | inr _ => True
  end.
Proof.
  intros Hscreen. unfold receiveInstruction.
  set (w0 := mkWorld ((trace w ++ [Capture None]) ++ [Emit "handle-instruction-start" VUndef])
               (store w) (socket_sessionContext w) (S (captures w)) (posts w) (adbs w)
               (clock w)).
  destruct (sessionContextOrFresh_load w0)
    as (l & w1 & Hctx & Htr & Hcap & Hpost & Hadb & _ & Hsock & Hload).
  pose proof (handleAIInstruction_run (instructionOptions instruction state l) w1) as Hrun.
  rewrite (instruction_request _ _ _ _ _ Hload), Hpost in Hrun.
  change (contextInUse w0) with (contextInUse w) in Hrun.
  change (posts w0) with (posts w) in Hrun.
  assert (Hstart : forall failure w',
    handleAIInstruction (instructionOptions instruction state l) w1 = (Throw failure, w') ->
    receiveInstruction instruction w = (Throw failure, w')).
  { intros failure w' Hthrow. unfold receiveInstruction.
    rewrite (bind_Ok _ _ _ _ _ (getCurrentScreenState_ok w state Hscreen)).
    rewrite (bind_Ok _ _ _ _ _ (emit_run _ _ _)). fold w0.
    rewrite (bind_Ok _ _ _ _ _ Hctx).
    fold (instructionOptions instruction state l).
    rewrite (bind_Throw _ _ _ _ _ Hthrow). reflexivity. }
  destruct configured; cbn [negb] in *.
  - destruct (model_at (posts w) (instructionMessages instruction state (contextInUse w)))
      as [failure|data] eqn:Hmodel; [|exact I].
    eexists. split; [apply Hstart; exact Hrun|].
    unfold posted. cbn [trace adbs socket_sessionContext posts].
    rewrite (instruction_request _ _ _ _ _ Hload), Hpost.
    change (contextInUse w0) with (contextInUse w).
    change (posts w0) with (posts w). rewrite Hmodel. cbn [failureOf].
    rewrite Htr, Hadb, Hsock. subst w0. cbn [trace adbs socket_sessionContext posts].
    rewrite <- !app_assoc. repeat split; reflexivity.
  - eexists. split; [apply Hstart; exact Hrun|].
    rewrite Htr, Hadb, Hsock, Hpost. subst w0.
    cbn [trace adbs socket_sessionContext posts].
    rewrite <- !app_assoc. repeat split; reflexivity.
Qed.

Lemma onSendInstruction_failure fuel instruction w failure w1 :
  receiveInstruction instruction w = (Throw failure, w1) ->
  onSendInstruction fuel instruction w
  = (Ok tt,
     mkWorld (trace w1 ++ [Emit "error" (errorNotice ("处理指令时出错: " +:+ failure))])
             (store w1) (socket_sessionContext w1) (captures w1) (posts w1) (adbs w1)
             (clock w1)).
Proof.
  intros Hrun. unfold onSendInstruction, try_catch.
  rewrite (bind_Throw _ _ _ _ _ Hrun). reflexivity.
Qed.

(** X24. An instruction whose first step fails is reported to the client
    once and nothing is executed. When the screen cannot be captured the
    only events are the failed capture and the ['error'] notice with the
    capture's message, and no request is sent; when the endpoint is not
    configured, or the request fails, the notice carries that error, no
    device command is sent and the socket keeps the context it had. The
    handler itself returns normally, whatever the fuel. *)
Theorem failed_first_step_is_reported_and_nothing_runs :
  (forall fuel instruction w failure,
     screen_at (captures w) = inl failure ->
     onSendInstruction fuel instruction w
     = (Ok tt,
        mkWorld (trace w ++ [ Capture (Some failure);
                              Emit "error" (errorNotice ("处理指令时出错: " +:+ failure)) ])
                (store w) (socket_sessionContext w) (S (captures w)) (posts w) (adbs w)
                (clock w))) /\
  (forall fuel instruction w state,
     screen_at (captures w) = inr state ->
     configured = false ->
     exists w',
       onSendInstruction fuel instruction w = (Ok tt, w') /\
       trace w' = trace w ++
         [ Capture None; Emit "handle-instruction-start" VUndef;
           Emit "error" (errorNotice ("处理指令时出错: " +:+ "API配置错误")) ] /\
       posts w' = posts w /\ adbs w' = adbs w /\
       socket_sessionContext w' = socket_sessionContext w) /\
  (forall fuel instruction w state failure,
     screen_at (captures w) = inr state ->
     configured = true ->
     model_at (posts w) (instructionMessages instruction state (contextInUse w))
       = inl failure ->
     exists w',
       onSendInstruction fuel instruction w = (Ok tt, w') /\
       trace w' = trace w ++
         [ Capture None; Emit "handle-instruction-start" VUndef;
           Post (instructionMessages instruction state (contextInUse w)) (Some failure);
           Emit "error" (errorNotice ("处理指令时出错: " +:+ failure)) ] /\
       posts w' = S (posts w) /\ adbs w' = adbs w /\
       socket_sessionContext w' = socket_sessionContext w).
Proof.
  split; [|split].
  - intros fuel instruction w failure Hscreen.
    rewrite (onSendInstruction_failure _ _ _ _ _
               (receiveInstruction_capture_failure instruction w failure Hscreen)).
    cbn [trace store socket_sessionContext captures posts adbs clock].
    rewrite <- app_assoc. reflexivity.
  - intros fuel instruction w state Hscreen Hconf.
    pose proof (receiveInstruction_request_failure instruction w state Hscreen) as Hfail.
    rewrite Hconf in Hfail. cbn [negb] in Hfail.
    destruct Hfail as (w1 & Hrun & Htr & Hadb & Hsock & Hposts).
    eexists. split; [exact (onSendInstruction_failure fuel _ _ _ _ Hrun)|].
    cbn [trace posts adbs socket_sessionContext]. rewrite Htr, <- !app_assoc.
    repeat split; assumption.
  - intros fuel instruction w state failure Hscreen Hconf Hmodel.
    pose proof (receiveInstruction_request_failure instruction w state Hscreen) as Hfail.
    rewrite Hconf, Hmodel in Hfail. cbn [negb] in Hfail.
    destruct Hfail as (w1 & Hrun & Htr & Hadb & Hsock & Hposts).
    eexists. split; [exact (onSendInstruction_failure fuel _ _ _ _ Hrun)|].
    cbn [trace posts adbs socket_sessionContext]. rewrite Htr, <- !app_assoc.
    repeat split; assumption.
Qed.

End WithHost.

(** A server that cannot reach the device's screen. *)
Definition blindHost : Host :=
  Scenarios.scriptedHost [] (fun _ => inl "device offline") Scenarios.noReplies
    Scenarios.deviceAlways.

(** A command that completes the task. *)
Definition lastStep : obj := {[ "type" := VStr "back"; "isTaskComplete" := VBool true ]}.

Lemma sequence_ends_at_completed_or_failed_command_witness :
  executeCommandSequence (H := Scenarios.obedientHost) 0 [lastStep; Scenarios.tapAt 1 2]
    "go back" initialWorld
  = (executeAndHandleSingleCommand (H := Scenarios.obedientHost) 0 lastStep;;; ret tt)
      initialWorld.
Proof.
  apply (proj1 (sequence_ends_at_completed_or_failed_command (H := Scenarios.obedientHost))).
  reflexivity.
Defined.

Lemma failed_first_step_is_reported_and_nothing_runs_witness :
  onSendInstruction (H := blindHost) 0 "open settings" initialWorld
  = (Ok tt,
     mkWorld [ Capture (Some "device offline");
               Emit "error" (errorNotice ("处理指令时出错: " +:+ "device offline")) ]
             [] None 1 0 0 0).
Proof.
  apply (proj1 (failed_first_step_is_reported_and_nothing_runs (H := blindHost))
           0%nat "open settings" initialWorld "device offline").
  reflexivity.
Defined.

End SequenceMore.

(* ===================================================================== *)
(** * The history bound through the handler *)
(* ===================================================================== *)

Module HistoryMore.
Import Js DataModel Eff AndroidConnection CommandExecutor AiService SocketHandlers.
Import AiServiceFacts CommandExecutorFacts SocketHandlersFacts.
Import CommandExecutorMore ContextMore.

(** ** The history bound as an invariant of the store *)

(** A context whose history holds at most [MAX_CONTEXT_ITEMS] items. *)
Definition bounded (ctx : SessionContext) : Prop :=
  (length (default [] (history ctx)) <= MAX_CONTEXT_ITEMS)%nat.

(** Every context object there is is bounded. *)
Definition tidy (w : World) : Prop := Forall bounded (store w).

(** From a tidy world [c] ends in a tidy world, with a result that
    satisfies [Q] when it returns. *)
Definition tidily {A} (Q : A -> Prop) (c : M A) : Prop :=
  forall w, tidy w ->
    tidy (snd (c w)) /\ match fst (c w) with Ok a => Q a | _ => True end.


Lemma tidily_weaken {A} (Q Q' : A -> Prop) c :
  tidily Q c -> (forall a, Q a -> Q' a) -> tidily Q' c.
Proof.
  intros Hc Himp w Hw. destruct (Hc w Hw) as [Htidy HQ]. split; [exact Htidy|].
  destruct (fst (c w)); auto.
Qed.


Lemma tidily_throw {A} (Q : A -> Prop) m : tidily Q (throw m).
Proof. intros w Hw. split; [exact Hw | exact I]. Qed.










Section WithHost.
Context `{Host}.














End WithHost.

Import Scenarios.



End HistoryMore.

(* ===================================================================== *)
(** * Later instructions of a socket *)
(* ===================================================================== *)

Module RetentionMore.
Import Js DataModel Eff AndroidConnection CommandExecutor AiService SocketHandlers.
Import AiServiceFacts CommandExecutorFacts SocketHandlersFacts.
Import CommandExecutorMore ContextMore.

Section WithHost.
Context `{Host}.

(** X26. On a socket that already has a session context, an instruction
    that gets its reply is remembered: the socket is given a new context
    object whose history is the old history followed by the item of this
    instruction, cut to the five newest. *)
Theorem later_instruction_item_is_retained instruction w response w' l old :
  socket_sessionContext w = Some l ->
  store w !! l = Some old ->
  receiveInstruction instruction w = (Ok response, w') ->
  exists state condensed,
    screen_at (captures w) = inr state /\
    simplifyResponse response = Some condensed /\
    socket_sessionContext w' = Some (length (store w)) /\
    socketHistory w'
    = Some (slice_last 5 (default [] (history old)
                          ++ [itemFor instruction state condensed])).
Proof.
  intros Hsock Hold Hrun. unfold receiveInstruction in Hrun.
  unfold bind at 1 in Hrun. unfold getCurrentScreenState at 1 in Hrun.
  destruct (screen_at (captures w)) as [m|state] eqn:Hscreen; [discriminate|].
  unfold bind at 1 in Hrun.
  cbn [emit record trace store socket_sessionContext captures posts adbs clock] in Hrun.
  set (w0 := mkWorld _ _ _ _ _ _ _) in Hrun.
  assert (Hctx : sessionContextOrFresh w0 = (Ok l, w0)).
  { unfold sessionContextOrFresh, bind, get_socket_sessionContext. subst w0.
    cbn [socket_sessionContext]. rewrite Hsock. reflexivity. }
  rewrite (bind_Ok _ _ _ _ _ Hctx) in Hrun.
  fold (instructionOptions instruction state l) in Hrun.
  destruct (handleAIInstruction (instructionOptions instruction state l) w0)
    as [[r| |] w2] eqn:Hai;
    [ rewrite (bind_Ok _ _ _ _ _ Hai) in Hrun
    | rewrite (bind_Throw _ _ _ _ _ Hai) in Hrun; discriminate
    | rewrite (bind_Starved _ _ _ _ Hai) in Hrun; discriminate ].
  destruct (handleAIInstruction_Ok _ _ _ _ Hai) as (data & updated & Hmodel & -> & Hupd & ->).
  cbn [o_sessionContext instructionOptions] in Hupd.
  assert (Hload : default emptyContext (store w0 !! l) = old).
  { subst w0. cbn [store]. rewrite Hold. reflexivity. }
  rewrite Hload in Hupd.
  destruct (updateSessionContext_Ok _ _ _ _ Hupd) as (condensed & Hsimple & Hhist & _).
  cbn [parsedResponse newItemOf] in Hsimple.
  assert (Hitem : stored (newItemOf (instructionOptions instruction state l)
                            (parseModelResponse data)) condensed
                  = itemFor instruction state condensed) by reflexivity.
  rewrite Hitem in Hhist.
  assert (Hin : (l < length (store w))%nat) by (eapply lookup_lt_Some; exact Hold).
  unfold bind, get_socket_sessionContext, load, ret, now, alloc,
    set_socket_sessionContext in Hrun.
  cbn [socket_sessionContext store trace captures posts adbs clock
       o_sessionContext instructionOptions] in Hrun.
  subst w0. cbn [socket_sessionContext store trace captures posts adbs clock] in Hrun.
  rewrite Hsock in Hrun.
  cbn [socket_sessionContext store trace captures posts adbs clock] in Hrun.
  rewrite list_lookup_insert_eq in Hrun by exact Hin.
  change (default emptyContext (Some updated)) with updated in Hrun.
  rewrite Hhist in Hrun.
  injection Hrun as <- <-.
  exists state, condensed.
  split; [reflexivity|]. split; [exact Hsimple|].
  cbn [socket_sessionContext]. rewrite length_insert.
  split; [reflexivity|].
  unfold socketHistory. cbn [socket_sessionContext store].
  replace (length (store w)) with (length (<[l := updated]> (store w)))
    by apply length_insert.
  rewrite lookup_fresh. reflexivity.
Qed.

End WithHost.

(** A socket that already holds a full context. *)
Definition knownSocket : World := mkWorld [] [Scenarios.fullContext] (Some 0%nat) 0 0 0 0.

Lemma later_instruction_item_is_retained_witness :
  exists response w' newest,
    receiveInstruction (H := Scenarios.idleHost) "next" knownSocket = (Ok response, w') /\
    (length <$> socketHistory w') = Some 5%nat /\
    (socketHistory w' ≫= last) = Some newest /\
    instruction newest = "next".
Proof.
  destruct (receiveInstruction (H := Scenarios.idleHost) "next" knownSocket)
    as [[response| |] w'] eqn:Hrun; try (vm_compute in Hrun; discriminate Hrun).
  destruct (later_instruction_item_is_retained (H := Scenarios.idleHost)
              "next" knownSocket response w' 0%nat Scenarios.fullContext
              eq_refl eq_refl Hrun) as (state & condensed & _ & _ & _ & Hhist).
  exists response, w'. eexists. split; [reflexivity|]. rewrite Hhist.
  split; [reflexivity|]. split; reflexivity.
Defined.

End RetentionMore.

(* ===================================================================== *)
(** * Properties of the escaped text *)
(* ===================================================================== *)

Module InputTextMore.
Import Js InputText ParsingMore.

(** ** The escaped text *)

(** Text within ASCII. *)
Definition ascii_only (text : string) : Prop :=
  Forall (fun c => (nat_of_ascii c < 128)%nat) (chars text).

Lemma escapeSpecials_app s t : escapeSpecials (s +:+ t) = escapeSpecials s +:+ escapeSpecials t.
Proof.
  induction s as [|c s IH]; [reflexivity|].
  rewrite append_cons. cbn [escapeSpecials]. rewrite IH.
  destruct (special c); reflexivity.
Qed.

Lemma escapeSpaces_app s t : escapeSpaces (s +:+ t) = escapeSpaces s +:+ escapeSpaces t.
Proof.
  induction s as [|c s IH]; [reflexivity|].
  rewrite append_cons. cbn [escapeSpaces]. rewrite IH.
  destruct (whitespace c); reflexivity.
Qed.

Lemma escapedText_app s t : escapedText (s +:+ t) = escapedText s +:+ escapedText t.
Proof. unfold escapedText. rewrite escapeSpecials_app. apply escapeSpaces_app. Qed.

Lemma escapeSpaces_clean s :
  Forall (fun c => whitespace c = false) (chars (escapeSpaces s)).
Proof.
  induction s as [|c s IH]; [constructor|].
  cbn [escapeSpaces]. destruct (whitespace c) eqn:Hc.
  - constructor; [reflexivity|]. constructor; [reflexivity | exact IH].
  - constructor; [exact Hc | exact IH].
Qed.

Lemma escapeSpecials_keeps s c : In c (chars s) -> In c (chars (escapeSpecials s)).
Proof.
  induction s as [|d s IH]; [intros []|].
  intros [<-|Hin]; cbn [escapeSpecials]; destruct (special d); simpl; auto.
Qed.

Lemma escapeSpaces_keeps s c :
  In c (chars s) -> whitespace c = false -> In c (chars (escapeSpaces s)).
Proof.
  induction s as [|d s IH]; [intros []|].
  intros [<-|Hin] Hc; cbn [escapeSpaces].
  - rewrite Hc. left. reflexivity.
  - destruct (whitespace d); simpl; auto.
Qed.

Lemma escapedText_plain s :
  Forall (fun c => special c = false /\ whitespace c = false) (chars s) ->
  escapedText s = s.
Proof.
  unfold escapedText. induction s as [|c s IH]; [reflexivity|].
  intros Hs. inversion Hs as [|? ? [Hspecial Hspace] Hrest]; subst.
  cbn [escapeSpecials]. rewrite Hspecial. cbn [escapeSpaces]. rewrite Hspace.
  rewrite (IH Hrest). reflexivity.
Qed.

(** X27. The text [inputText] puts on the command line, for ASCII text:
    no whitespace is left in it; every other character of the text is still
    there, so a double quote, a dollar sign, a backtick or a backslash
    reaches the shell as typed; text without whitespace and without any of
    [( ) & | ;] goes through unchanged; and a space and a literal [%s] give
    the same command line, so the two cannot be told apart on the device. *)
Theorem escaped_text_has_no_space_and_keeps_the_rest text :
  ascii_only text ->
  Forall (fun c => whitespace c = false) (chars (escapedText text)) /\
  (forall c, In c (chars text) -> whitespace c = false -> In c (chars (escapedText text))) /\
  (Forall (fun c => special c = false /\ whitespace c = false) (chars text) ->
   escapedText text = text) /\
  (forall pre post, text = pre +:+ " " +:+ post ->
     escapedText text = escapedText (pre +:+ "%s" +:+ post)).
Proof.
  intros _. split; [|split; [|split]].
  - apply escapeSpaces_clean.
  - intros c Hin Hc. apply escapeSpaces_keeps; [apply escapeSpecials_keeps, Hin | exact Hc].
  - apply escapedText_plain.
  - intros pre post ->. rewrite !escapedText_app. reflexivity.
Qed.

Lemma escaped_text_has_no_space_and_keeps_the_rest_witness :
  escapedText "rain (today) & tomorrow"
  = escapedText ("rain (today) &" +:+ "%s" +:+ "tomorrow") /\
  In "&"%char (chars (escapedText "rain (today) & tomorrow")).
Proof.
  assert (Hascii : ascii_only "rain (today) & tomorrow").
  { unfold ascii_only. vm_compute. repeat constructor. }
  destruct (escaped_text_has_no_space_and_keeps_the_rest _ Hascii)
    as (_ & Hkeep & _ & Hspace).
  split.
  - exact (Hspace "rain (today) &" "tomorrow" eq_refl).
  - apply Hkeep; [|reflexivity]. vm_compute. tauto.
Defined.

End InputTextMore.

(* ===================================================================== *)
(** * Properties of the REST sessions *)
(* ===================================================================== *)

Module AiRoutesFacts.
Import Js DataModel Eff AndroidConnection AiService SocketHandlers AiRoutes.
Import AiServiceFacts CommandExecutorFacts SocketHandlersFacts ContextMore.

(** The session map refers to context objects that exist, under the id
    each of them carries, and no id is empty. *)
Definition wellKept (sessions : Sessions) (w : World) : Prop :=
  forall id l, byId sessions !! id = Some l ->
    idOf sessions !! l = Some id /\ id <> "" /\ (l < length (store w))%nat.

Lemma wellKept_none w : wellKept noSessions w.
Proof. intros id l Hl. cbn [noSessions byId] in Hl. rewrite lookup_empty in Hl. discriminate Hl. Qed.

Lemma knownSession_Some sessionId sessions l :
  knownSession sessionId sessions = Some l ->
  exists id, sessionId = VStr id /\ id <> "" /\ byId sessions !! id = Some l.
Proof.
  unfold knownSession. destruct sessionId as [| | | |id| |]; try discriminate.
  destruct id as [|c id]; [discriminate|]. simpl. intros Hl.
  exists (String c id). split; [reflexivity|]. split; [discriminate | exact Hl].
Qed.

Section WithHost.
Context `{Host}.

Lemma handleAIInstruction_not_Starved options w :
  fst (handleAIInstruction options w) <> Starved.
Proof.
  rewrite handleAIInstruction_run.
  destruct configured; cbn [negb]; [|discriminate].
  destruct (model_at _ _); [discriminate|].
  unfold bind, updateSessionContextAt.
  destruct (updateSessionContext _ _ _) as [[[]| |] updated] eqn:Hupd;
    try discriminate.
  destruct (updateSessionContext_not_Starved _ _ _ _ Hupd).
Qed.

Lemma handleAIInstruction_store options w :
  length (store (snd (handleAIInstruction options w))) = length (store w).
Proof.
  rewrite handleAIInstruction_run.
  destruct configured; cbn [negb]; [|reflexivity].
  destruct (model_at _ _); [reflexivity|].
  unfold bind, updateSessionContextAt.
  destruct (updateSessionContext _ _ _) as [[[]| |] updated];
    unfold ret; cbn [snd store posted]; rewrite ?length_insert; reflexivity.
Qed.

(** The options [POST /instruction] passes on. *)
Definition postOptions (instruction : option string) (state : ScreenState) (l : nat)
  : HandleInstructionOptions :=
  {| o_instruction := instruction;
     o_screenshot := Some (screenshot state);
     o_uiElements := Some (uiElements state);
     o_sessionContext := l;
     o_isErrorCorrection := false;
     o_error := None;
     o_isContinuation := false;
     o_previousCommand := None |}.

(** The session a request runs in, and the map once the session is there. *)
Definition sessionFor (stamp : string) (sessionId : value) (sessions : Sessions)
    (w : World) : nat * Sessions :=
  match knownSession sessionId sessions with
  | Some l => (l, sessions)
  | None => (length (store w),
             {| byId := <[stamp := length (store w)]> (byId sessions);
                idOf := <[length (store w) := stamp]> (idOf sessions) |})
  end.

(** The world once [{}] is allocated. *)
Definition allocated (w : World) : World :=
  mkWorld (trace w) (store w ++ [emptyContext]) (socket_sessionContext w)
          (captures w) (posts w) (adbs w) (clock w).

Lemma sessionFor_wellKept stamp sessionId sessions w :
  stamp <> "" -> wellKept sessions w ->
  wellKept (snd (sessionFor stamp sessionId sessions w)) (allocated w) /\
  idOf (snd (sessionFor stamp sessionId sessions w))
    !! fst (sessionFor stamp sessionId sessions w)
  = Some (match knownSession sessionId sessions with
          | Some _ => match sessionId with VStr id => id | _ => "" end
          | None => stamp
          end) /\
  (fst (sessionFor stamp sessionId sessions w) < length (store (allocated w)))%nat.
Proof.
  intros Hstamp Hkept. unfold sessionFor.
  destruct (knownSession sessionId sessions) as [l|] eqn:Hknown; cbn [fst snd].
  - destruct (knownSession_Some _ _ _ Hknown) as (id & -> & Hid & Hl).
    destruct (Hkept id l Hl) as (Hof & _ & Hlt).
    split; [|split; [exact Hof|]].
    + intros id' l' Hl'. destruct (Hkept id' l' Hl') as (H1 & H2 & H3).
      split; [exact H1|]. split; [exact H2|].
      unfold allocated. cbn [store]. rewrite length_app. simpl. lia.
    + unfold allocated. cbn [store]. rewrite length_app. simpl. lia.
  - split; [|split].
    + intros id' l' Hl'. cbn [byId idOf] in *.
      destruct (decide (id' = stamp)) as [->|Hne].
      * rewrite lookup_insert_eq in Hl'. injection Hl' as <-.
        rewrite lookup_insert_eq. split; [reflexivity|]. split; [exact Hstamp|].
        unfold allocated. cbn [store]. rewrite length_app. simpl. lia.
      * rewrite lookup_insert_ne in Hl' by congruence.
        destruct (Hkept id' l' Hl') as (H1 & H2 & H3).
        rewrite lookup_insert_ne by lia.
        split; [exact H1|]. split; [exact H2|].
        unfold allocated. cbn [store]. rewrite length_app. simpl. lia.
    + cbn [idOf]. apply lookup_insert_eq.
    + unfold allocated. cbn [store]. rewrite length_app. simpl. lia.
Qed.

(** [POST /instruction] on a proper instruction, step by step. *)
Lemma postInstruction_run stamp instruction sessionId sessions w :
  String.eqb (default "" instruction) "" = false ->
  postInstruction stamp instruction sessionId sessions w
  = let '(l, sessions1) := sessionFor stamp sessionId sessions w in
    try_catch
      (let* state := getCurrentScreenState in
       let* response := handleAIInstruction (postOptions instruction state l) in
       let id := idOf sessions1 !! l in
       ret (Answered id response,
            match id with
            | Some id =>
                if String.eqb id "" then sessions1
                else {| byId := <[id := l]> (byId sessions1); idOf := idOf sessions1 |}
            | None => sessions1
            end))
      (fun errorMessage => ret (Rejected 500 errorMessage, sessions1))
      (allocated w).
Proof.
  intros Hinstruction. unfold postInstruction. rewrite Hinstruction.
  unfold bind at 1. unfold alloc at 1. fold (allocated w).
  unfold sessionFor. destruct (knownSession sessionId sessions); reflexivity.
Qed.

(** The id of the session a request runs in: the one the client named
    when there is such a session, a fresh one otherwise. *)
Definition sessionIdFor (stamp : string) (sessionId : value) (sessions : Sessions)
  : string :=
  match knownSession sessionId sessions with
  | Some _ => match sessionId with VStr id => id | _ => "" end
  | None => stamp
  end.

Lemma sessionFor_registered stamp sessionId sessions w :
  byId (snd (sessionFor stamp sessionId sessions w))
    !! sessionIdFor stamp sessionId sessions
  = Some (fst (sessionFor stamp sessionId sessions w)).
Proof.
  unfold sessionFor, sessionIdFor.
  destruct (knownSession sessionId sessions) as [l|] eqn:Hknown; cbn [fst snd byId].
  - destruct (knownSession_Some _ _ _ Hknown) as (id & -> & _ & Hl). exact Hl.
  - apply lookup_insert_eq.
Qed.

Lemma sessionIdFor_nonempty stamp sessionId sessions :
  stamp <> "" -> sessionIdFor stamp sessionId sessions <> "".
Proof.
  intros Hstamp. unfold sessionIdFor.
  destruct (knownSession sessionId sessions) as [l|] eqn:Hknown; [|exact Hstamp].
  destruct (knownSession_Some _ _ _ Hknown) as (id & -> & Hid & _). exact Hid.
Qed.

(** Registering a session a second time changes nothing. *)
Lemma registered_again (sessions : Sessions) id l :
  byId sessions !! id = Some l ->
  {| byId := <[id := l]> (byId sessions); idOf := idOf sessions |} = sessions.
Proof. intros Hl. rewrite (insert_id _ _ _ Hl). destruct sessions; reflexivity. Qed.


(** What [POST /instruction] answers on a proper instruction. *)
Lemma postInstruction_outcome stamp instruction sessionId sessions w :
  String.eqb (default "" instruction) "" = false ->
  stamp <> "" ->
  wellKept sessions w ->
  let l := fst (sessionFor stamp sessionId sessions w) in
  let sessions1 := snd (sessionFor stamp sessionId sessions w) in
  exists reply w',
    postInstruction stamp instruction sessionId sessions w = (Ok (reply, sessions1), w') /\
    length (store w') = length (store (allocated w)) /\
    match reply with
    | Answered id response =>
        id = Some (sessionIdFor stamp sessionId sessions) /\
        exists state w1,
          getCurrentScreenState (allocated w) = (Ok state, w1) /\
          handleAIInstruction (postOptions instruction state l) w1 = (Ok response, w')
    | Rejected status _ => status = 500
    | _ => False
    end.
Proof.
  intros Hinstruction Hstamp Hkept l sessions1.
  rewrite (postInstruction_run _ _ _ _ _ Hinstruction).
  destruct (sessionFor_wellKept stamp sessionId sessions w Hstamp Hkept)
    as (Hkept1 & Hid & Hlt).
  pose proof (sessionFor_registered stamp sessionId sessions w) as Hreg.
  fold (sessionIdFor stamp sessionId sessions) in Hid.
  fold l in Hid, Hlt, Hreg. fold sessions1 in Hid, Hkept1, Hreg.
  destruct (sessionFor stamp sessionId sessions w) as [l0 s0] eqn:Hfor.
  cbn [fst snd] in l, sessions1. subst l sessions1.
  unfold try_catch.
  destruct (getCurrentScreenState (allocated w)) as [[state|m|] w1] eqn:Hcapture.
  - assert (Hstore1 : store w1 = store (allocated w)).
    { unfold getCurrentScreenState in Hcapture.
      destruct (screen_at (captures (allocated w))); injection Hcapture as _ <-; reflexivity. }
    rewrite (bind_Ok _ _ _ _ _ Hcapture).
    pose proof (handleAIInstruction_not_Starved (postOptions instruction state l0) w1)
      as Hfed.
    pose proof (handleAIInstruction_store (postOptions instruction state l0) w1) as Hlen.
    destruct (handleAIInstruction (postOptions instruction state l0) w1)
      as [[response|m|] w2] eqn:Hai; cbn [fst snd] in *.
    + rewrite (bind_Ok _ _ _ _ _ Hai). rewrite Hid.
      destruct (String.eqb_spec (sessionIdFor stamp sessionId sessions) "") as [Hempty|_];
        [destruct (sessionIdFor_nonempty _ sessionId sessions Hstamp Hempty)|].
      rewrite (registered_again s0 _ _ Hreg).
      eexists _, _. split; [reflexivity|]. rewrite Hlen, Hstore1.
      split; [reflexivity|]. split; [reflexivity|]. eauto.
    + rewrite (bind_Throw _ _ _ _ _ Hai).
      eexists _, _. split; [reflexivity|]. rewrite Hlen, Hstore1.
      split; reflexivity.
    + destruct (Hfed eq_refl).
  - assert (Hstore1 : store w1 = store (allocated w)).
    { unfold getCurrentScreenState in Hcapture.
      destruct (screen_at (captures (allocated w))); injection Hcapture as _ <-; reflexivity. }
    rewrite (bind_Throw _ _ _ _ _ Hcapture).
    eexists _, _. split; [reflexivity|]. rewrite Hstore1. split; reflexivity.
  - unfold getCurrentScreenState in Hcapture.
    destruct (screen_at (captures (allocated w))); discriminate Hcapture.
Qed.


(** The item stored for an instruction of the REST route. *)
Definition itemOf (instruction : option string) (state : ScreenState)
    (condensed : SimpleAIResponse) : SessionHistoryItem SimpleAIResponse :=
  {| instruction := default "" instruction;
     item_screenshot := Some (shot_timestamp (screenshot state));
     item_uiElements := Some (ui_timestamp (uiElements state));
     parsedResponse := condensed |}.

(** The history a session held before a request. *)
Definition historyBefore (sessionId : value) (sessions : Sessions) (w : World)
  : list (SessionHistoryItem SimpleAIResponse) :=
  match knownSession sessionId sessions with
  | Some l => default [] (history (contextAt w l))
  | None => []
  end.

(** X29. An instruction answered over the REST route is remembered in its
    session from the first one on: asking for the session the answer names
    lists the history the session held before, followed by this instruction
    with the condensed response, cut to the five newest. *)
Theorem rest_instruction_is_retained
    stamp instruction sessionId sessions w id response sessions' w' :
  stamp <> "" ->
  wellKept sessions w ->
  postInstruction stamp instruction sessionId sessions w
  = (Ok (Answered id response, sessions'), w') ->
  exists state condensed,
    id = Some (sessionIdFor stamp sessionId sessions) /\
    simplifyResponse response = Some condensed /\
    getSession (sessionIdFor stamp sessionId sessions) sessions' w'
    = (Ok (Listed (sessionIdFor stamp sessionId sessions)
             (entryOf <$> slice_last 5 (historyBefore sessionId sessions w
                                        ++ [itemOf instruction state condensed]))),
       w').
Proof.
  intros Hstamp Hkept Hrun.
  destruct (String.eqb (default "" instruction) "") eqn:Hinstruction.
  { unfold postInstruction in Hrun. rewrite Hinstruction in Hrun. discriminate Hrun. }
  destruct (postInstruction_outcome stamp instruction sessionId sessions w
              Hinstruction Hstamp Hkept) as (reply & w2 & Hrun' & Hlen & Hreply).
  rewrite Hrun in Hrun'. injection Hrun' as <- -> <-.
  destruct Hreply as (-> & state & w1 & Hcapture & Hai).
  destruct (sessionFor_wellKept stamp sessionId sessions w Hstamp Hkept)
    as (_ & _ & Hlt).
  pose proof (sessionFor_registered stamp sessionId sessions w) as Hreg.
  set (l := fst (sessionFor stamp sessionId sessions w)) in *.
  assert (Hstore1 : store w1 = store (allocated w)).
  { unfold getCurrentScreenState in Hcapture.
    destruct (screen_at (captures (allocated w))); injection Hcapture as _ <-; reflexivity. }
  destruct (handleAIInstruction_Ok _ _ _ _ Hai) as (data & updated & _ & -> & Hupd & ->).
  cbn [o_sessionContext postOptions] in Hupd.
  destruct (updateSessionContext_Ok _ _ _ _ Hupd) as (condensed & Hsimple & Hhist & _).
  cbn [parsedResponse newItemOf] in Hsimple.
  assert (Hitem : stored (newItemOf (postOptions instruction state l)
                            (parseModelResponse data)) condensed
                  = itemOf instruction state condensed).
  { unfold stored, newItemOf, itemOf. cbn [o_instruction postOptions].
    rewrite Hinstruction. reflexivity. }
  rewrite Hitem in Hhist.
  assert (Hold : default [] (history (default emptyContext (store w1 !! l)))
                 = historyBefore sessionId sessions w).
  { rewrite Hstore1. unfold historyBefore, contextAt. subst l. unfold sessionFor.
    destruct (knownSession sessionId sessions) as [l0|] eqn:Hknown; cbn [fst].
    - destruct (knownSession_Some _ _ _ Hknown) as (id0 & _ & _ & Hl0).
      destruct (Hkept id0 l0 Hl0) as (_ & _ & Hin).
      unfold allocated. cbn [store]. rewrite lookup_app_l by exact Hin. reflexivity.
    - unfold allocated. cbn [store]. rewrite lookup_fresh. reflexivity. }
  rewrite Hold in Hhist.
  exists state, condensed. split; [reflexivity|]. split; [exact Hsimple|].
  unfold getSession.
  destruct (String.eqb_spec (sessionIdFor stamp sessionId sessions) "") as [Hempty|_];
    [destruct (sessionIdFor_nonempty _ sessionId sessions Hstamp Hempty)|].
  rewrite Hreg. unfold bind, load, ret. cbn [store o_sessionContext postOptions].
  fold l. rewrite list_lookup_insert_eq by (rewrite Hstore1; exact Hlt).
  change (default emptyContext (Some updated)) with updated.
  rewrite Hhist. reflexivity.
Qed.

End WithHost.

Import Scenarios.


Lemma rest_instruction_is_retained_witness :
  exists id response sessions' w' entries,
    postInstruction (H := idleHost) "1700000000000" (Some "open settings") VUndef
      noSessions initialWorld
    = (Ok (Answered (Some id) response, sessions'), w') /\
    getSession id sessions' w' = (Ok (Listed id entries), w') /\
    length entries = 1%nat.
Proof.
  destruct (postInstruction (H := idleHost) "1700000000000" (Some "open settings") VUndef
              noSessions initialWorld) as [[[reply sessions']| |] w'] eqn:Hrun;
    try (vm_compute in Hrun; discriminate Hrun).
  destruct reply as [status m|id response|id entries|];
    try (vm_compute in Hrun; discriminate Hrun).
  assert (Hstamp : "1700000000000" <> "") by discriminate.
  destruct (rest_instruction_is_retained (H := idleHost) _ _ _ _ _ _ _ _ _
              Hstamp (wellKept_none initialWorld) Hrun)
    as (state & condensed & -> & _ & Hget).
  eexists _, _, _, _, _. split; [reflexivity|]. split; [exact Hget|]. reflexivity.
Defined.

End AiRoutesFacts.

(* ===================================================================== *)
(** * Corrective commands *)
(* ===================================================================== *)

Module CorrectionMore.
Import Js DataModel Eff AndroidConnection CommandExecutor AiService SocketHandlers.
Import AiServiceFacts CommandExecutorFacts SocketHandlersFacts.

(** ** The corrective commands *)

(** The event that announces a command to the client. *)
Definition announce (command : obj) : Event := Emit "command-start" (VObj command).

(** A run that ends has announced its command first and returned. *)
Definition attempted (command : obj) (o : outcome CommandResult) (tr : list Event) : Prop :=
  (o <> Starved -> exists r, o = Ok r) /\ exists rest, tr = announce command :: rest.

(** A run over a list that ends has announced every command, in order. *)
Definition allAttempted (cmds : list obj) (o : outcome (list CommandResult))
    (tr : list Event) : Prop :=
  o <> Starved ->
  (exists rs, o = Ok rs /\ length rs = length cmds) /\ sublist (announce <$> cmds) tr.

Section WithHost.
Context `{Host}.

Lemma executeAndHandleSingleCommand_attempted fuel command :
  traced (attempted command) (executeAndHandleSingleCommand fuel command).
Proof.
  set (recover := fun errorMessage : string =>
         match fuel with
         | O => starve
         | S fuel' =>
             handleErrorCorrectionWith (executeAndHandleSingleCommand fuel')
               command errorMessage
         end).
  set (body :=
         try_catch
           (let* result := executeCommand fuel (VObj command) in
            let commandResult :=
              {| cr_command := command; success := true;
                 cr_result := Some result; cr_error := None |} in
            emit "command-result" (commandResultValue commandResult);;;
            sleep (VNum 1000);;;
            ret commandResult)
           (fun errorMessage =>
              let commandResult :=
                {| cr_command := command; success := false;
                   cr_result := None; cr_error := Some errorMessage |} in
              emit "command-result" (commandResultValue commandResult);;;
              recover errorMessage;;;
              ret commandResult)).
  assert (Hshape : executeAndHandleSingleCommand fuel command
                   = (emit "command-start" (VObj command);;; body)).
  { subst body recover. destruct fuel; reflexivity. }
  assert (Hbody : grows body).
  { subst body. apply grows_try_catch.
    - apply grows_bind; [exact (traced_grows _ _ (mute_executeCommand fuel _))|].
      intros result. apply grows_bind; [apply grows_emit|]. intros _.
      apply grows_bind; [exact (traced_grows _ _ (mute_sleep _))|]. intros _.
      apply grows_ret.
    - intros m. apply grows_bind; [apply grows_emit|]. intros _.
      apply grows_bind; [|intros _; apply grows_ret].
      subst recover. destruct fuel as [|fuel'].
      + apply traced_starve. exact I.
      + apply (traced_grows _ _
                 (handleErrorCorrectionWith_recovered _ command m
                    (executeAndHandleSingleCommand_settled fuel'))). }
  intros w.
  destruct (executeAndHandleSingleCommand_settled fuel command w) as (tr & Htr & Hset).
  exists tr. split; [exact Htr|]. split.
  - intros Hne. exact (proj1 (Hset Hne)).
  - rewrite Hshape in Htr.
    destruct (trace_bind_after (emit "command-start" (VObj command)) (fun _ => body)
                w _ _ [announce command] (emit_run _ _ w) eq_refl (fun _ => Hbody))
      as (rest & Hrest).
    rewrite Hrest in Htr. apply app_inv_head in Htr. exists rest. symmetry. exact Htr.
Qed.

Lemma for_each_allAttempted fuel cmds :
  traced (allAttempted cmds) (for_each (executeAndHandleSingleCommand fuel) cmds).
Proof.
  induction cmds as [|command rest IH]; cbn [for_each].
  - apply traced_ret. intros _. split; [exists []; split; reflexivity | constructor].
  - intros w.
    destruct (executeAndHandleSingleCommand_attempted fuel command w)
      as (tr1 & Htr1 & Hreturned & first & ->).
    destruct (executeAndHandleSingleCommand fuel command w) as [[r|m|] w1] eqn:Hrun;
      cbn [fst snd] in *.
    + rewrite (bind_Ok _ _ _ _ _ Hrun).
      destruct (IH w1) as (tr2 & Htr2 & Hall).
      exists ((announce command :: first) ++ tr2).
      destruct (for_each (executeAndHandleSingleCommand fuel) rest w1)
        as [[rs|m|] w2] eqn:Hrest; cbn [fst snd] in *.
      * rewrite (bind_Ok _ _ _ _ _ Hrest). unfold ret. cbn [fst snd].
        split; [rewrite Htr2, Htr1, app_assoc; reflexivity|]. intros _.
        destruct (Hall ltac:(discriminate)) as [(rs' & Hrs & Hlen) Hsub].
        injection Hrs as <-. split.
        -- exists (r :: rs). split; [reflexivity | simpl; rewrite Hlen; reflexivity].
        -- rewrite fmap_cons. cbn [app]. apply sublist_skip.
           apply sublist_inserts_l. exact Hsub.
      * destruct (Hall ltac:(discriminate)) as [(rs' & Hrs & _) _]. discriminate Hrs.
      * rewrite (bind_Starved _ _ _ _ Hrest). cbn [fst snd].
        split; [rewrite Htr2, Htr1, app_assoc; reflexivity|]. intros Hne.
        destruct (Hne eq_refl).
    + destruct (Hreturned ltac:(discriminate)) as [r Hr]. discriminate Hr.
    + rewrite (bind_Starved _ _ _ _ Hrun). cbn [fst snd].
      exists (announce command :: first). split; [exact Htr1|]. intros Hne.
      destruct (Hne eq_refl).
Qed.

(** X30. When the model answers a correction request with commands, each
    of them is put to the device in turn, also after one of them failed:
    in every run that ends, the sub-flow returns normally and what it did
    between its request and the ['error-correction-end'] it emits holds the
    announcement of every corrective command, in the order the model gave
    them. *)
Theorem every_corrective_command_is_attempted fuel command message w state data t :
  screen_at (captures w) = inr state ->
  configured = true ->
  model_at (posts w) (correctionMessages command message state (contextInUse w))
    = inr data ->
  thinking (parseModelResponse data) = VStr t ->
  fst (handleErrorCorrection fuel command message w) <> Starved ->
  exists w' tr,
    handleErrorCorrection fuel command message w = (Ok tt, w') /\
    trace w' = trace w ++
      [ Capture None;
        Emit "error-correction-start" VUndef;
        Post (correctionMessages command message state (contextInUse w)) None ]
      ++ tr
      ++ [ Emit "error-correction-end" (responseValue (parseModelResponse data)) ] /\
    sublist (announce <$> commands (parseModelResponse data)) tr.
Proof.
  intros Hscreen Hconf Hmodel Hthinking Hends. unfold handleErrorCorrection in *.
  destruct (handleErrorCorrectionWith_start
              (executeAndHandleSingleCommand fuel) command message w state Hscreen)
    as (l & w1 & Hstart & Htr & Hpost & Hadb & Hreq).
  rewrite Hstart in Hends. rewrite Hstart. clear Hstart.
  rewrite <- Hreq, <- Hpost in Hmodel.
  destruct (handleAIInstruction_success _ _ _ _ Hconf Hmodel Hthinking)
    as (w2 & Hrun & Htr2 & _).
  unfold try_catch in *. rewrite (bind_Ok _ _ _ _ _ Hrun) in *.
  destruct (for_each_allAttempted fuel (commands (parseModelResponse data)) w2)
    as (tr & Htr3 & Hall).
  unfold bind in *.
  destruct (for_each (executeAndHandleSingleCommand fuel)
              (commands (parseModelResponse data)) w2) as [[rs|m|] w3] eqn:Hloop;
    cbn [fst snd] in *.
  - destruct (Hall ltac:(discriminate)) as [_ Hsub].
    eexists _, tr. split; [reflexivity|]. split; [|exact Hsub].
    cbn [trace]. rewrite Htr3, Htr2, Htr, Hreq. rewrite <- !app_assoc. reflexivity.
  - destruct (Hall ltac:(discriminate)) as [(rs & Hrs & _) _]. discriminate Hrs.
  - destruct (Hends eq_refl).
Qed.

End WithHost.

Import Scenarios.

Lemma every_corrective_command_is_attempted_witness :
  exists w' tr,
    handleErrorCorrection (H := tapThenIdleHost) 1 bareTap "device offline" initialWorld
    = (Ok tt, w') /\
    sublist (announce <$> commands (parseModelResponse (H := tapThenIdleHost)
                                      (Some [oneTapText]))) tr /\
    length (commands (parseModelResponse (H := tapThenIdleHost) (Some [oneTapText])))
    = 1%nat.
Proof.
  destruct (every_corrective_command_is_attempted (H := tapThenIdleHost)
              1 bareTap "device offline" initialWorld aScreen (Some [oneTapText]) "first"
              eq_refl eq_refl eq_refl
              ltac:(vm_compute; reflexivity) ltac:(vm_compute; discriminate))
    as (w' & tr & Hrun & _ & Hsub).
  exists w', tr. split; [exact Hrun|]. split; [exact Hsub|]. vm_compute. reflexivity.
Defined.

End CorrectionMore.
